(** * Smart Book Discovery Engine: a shallow embedding of DiscoveryService.js

    The development follows the JavaScript service class (the recommendation
    pipeline, the two fallbacks, the Reading DNA profile and the Dewey
    classifier) together with the SQL statements it sends to the store.

    Modelling conventions.
    - A JS [Set<string>] is the list of its elements in insertion order; a
      well-formed set has no duplicates ([NoDup]).  A JS [Map] is an
      association list in insertion order.
    - Similarity scores and weights are exact rationals ([Q]): the quotient
      of two counts, and sums of such quotients.  The number produced by
      [parseFloat] is a [number] (NaN, an infinity, or a rational).
      Where the service rounds ([toFixed]) the digits are those of the
      exact value; the service itself computes with doubles, whose digits
      can differ from these where the exact value lies half-way between two
      decimals or has more digits than a double holds.
    - A string is the sequence of bytes of its UTF-8 encoding, so a
      character below U+0080 is one byte and no byte of a longer character
      is below 128.  The digits, signs and letters the service inspects are
      single bytes; the white space [parseFloat] skips is recognised in its
      encoded form.  SQL string comparison is equality of the bytes.
    - The object in which the peer rows are grouped is a plain object: a
      reader id that names a property of [Object.prototype] finds the
      inherited value, on which the grouping throws, and [Object.entries]
      lists the ids that are array indices first, in ascending order.
    - [localeCompare] is a parameter of the ranking.
    - The store is three tables (lists of rows).  Each [pool.execute] is a
      function of the tables; a statement MySQL rejects (a negative LIMIT, an
      empty IN list) makes the call fail.  Calls are recorded in a log.
    - The HTTP routes of server.js, the batching of seed.js and the bar of
      the test script are the modules [Server], [Seed] and [TestScript].  A
      route is a function from the store to the statements sent and the
      response; a loop that may not end takes a bound on the number of
      times its condition is tested. *)

From Stdlib Require Import List String Ascii Bool ZArith QArith Qround Qabs Lia.
From Stdlib Require Import Permutation Sorted DecimalString DecimalN Lqa.
Import ListNotations.

Local Open Scope Z_scope.

(** ** JavaScript containers *)

Module JSSet.

Definition t := list string.

Definition has (s : t) (x : string) : bool := existsb (String.eqb x) s.

Definition add (s : t) (x : string) : t := if has s x then s else s ++ [x].

(** [new Set(iterable)] *)
Definition of_list (l : list string) : t := fold_left add l [].

Definition size (s : t) : Z := Z.of_nat (List.length s).

End JSSet.

Module JSMap.

Definition t (V : Type) := list (string * V).

Definition get {V} (m : t V) (k : string) : option V :=
  option_map snd (find (fun kv => String.eqb k (fst kv)) m).

Definition has {V} (m : t V) (k : string) : bool :=
  match get m k with Some _ => true | None => false end.

(** [set] keeps the position of an existing key and appends a new one. *)
Fixpoint set {V} (m : t V) (k : string) (v : V) : t V :=
  match m with
  | [] => [(k, v)]
  | (k', v') :: m' =>
      if String.eqb k k' then (k, v) :: m' else (k', v') :: set m' k v
  end.

Definition keys {V} (m : t V) : list string := map fst m.

Definition size {V} (m : t V) : Z := Z.of_nat (List.length m).

End JSMap.

Module JSArray.

(** [Array.prototype.sort(comparefn)]: a stable sort; [x] goes before the
    first [y] with [comparefn(x, y) <= 0].  For a consistent [comparefn]
    every stable sort returns this list. *)
Fixpoint insert {A} (comparefn : A -> A -> Q) (x : A) (l : list A) : list A :=
  match l with
  | [] => [x]
  | y :: l' =>
      if Qle_bool (comparefn x y) 0 then x :: y :: l'
      else y :: insert comparefn x l'
  end.

Definition sort {A} (comparefn : A -> A -> Q) (l : list A) : list A :=
  fold_right (insert comparefn) [] l.

(** [arr.slice(0, end)] for an integer [end]; a negative [end] counts from
    the end of the array. *)
Definition slice0 {A} (l : list A) (end_ : Z) : list A :=
  let len := Z.of_nat (List.length l) in
  let final := if end_ <? 0 then Z.max (len + end_) 0 else Z.min end_ len in
  firstn (Z.to_nat final) l.

End JSArray.

(** ** Similarity engine, peer scorer, candidate aggregator *)

Definition MIN_SIMILARITY : Q := 1 # 10.
Definition MAX_PEERS : Z := 50.
Definition MAX_RESULTS : Z := 10.

Definition _jaccard (setA setB : JSSet.t) : Q :=
  if (JSSet.size setA =? 0) && (JSSet.size setB =? 0) then 0%Q
  else
    let '(smaller, larger) :=
      if JSSet.size setA <=? JSSet.size setB then (setA, setB) else (setB, setA) in
    let intersectionCount :=
      fold_left (fun n item => if JSSet.has larger item then n + 1 else n)
                smaller 0 in
    let unionCount := JSSet.size setA + JSSet.size setB - intersectionCount in
    (inject_Z intersectionCount / inject_Z unionCount)%Q.

Record Peer := mkPeer { peerId : string; score : Q; books : JSSet.t }.

Definition _scorePeers (targetBooks : JSSet.t) (allUserBooks : JSMap.t JSSet.t)
    (minScore : Q) : list Peer :=
  let scored :=
    fold_left
      (fun scored '(peerId, peerBooks) =>
         let score := _jaccard targetBooks peerBooks in
         if Qle_bool minScore score
         then scored ++ [mkPeer peerId score peerBooks]
         else scored)
      allUserBooks [] in
  JSArray.sort (fun a b => (score b - score a)%Q) scored.

Record Candidate := mkCandidate
  { weightedScore : Q; recommendedBy : list string }.

(** The body of the inner loop: one book of one peer. *)
Definition aggregate_book (targetBooks : JSSet.t) (p : Peer)
    (candidates : JSMap.t Candidate) (bookId : string) : JSMap.t Candidate :=
  if JSSet.has targetBooks bookId then candidates
  else
    let candidates :=
      if negb (JSMap.has candidates bookId)
      then JSMap.set candidates bookId (mkCandidate 0%Q [])
      else candidates in
    match JSMap.get candidates bookId with
    | Some entry =>
        JSMap.set candidates bookId
          (mkCandidate (weightedScore entry + score p)%Q
                       (recommendedBy entry ++ [peerId p]))
    | None => candidates
    end.

(** The body of the outer loop: all the books of one peer. *)
Definition aggregate_peer (targetBooks : JSSet.t)
    (candidates : JSMap.t Candidate) (p : Peer) : JSMap.t Candidate :=
  fold_left (aggregate_book targetBooks p) (books p) candidates.

Definition _aggregateCandidates (peers : list Peer) (targetBooks : JSSet.t)
    : JSMap.t Candidate :=
  fold_left (aggregate_peer targetBooks) peers [].

(** ** Numbers and strings of the category classifier *)

Module JSNumber.

(** The value of a JS number as far as the classifier observes it. *)
Inductive number :=
| NaN
| Infinity (negative : bool)
| Finite (q : Q).

(** The result of [Math.floor]: NaN, an infinity or an integer. *)
Inductive integer :=
| INaN
| IInfinity (negative : bool)
| IFinite (z : Z).

Definition is_digit (c : ascii) : bool :=
  let n := nat_of_ascii c in ((48 <=? n) && (n <=? 57))%nat.

Definition digit_value (c : ascii) : Z := Z.of_nat (nat_of_ascii c) - 48.

(** StrWhiteSpaceChar, in UTF-8.  One byte: TAB, LF, VT, FF, CR and SP. *)
Definition is_white_space (c : ascii) : bool :=
  let n := nat_of_ascii c in
  (((9 <=? n) && (n <=? 13)) || (n =? 32))%nat.

(** Two bytes: NBSP (U+00A0, C2 A0). *)
Definition is_white_space2 (c1 c2 : ascii) : bool :=
  ((nat_of_ascii c1 =? 194) && (nat_of_ascii c2 =? 160))%nat.

(** Three bytes: U+1680 (E1 9A 80); U+2000 to U+200A, the line and
    paragraph separators U+2028 and U+2029, and U+202F (E2 80 80 to 8A, A8,
    A9, AF); U+205F (E2 81 9F); U+3000 (E3 80 80); the byte order mark
    U+FEFF (EF BB BF). *)
Definition is_white_space3 (c1 c2 c3 : ascii) : bool :=
  let n1 := nat_of_ascii c1 in
  let n2 := nat_of_ascii c2 in
  let n3 := nat_of_ascii c3 in
  (((n1 =? 225) && (n2 =? 154) && (n3 =? 128))
   || ((n1 =? 226) && (n2 =? 128)
       && (((128 <=? n3) && (n3 <=? 138))
           || (n3 =? 168) || (n3 =? 169) || (n3 =? 175)))
   || ((n1 =? 226) && (n2 =? 129) && (n3 =? 159))
   || ((n1 =? 227) && (n2 =? 128) && (n3 =? 128))
   || ((n1 =? 239) && (n2 =? 187) && (n3 =? 191)))%nat.

Fixpoint trimStart (s : string) : string :=
  match s with
  | String c1 s1 =>
      if is_white_space c1 then trimStart s1
      else
        match s1 with
        | String c2 s2 =>
            if is_white_space2 c1 c2 then trimStart s2
            else
              match s2 with
              | String c3 s3 =>
                  if is_white_space3 c1 c2 c3 then trimStart s3 else s
              | EmptyString => s
              end
        | EmptyString => s
        end
  | EmptyString => EmptyString
  end.

(** The longest run of decimal digits at the head of [s], and what follows. *)
Fixpoint span_digits (s : string) : list ascii * string :=
  match s with
  | String c s' =>
      if is_digit c
      then let '(ds, r) := span_digits s' in (c :: ds, r)
      else ([], s)
  | EmptyString => ([], EmptyString)
  end.

Definition digits_value (ds : list ascii) : Z :=
  fold_left (fun acc c => 10 * acc + digit_value c) ds 0.

(** An optional sign: whether it is a minus, and what follows it. *)
Definition strip_sign (s : string) : bool * string :=
  match s with
  | String c r =>
      if Ascii.eqb c "-" then (true, r)
      else if Ascii.eqb c "+" then (false, r)
      else (false, s)
  | EmptyString => (false, s)
  end.

(** ExponentPart: [e] or [E], an optional sign, at least one digit.
    [None] when [s] does not start with one. *)
Definition exponent_part (s : string) : option Z :=
  match s with
  | String c r =>
      if (Ascii.eqb c "e" || Ascii.eqb c "E")%char then
        let '(neg, r') := strip_sign r in
        match fst (span_digits r') with
        | [] => None
        | ds => Some (if neg then - digits_value ds else digits_value ds)
        end
      else None
  | EmptyString => None
  end.

(** [mantissa * 10^e10] *)
Definition scale10 (mantissa e10 : Z) : Q :=
  if 0 <=? e10 then inject_Z (mantissa * 10 ^ e10)
  else (mantissa # Z.to_pos (10 ^ (- e10)))%Q.

(** The digits after a dot at the head of [s], and what follows them. *)
Definition fraction_part (s : string) : list ascii * string :=
  match s with
  | String c r => if Ascii.eqb c "." then span_digits r else ([], s)
  | EmptyString => ([], s)
  end.

(** [parseFloat(s)]: the value of the longest prefix of the trimmed string
    that is a StrDecimalLiteral; NaN when there is none. *)
Definition parseFloat (s : string) : number :=
  let trimmed := trimStart s in
  let '(neg, body) := strip_sign trimmed in
  if String.prefix "Infinity" body then Infinity neg
  else
    let '(ip, r1) := span_digits body in
    let '(fp, r2) := fraction_part r1 in
    match ip ++ fp with
    | [] => NaN
    | ds =>
        let e := match exponent_part r2 with Some e => e | None => 0 end in
        let v := scale10 (digits_value ds) (e - Z.of_nat (List.length fp)) in
        Finite (if neg then - v else v)%Q
    end.

Definition Math_floor (n : number) : integer :=
  match n with
  | NaN => INaN
  | Infinity neg => IInfinity neg
  | Finite q => IFinite (Qfloor q)
  end.

Definition decimal (z : Z) : string :=
  NilZero.string_of_uint (N.to_uint (Z.to_N z)).

Fixpoint drop_zeros (l : list ascii) : list ascii :=
  match l with
  | c :: l' => if Ascii.eqb c "0" then drop_zeros l' else l
  | [] => []
  end.

Definition strip_trailing_zeros (s : string) : string :=
  string_of_list_ascii (rev (drop_zeros (rev (list_ascii_of_string s)))).

(** Number::toString for a positive integer: plain digits below 10^21,
    exponent notation from there on. *)
Definition positive_toString (z : Z) : string :=
  let digits := decimal z in
  if (z <? 10 ^ 21)%Z then digits
  else
    let n := Z.of_nat (String.length digits) in
    match strip_trailing_zeros digits with
    | String d EmptyString => String d ("e+" ++ decimal (n - 1)%Z)
    | String d rest => String d ("." ++ rest ++ "e+" ++ decimal (n - 1)%Z)
    | EmptyString => EmptyString
    end%string.

(** [String(n)] *)
Definition String_ (n : integer) : string :=
  match n with
  | INaN => "NaN"
  | IInfinity false => "Infinity"
  | IInfinity true => "-Infinity"
  | IFinite z =>
      if (z =? 0)%Z then "0"
      else if (z <? 0)%Z then ("-" ++ positive_toString (- z))
      else positive_toString z
  end%string.

(** [n < bound]; false for NaN. *)
Definition lt (n : number) (bound : Z) : bool :=
  match n with
  | NaN => false
  | Infinity neg => neg
  | Finite q => negb (Qle_bool (inject_Z bound) q)
  end.

End JSNumber.

Module JSString.

Fixpoint repeat_char (c : ascii) (n : nat) : string :=
  match n with
  | O => EmptyString
  | S n' => String c (repeat_char c n')
  end.

(** [s.padStart(targetLength, c)] for a one-character filler *)
Definition padStart (s : string) (targetLength : nat) (c : ascii) : string :=
  (repeat_char c (targetLength - String.length s) ++ s)%string.

(** [s.slice(0, n)] *)
Definition slice0 (s : string) (n : nat) : string := String.substring 0 n s.

(** [arr.join(sep)] *)
Definition join (sep : string) (l : list string) : string := String.concat sep l.

End JSString.

(** ** Plain objects used as dictionaries *)

Module JSObject.

(** The own properties, in the order [Object.keys] and [Object.entries]
    list them. *)
Definition t (V : Type) := JSMap.t V.

(** The property names every plain object inherits from
    [Object.prototype]: each holds a function or, for [__proto__], the
    prototype itself. *)
Definition prototype_names : list string :=
  [ "constructor"; "__defineGetter__"; "__defineSetter__"; "hasOwnProperty";
    "__lookupGetter__"; "__lookupSetter__"; "isPrototypeOf";
    "propertyIsEnumerable"; "toString"; "valueOf"; "__proto__";
    "toLocaleString" ]%string.

Definition inherited (k : string) : bool :=
  existsb (String.eqb k) prototype_names.

Definition index_value (k : string) : Z :=
  JSNumber.digits_value (list_ascii_of_string k).

(** An array index: the canonical decimal numeral, without leading zero, of
    an integer from 0 to 2^32 - 2. *)
Definition is_array_index (k : string) : bool :=
  match k with
  | EmptyString => false
  | String c r =>
      forallb JSNumber.is_digit (list_ascii_of_string k)
      && (negb (Ascii.eqb c "0") || String.eqb r EmptyString)
      && (index_value k <? 2 ^ 32 - 1)
  end.

(** Where a new array index goes: after the array indices that are smaller,
    before every other key. *)
Fixpoint insert_index {V} (obj : t V) (k : string) (v : V) : t V :=
  match obj with
  | [] => [(k, v)]
  | (k', v') :: obj' =>
      if is_array_index k' && (index_value k' <? index_value k)
      then (k', v') :: insert_index obj' k v
      else (k, v) :: obj
  end.

(** [obj[k] = v]: an own property keeps its place; a new key is listed
    among the array indices, which come first in ascending order, or else
    after all the keys there are. *)
Definition set {V} (obj : t V) (k : string) (v : V) : t V :=
  if JSMap.has obj k || negb (is_array_index k) then JSMap.set obj k v
  else insert_index obj k v.

End JSObject.

(** ** Category classifier *)

Definition specific : list (string * string) :=
  [ ("005", "Technology & Computer Science");
    ("153", "Cognitive Psychology");
    ("155", "Developmental Psychology");
    ("158", "Applied Psychology & Self-Help");
    ("302", "Social Influences & Behaviour");
    ("332", "Finance & Economics");
    ("658", "Business & Management");
    ("745", "Design & Decorative Arts");
    ("909", "World History");
    ("921", "Biography & Memoir") ]%string.

Definition dewey_prefix (num : JSNumber.number) : string :=
  JSString.slice0
    (JSString.padStart (JSNumber.String_ (JSNumber.Math_floor num)) 3 "0") 3.

Definition _deweyCategory (dewey : string) : string :=
  let num := JSNumber.parseFloat dewey in
  let prefix := dewey_prefix num in
  match JSMap.get specific prefix with
  | Some label => label
  | None =>
      if JSNumber.lt num 100 then "General & Computer Science"
      else if JSNumber.lt num 200 then "Philosophy & Psychology"
      else if JSNumber.lt num 300 then "Religion & Theology"
      else if JSNumber.lt num 400 then "Social Sciences"
      else if JSNumber.lt num 500 then "Language & Linguistics"
      else if JSNumber.lt num 600 then "Pure Science"
      else if JSNumber.lt num 700 then "Applied Science & Technology"
      else if JSNumber.lt num 800 then "Arts & Recreation"
      else if JSNumber.lt num 900 then "Literature"
      else "History, Geography & Biography"
  end%string.

(** ** The store: tables, SQL operators, and the query monad *)

Module Book.
Record row := mk
  { book_id : string; title : string; author : string; dewey_decimal : string }.
End Book.

Module User.
Record row := mk { user_id : string; name : string }.
End User.

Module Loan.
Record row := mk
  { loan_id : string; user_id : string; book_id : string; borrowed_at : string }.
End Loan.

Module Store.
Record Database := mk
  { books : list Book.row; users : list User.row; loans : list Loan.row }.
End Store.

Module SQL.

(** [x IN (l)] *)
Definition in_list (x : string) (l : list string) : bool :=
  existsb (String.eqb x) l.

(** [GROUP BY key] with [COUNT]: one pair per distinct key, in order of first
    occurrence, holding the first row of the group and the group's size. *)
Definition group_count {R} (key : R -> string) (rows : list R) : list (R * Z) :=
  map snd
    (fold_left
       (fun groups r =>
          match JSMap.get groups (key r) with
          | Some (r0, n) => JSMap.set groups (key r) (r0, n + 1)
          | None => JSMap.set groups (key r) (r, 1)
          end)
       rows []).

(** [ORDER BY f DESC]; rows with equal [f] keep their order. *)
Definition order_by_desc {R} (f : R -> Z) (rows : list R) : list R :=
  JSArray.sort (fun a b => inject_Z (f b - f a)) rows.

(** [ORDER BY f] on a string column, by bytes. *)
Definition order_by_string {R} (f : R -> string) (rows : list R) : list R :=
  JSArray.sort
    (fun a b =>
       match String.compare (f a) (f b) with
       | Lt => (-1)%Q
       | Eq => 0%Q
       | Gt => 1%Q
       end)
    rows.

(** [LIMIT n]; a negative [n] is rejected. *)
Definition limit {R} (n : Z) (rows : list R) : option (list R) :=
  if n <? 0 then None else Some (firstn (Z.to_nat n) rows).

End SQL.

(** The statements the service sends, with their parameters. *)
Inductive statement :=
| SelectBorrowedBooks (userId : string)
| SelectAllUserBooks (excludeUserId : string)
| SelectBooksIn (bookIds : list string)
| SelectColdStart (limit : Z)
| SelectDeweyFallback (bookIds : list string) (limit : Z)
| SelectReadingDNA (userId : string).

(** A computation reads the store, logs its statements, and may fail. *)
Definition M (A : Type) : Type := Store.Database -> list statement * option A.

Definition ret {A} (a : A) : M A := fun _ => ([], Some a).

Definition throw {A} : M A := fun _ => ([], None).

Definition bind {A B} (m : M A) (f : A -> M B) : M B :=
  fun db =>
    match m db with
    | (log, Some a) => let '(log', r) := f a db in (log ++ log', r)
    | (log, None) => (log, None)
    end.

Notation "x <- m ;; k" := (bind m (fun x => k))
  (at level 61, m at next level, right associativity).

(** [await this.pool.execute(sql, params)] *)
Definition execute {R} (st : statement)
    (rows : Store.Database -> option (list R)) : M (list R) :=
  fun db => ([st], rows db).

(** The value a computation returns on a store, and the statements it sent. *)
Definition run {A} (m : M A) (db : Store.Database) : option A := snd (m db).

Definition sent {A} (m : M A) (db : Store.Database) : list statement := fst (m db).

(** ** Rows returned by the statements *)

Record PopularRow := mkPopularRow { popular_book : Book.row; borrow_count : Z }.

Record DNARow := mkDNARow
  { dna_name : string; dna_dewey_decimal : string; book_count : Z }.

Definition select_borrowed_books (userId : string) (db : Store.Database)
    : option (list string) :=
  Some (map Loan.book_id
          (filter (fun l => String.eqb (Loan.user_id l) userId) (Store.loans db))).

Definition select_all_user_books (excludeUserId : string) (db : Store.Database)
    : option (list (string * string)) :=
  Some (map (fun l => (Loan.user_id l, Loan.book_id l))
          (SQL.order_by_string Loan.user_id
             (filter (fun l => negb (String.eqb (Loan.user_id l) excludeUserId))
                     (Store.loans db)))).

Definition select_books_in (bookIds : list string) (db : Store.Database)
    : option (list Book.row) :=
  match bookIds with
  | [] => None
  | _ => Some (filter (fun b => SQL.in_list (Book.book_id b) bookIds)
                      (Store.books db))
  end.

Definition loans_of_book (db : Store.Database) (b : Book.row) : list Loan.row :=
  filter (fun l => String.eqb (Loan.book_id l) (Book.book_id b)) (Store.loans db).

Definition select_cold_start (limit : Z) (db : Store.Database)
    : option (list PopularRow) :=
  let joined :=
    flat_map (fun b => map (fun l => (b, l)) (loans_of_book db b))
             (Store.books db) in
  let grouped := SQL.group_count (fun bl => Book.book_id (fst bl)) joined in
  let rows := map (fun g => mkPopularRow (fst (fst g)) (snd g)) grouped in
  SQL.limit limit (SQL.order_by_desc borrow_count rows).

Definition select_dewey_fallback (bookIds : list string) (limit : Z)
    (db : Store.Database) : option (list PopularRow) :=
  match bookIds with
  | [] => None
  | _ =>
      let joined :=
        flat_map
          (fun b1 =>
             flat_map
               (fun b2 =>
                  if String.eqb (Book.dewey_decimal b2) (Book.dewey_decimal b1)
                     && negb (SQL.in_list (Book.book_id b2) bookIds)
                  then map (fun l => (b1, b2, l)) (loans_of_book db b2)
                  else [])
               (Store.books db))
          (Store.books db) in
      let selected :=
        filter (fun r => SQL.in_list (Book.book_id (fst (fst r))) bookIds)
               joined in
      let grouped :=
        SQL.group_count (fun r => Book.book_id (snd (fst r))) selected in
      let rows := map (fun g => mkPopularRow (snd (fst (fst g))) (snd g)) grouped in
      SQL.limit limit (SQL.order_by_desc borrow_count rows)
  end.

Definition select_reading_dna (userId : string) (db : Store.Database)
    : option (list DNARow) :=
  let joined :=
    flat_map
      (fun u =>
         flat_map
           (fun l =>
              if String.eqb (Loan.user_id l) (User.user_id u)
              then map (fun b => (u, l, b))
                       (filter (fun b => String.eqb (Book.book_id b) (Loan.book_id l))
                               (Store.books db))
              else [])
           (Store.loans db))
      (Store.users db) in
  let selected :=
    filter (fun r => String.eqb (User.user_id (fst (fst r))) userId) joined in
  let grouped := SQL.group_count (fun r => Book.dewey_decimal (snd r)) selected in
  let rows :=
    map (fun g => mkDNARow (User.name (fst (fst (fst g))))
                           (Book.dewey_decimal (snd (fst g))) (snd g))
        grouped in
  Some (SQL.order_by_desc book_count rows).

(** ** Number formatting *)

(** The integer [n] for which [n / 10^f] is closest to [|x|], the larger one
    on a tie: the digits [Number.prototype.toFixed] prints (for magnitudes
    below 10^21, which is all the service produces). *)
Definition toFixed_digits (x : Q) (fractionDigits : nat) : Z :=
  Qfloor (Qabs x * inject_Z (10 ^ Z.of_nat fractionDigits) + (1 # 2))%Q.

(** [x.toFixed(f)] for [f > 0] *)
Definition toFixed (x : Q) (fractionDigits : nat) : string :=
  let m := JSNumber.decimal (toFixed_digits x fractionDigits) in
  let m := JSString.padStart m (S fractionDigits) "0" in
  let k := String.length m in
  ((if negb (Qle_bool 0 x) then "-" else EmptyString)
   ++ String.substring 0 (k - fractionDigits) m
   ++ "."
   ++ String.substring (k - fractionDigits) fractionDigits m)%string.

(** [parseFloat(x.toFixed(f))]: the value of the digits [toFixed] prints. *)
Definition parseFloat_toFixed (x : Q) (fractionDigits : nat) : Q :=
  let v := (toFixed_digits x fractionDigits
            # Z.to_pos (10 ^ Z.of_nat fractionDigits))%Q in
  if negb (Qle_bool 0 x) then (- v)%Q else v.

(** ** DiscoveryService *)

Record Opts := mkOpts { limit : option Z; minScore : option Q }.

Record RecommendationResult := mkResult
  { book_id : string;
    title : string;
    author : string;
    dewey_decimal : string;
    match_score : Q;
    recommended_by : list string;
    fallback : option string }.

Record ReadingDNAEntry := mkEntry
  { category : string; dewey : string; count : Z; percentage : string }.

Record ReadingDNA := mkDNA
  { userId : string;
    name : string;
    totalBooks : Z;
    breakdown : list ReadingDNAEntry;
    summary : string }.

Definition _getBorrowedBooks (userId : string) : M JSSet.t :=
  rows <- execute (SelectBorrowedBooks userId) (select_borrowed_books userId) ;;
  ret (JSSet.of_list rows).

(** [arr.reduce(f, init)] for a callback that may throw: the first failure
    aborts. *)
Fixpoint reduce_or_throw {A B} (f : B -> A -> option B) (arr : list A) (init : B)
    : option B :=
  match arr with
  | [] => Some init
  | a :: arr' =>
      match f init a with
      | Some acc => reduce_or_throw f arr' acc
      | None => None
      end
  end.

(** The callback of the grouping:
    [if (!map[user_id]) map[user_id] = new Set(); map[user_id].add(book_id)].
    [map] is a plain object: for an id that is not an own property but
    names a property of [Object.prototype], [map[user_id]] is the inherited
    value, which is truthy, so no Set is made, and has no method [add], so
    the call throws a TypeError. *)
Definition group_row (map : JSObject.t JSSet.t) (row : string * string)
    : option (JSObject.t JSSet.t) :=
  let '(user_id, book_id) := row in
  let map :=
    if negb (JSMap.has map user_id || JSObject.inherited user_id)
    then JSObject.set map user_id [] else map in
  match JSMap.get map user_id with
  | Some s => Some (JSObject.set map user_id (JSSet.add s book_id))
  | None => None
  end.

Definition _getAllUserBooks (excludeUserId : string) : M (JSMap.t JSSet.t) :=
  rows <- execute (SelectAllUserBooks excludeUserId)
                  (select_all_user_books excludeUserId) ;;
  match reduce_or_throw group_row rows [] with
  | Some map => ret map
  | None => throw
  end.

Definition _coldStartFallback (userId : string) (limit : Z)
    : M (list RecommendationResult) :=
  rows <- execute (SelectColdStart limit) (select_cold_start limit) ;;
  ret (map (fun r =>
              mkResult (Book.book_id (popular_book r))
                       (Book.title (popular_book r))
                       (Book.author (popular_book r))
                       (Book.dewey_decimal (popular_book r))
                       0%Q [] (Some "cold_start_popularity"%string))
           rows).

Definition _deweyFallback (userId : string) (targetBooks : JSSet.t) (limit : Z)
    : M (list RecommendationResult) :=
  let bookIdList := targetBooks in
  rows <- execute (SelectDeweyFallback bookIdList limit)
                  (select_dewey_fallback bookIdList limit) ;;
  ret (map (fun r =>
              mkResult (Book.book_id (popular_book r))
                       (Book.title (popular_book r))
                       (Book.author (popular_book r))
                       (Book.dewey_decimal (popular_book r))
                       0%Q [] (Some "dewey_category_popularity"%string))
           rows).

(** [f] applied to each element in turn; the first failure aborts. *)
Fixpoint map_or_throw {A B} (f : A -> option B) (l : list A) : option (list B) :=
  match l with
  | [] => Some []
  | a :: l' =>
      match f a with
      | Some b => option_map (cons b) (map_or_throw f l')
      | None => None
      end
  end.

Section Ranking.

(** [String.prototype.localeCompare]: negative, zero or positive. *)
Variable localeCompare : string -> string -> Z.

Definition rank_compare (a b : RecommendationResult) : Q :=
  let d := (match_score b - match_score a)%Q in
  if Qeq_bool d 0 then inject_Z (localeCompare (title a) (title b)) else d.

Definition _enrichAndRank (candidates : JSMap.t Candidate) (limit : Z)
    : M (list RecommendationResult) :=
  if JSMap.size candidates =? 0 then ret []
  else
    let bookIds := JSMap.keys candidates in
    books <- execute (SelectBooksIn bookIds) (select_books_in bookIds) ;;
    match
      map_or_throw
        (fun book =>
           match JSMap.get candidates (Book.book_id book) with
           | Some c =>
               Some (mkResult (Book.book_id book) (Book.title book)
                              (Book.author book) (Book.dewey_decimal book)
                              (parseFloat_toFixed (weightedScore c) 4)
                              (recommendedBy c) None)
           | None => None
           end)
        books
    with
    | Some results => ret (JSArray.slice0 (JSArray.sort rank_compare results) limit)
    | None => throw
    end.

Definition getRecommendations (userId : string) (opts : Opts)
    : M (list RecommendationResult) :=
  let limit := match limit opts with Some l => l | None => MAX_RESULTS end in
  let minScore :=
    match minScore opts with Some s => s | None => MIN_SIMILARITY end in
  targetBooks <- _getBorrowedBooks userId ;;
  if JSSet.size targetBooks =? 0 then _coldStartFallback userId limit
  else
    allUserBooks <- _getAllUserBooks userId ;;
    if Z.of_nat (List.length (JSMap.keys allUserBooks)) =? 0 then ret []
    else
      let peers := _scorePeers targetBooks allUserBooks minScore in
      if Z.of_nat (List.length peers) =? 0
      then _deweyFallback userId targetBooks limit
      else
        let candidates :=
          _aggregateCandidates (JSArray.slice0 peers MAX_PEERS) targetBooks in
        _enrichAndRank candidates limit.

End Ranking.

Definition getReadingDNA (userId : string) : M ReadingDNA :=
  rows <- execute (SelectReadingDNA userId) (select_reading_dna userId) ;;
  match rows with
  | [] =>
      ret (mkDNA userId "Unknown" 0 [] "No reading history found.")
  | row0 :: _ =>
      let userName := dna_name row0 in
      let totalBooks := fold_left (fun sum r => sum + book_count r) rows 0 in
      let breakdown :=
        map (fun r =>
               let dewey := dna_dewey_decimal r in
               let category := _deweyCategory dewey in
               let count := book_count r in
               let percentage :=
                 (toFixed (inject_Z count / inject_Z totalBooks * 100)%Q 2
                  ++ "%")%string in
               mkEntry category dewey count percentage)
            rows in
      let summary :=
        JSString.join ", "
          (map (fun b => (percentage b ++ " " ++ category b)%string) breakdown) in
      ret (mkDNA userId userName totalBooks breakdown summary)
  end.

(** ** The HTTP routes (config/server.js)

    A handler answers with one response; a rejected promise is passed by
    [asyncHandler] to the global error handler.  The texts are the bytes of
    the source file (UTF-8). *)

Module Server.

(** [/^U\d{3}$/.test(userId)] *)
Definition isValidUserId (userId : string) : bool :=
  match userId with
  | String "U" (String a (String b (String c EmptyString))) =>
      JSNumber.is_digit a && JSNumber.is_digit b && JSNumber.is_digit c
  | _ => false
  end.

Record Recommendation := mkRecommendation
  { rank : Z;
    book_id : string;
    title : string;
    author : string;
    dewey_decimal : string;
    match_score : Q;
    reason : string }.

Inductive Body :=
| Failure (error : string)
| FailureFor (userId error : string)
| Recommendations (userId : string) (count : Z)
                  (recommendations : list Recommendation)
| Patterns (userId name : string) (totalBooks : Z) (summary : string)
           (breakdown : list ReadingDNAEntry).

Record Response := mkResponse { status : Z; body : Body }.

Definition Handler := Store.Database -> list statement * Response.

Definition quote : string := String "034" EmptyString.

(** The global error handler *)
Definition error_handler : Response :=
  mkResponse 500 (Failure "Internal server error. Please try again.").

Definition asyncHandler (fn : M Response) : Handler :=
  fun db =>
    match fn db with
    | (log, Some res) => (log, res)
    | (log, None) => (log, error_handler)
    end.

Definition invalid_userId (userId : string) : Response :=
  mkResponse 400
    (Failure ("Invalid userId format. Expected format: U001, U002, … Got: "
              ++ quote ++ userId ++ quote)%string).

(** [!!s] for a string that may be undefined *)
Definition truthy (s : option string) : bool :=
  match s with
  | Some (String _ _) => true
  | Some EmptyString | None => false
  end.

(** [s === t] for a string [s] that may be undefined *)
Definition strict_eq (s : option string) (t : string) : bool :=
  match s with
  | Some s' => String.eqb s' t
  | None => false
  end.

(** The callback of [raw.map] *)
Definition shape (book : RecommendationResult) (index : Z) : Recommendation :=
  let peerCount := Z.of_nat (List.length (recommended_by book)) in
  let isFallback := truthy (fallback book) in
  let reason : string :=
    if isFallback && strict_eq (fallback book) "cold_start_popularity" then
      "Trending in the library — popular with all readers right now"%string
    else if isFallback && strict_eq (fallback book) "dewey_category_popularity"
    then "Popular in subjects you already enjoy reading"%string
    else
      ("Readers with similar tastes also enjoyed this book"
       ++ " (matched by " ++ JSNumber.String_ (JSNumber.IFinite peerCount)
       ++ " peer reader" ++ (if negb (peerCount =? 1)%Z then "s" else EmptyString)
       ++ ")")%string in
  let 'mkResult book_id title author dewey_decimal match_score _ _ := book in
  mkRecommendation (index + 1) book_id title author dewey_decimal match_score
                   reason.

(** [arr.map((x, index) => f(x, index))], from position [index] on *)
Fixpoint map_index {A B} (f : A -> Z -> B) (arr : list A) (index : Z) : list B :=
  match arr with
  | [] => []
  | x :: arr' => f x index :: map_index f arr' (index + 1)
  end.

(** GET /api/v1/recommend/:userId *)
Definition recommend (localeCompare : string -> string -> Z) (userId : string)
    : Handler :=
  asyncHandler
    (if negb (isValidUserId userId) then ret (invalid_userId userId)
     else
       raw <- getRecommendations localeCompare userId (mkOpts (Some 5) None) ;;
       let recommendations := map_index shape raw 0 in
       ret (mkResponse 200
              (Recommendations userId
                 (Z.of_nat (List.length recommendations)) recommendations))).

(** GET /api/v1/patterns/:userId *)
Definition patterns (userId : string) : Handler :=
  asyncHandler
    (if negb (isValidUserId userId) then ret (invalid_userId userId)
     else
       dna <- getReadingDNA userId ;;
       let 'mkDNA dna_userId dna_name dna_totalBooks dna_breakdown dna_summary :=
         dna in
       if dna_totalBooks =? 0
       then ret (mkResponse 404
                   (FailureFor userId
                      ("No reading history found for user " ++ quote ++ userId
                       ++ quote ++ ".")%string))
       else ret (mkResponse 200
                   (Patterns dna_userId dna_name dna_totalBooks dna_summary
                             dna_breakdown))).

End Server.

(** ** The seeder (script/seed.js) *)

Module Seed.

(** [arr.slice(start, end)] for integers: a negative index counts from the
    end of the array. *)
Definition slice {A} (arr : list A) (start end_ : Z) : list A :=
  let len := Z.of_nat (List.length arr) in
  let k := if start <? 0 then Z.max (len + start) 0 else Z.min start len in
  let final := if end_ <? 0 then Z.max (len + end_) 0 else Z.min end_ len in
  firstn (Z.to_nat (final - k)) (skipn (Z.to_nat k) arr).

(** The loop of [chunk], from index [i] with the batches pushed so far;
    [fuel] bounds the number of tests of the loop condition. *)
Fixpoint chunk_loop {A} (fuel : nat) (arr : list A) (size i : Z)
    (batches : list (list A)) : option (list (list A)) :=
  match fuel with
  | O => None
  | S fuel' =>
      if i <? Z.of_nat (List.length arr)
      then chunk_loop fuel' arr size (i + size)
                      (batches ++ [slice arr i (i + size)])
      else Some batches
  end.

Definition chunk {A} (fuel : nat) (arr : list A) (size : Z)
    : option (list (list A)) :=
  chunk_loop fuel arr size 0 [].

(** One call of [pool.execute(sql, flatValues)] *)
Record Insert := mkInsert { sql : string; flatValues : list string }.

Definition newline : string := String "010" EmptyString.

Definition backtick : string := String "096" EmptyString.

Definition placeholders (columns : list string) : string :=
  ("(" ++ JSString.join ", " (map (fun _ => "?") columns) ++ ")")%string.

Definition updateClause (columns : list string) : string :=
  JSString.join ", "
    (map (fun c => (backtick ++ c ++ backtick ++ " = VALUES(" ++ backtick ++ c
                    ++ backtick ++ ")")%string)
         columns).

(** The statement of one batch *)
Definition insert_statement (table : string) (columns : list string)
    (batch : list (list string)) : Insert :=
  let rowPlaceholders :=
    JSString.join ("," ++ newline ++ "  ")%string
                  (map (fun _ => placeholders columns) batch) in
  mkInsert
    (newline
     ++ "      INSERT INTO " ++ backtick ++ table ++ backtick ++ " (" ++ backtick
     ++ JSString.join (backtick ++ ", " ++ backtick) columns ++ backtick ++ ")"
     ++ newline
     ++ "      VALUES" ++ newline
     ++ "        " ++ rowPlaceholders ++ newline
     ++ "      ON DUPLICATE KEY UPDATE" ++ newline
     ++ "        " ++ updateClause columns ++ ";" ++ newline
     ++ "    ")%string
    (List.concat batch).

(** What [bulkInsert] does: the statements executed in order and the line
    logged at the end; [None] when [chunk] does not return. *)
Definition bulkInsert (table : string) (columns : list string)
    (rows : list (list string)) (label : string)
    : option (list Insert * string) :=
  if Z.of_nat (List.length rows) =? 0
  then Some ([], ("  ⚠  No " ++ label ++ " to insert.")%string)
  else
    let batchSize := 100 in
    match chunk (S (List.length rows)) rows batchSize with
    | None => None
    | Some batches =>
        let '(executed, inserted) :=
          fold_left
            (fun '(executed, inserted) batch =>
               (executed ++ [insert_statement table columns batch],
                inserted + Z.of_nat (List.length batch)))
            batches ([], 0) in
        Some (executed,
              ("  ✅  " ++ label ++ ": "
               ++ JSNumber.String_ (JSNumber.IFinite inserted)
               ++ " row(s) upserted into " ++ backtick ++ table ++ backtick
               ++ ".")%string)
    end.

End Seed.

(** ** The test script (test-recommendations.js) *)

Module TestScript.

(** [n / d] for a finite, positive [d] *)
Definition divide (n : JSNumber.number) (d : Z) : JSNumber.number :=
  match n with
  | JSNumber.Finite q => JSNumber.Finite (q / inject_Z d)
  | other => other
  end.

(** [Math.round]: the nearest integer, the larger one on a tie *)
Definition Math_round (n : JSNumber.number) : JSNumber.integer :=
  match n with
  | JSNumber.NaN => JSNumber.INaN
  | JSNumber.Infinity neg => JSNumber.IInfinity neg
  | JSNumber.Finite q => JSNumber.IFinite (Qfloor (q + (1 # 2)))
  end.

(** [a - n] for an integer [a] *)
Definition minus (a : Z) (n : JSNumber.integer) : JSNumber.integer :=
  match n with
  | JSNumber.INaN => JSNumber.INaN
  | JSNumber.IInfinity neg => JSNumber.IInfinity (negb neg)
  | JSNumber.IFinite z => JSNumber.IFinite (a - z)
  end.

(** [c.repeat(count)]: NaN counts as 0; a negative or infinite count is a
    RangeError. *)
Definition repeat (c : ascii) (count : JSNumber.integer) : option string :=
  match count with
  | JSNumber.INaN => Some EmptyString
  | JSNumber.IInfinity _ => None
  | JSNumber.IFinite z =>
      if z <? 0 then None else Some (JSString.repeat_char c (Z.to_nat z))
  end.

Definition bar (percentage : string) : option string :=
  let filled := Math_round (divide (JSNumber.parseFloat percentage) 5) in
  match repeat "#" filled with
  | Some a =>
      match repeat "." (minus 20 filled) with
      | Some b => Some (a ++ b)%string
      | None => None
      end
  | None => None
  end.

End TestScript.

(** ** Sample data *)

Definition sample_books : list Book.row :=
  [ Book.mk "B1" "Clean Code" "Robert Martin" "005.1";
    Book.mk "B2" "Rework" "Jason Fried" "658.1";
    Book.mk "B3" "Influence" "Robert Cialdini" "153.8";
    Book.mk "B4" "Zero to One" "Peter Thiel" "658.1";
    Book.mk "B5" "Sapiens" "Yuval Harari" "909";
    Book.mk "B6" "Refactoring" "Martin Fowler" "005.1";
    Book.mk "B7" "Drive" "Daniel Pink" "658.3";
    Book.mk "B8" "Atomic Habits" "James Clear" "158.1";
    Book.mk "B9" "Code Complete" "Steve McConnell" "005.1";
    Book.mk "B10" "The Lean Startup" "Eric Ries" "658.1";
    Book.mk "B11" "Grit" "Angela Duckworth" "158.1";
    Book.mk "B12" "Guns, Germs, and Steel" "Jared Diamond" "909" ]%string.

Definition sample_users : list User.row :=
  [ User.mk "U001" "Amaka Okoro"; User.mk "U002" "Bola Ade";
    User.mk "U003" "Chidi Eze"; User.mk "U004" "David Ibrahim";
    User.mk "U005" "Fatima Yusuf"; User.mk "U006" "Grace Obi" ]%string.

Definition loan (n u b : string) : Loan.row := Loan.mk n u b "2024-01-15".

Definition sample_loans : list Loan.row :=
  [ loan "L01" "U001" "B1"; loan "L02" "U001" "B2"; loan "L03" "U001" "B3";
    loan "L04" "U002" "B1"; loan "L05" "U002" "B2"; loan "L06" "U002" "B4";
    loan "L07" "U003" "B5";
    loan "L08" "U004" "B1"; loan "L09" "U004" "B4"; loan "L10" "U004" "B6";
    loan "L11" "U004" "B7"; loan "L12" "U004" "B8"; loan "L13" "U004" "B9";
    loan "L14" "U004" "B10"; loan "L15" "U004" "B11";
    loan "L16" "U006" "B12" ]%string.

Definition sample_db : Store.Database :=
  Store.mk sample_books sample_users sample_loans.

(** A [localeCompare] for the examples: the order of the bytes. *)
Definition code_unit_compare (a b : string) : Z :=
  match String.compare a b with Lt => -1 | Eq => 0 | Gt => 1 end.

Definition no_opts : Opts := mkOpts None None.

(** The end-to-end scenario: reader A has read B1, B2, B3; reader B has read
    B1, B2, B4; reader C has read B5. *)
Definition scenario_db : Store.Database :=
  Store.mk sample_books
           [ User.mk "A" "Reader A"; User.mk "B" "Reader B";
             User.mk "C" "Reader C" ]%string
           [ loan "L1" "A" "B1"; loan "L2" "A" "B2"; loan "L3" "A" "B3";
             loan "L4" "B" "B1"; loan "L5" "B" "B2"; loan "L6" "B" "B4";
             loan "L7" "C" "B5" ]%string.

(** A store in which only one reader has ever borrowed. *)
Definition solo_db : Store.Database :=
  Store.mk sample_books sample_users
           [ loan "L01" "U001" "B1"; loan "L02" "U001" "B2" ]%string.

(** A store in which a reader's id names a property every object
    inherits. *)
Definition inherited_db : Store.Database :=
  Store.mk sample_books sample_users
           [ loan "L01" "U001" "B1"; loan "L02" "toString" "B1";
             loan "L03" "U002" "B2" ]%string.

(** A store in which two readers' ids are array indices. *)
Definition numeric_db : Store.Database :=
  Store.mk sample_books sample_users
           [ loan "L01" "U001" "B1"; loan "L02" "U002" "B1";
             loan "L03" "9" "B2"; loan "L04" "10" "B1";
             loan "L05" "007" "B3" ]%string.

(** Codes that begin with white space above U+007F, in UTF-8: an em space
    (U+2003), a no-break space (U+00A0), a byte order mark (U+FEFF). *)
Definition em_space_658 : string :=
  String "226" (String "128" (String "131" "658")).

Definition nbsp_005_1 : string := String "194" (String "160" "005.1").

Definition bom_332 : string :=
  String "239" (String "187" (String "191" " 332")).

(** ** Notions used to state the properties *)

(** The peer record the scorer builds for an entry of the peer map. *)
Definition scored_entry (targetBooks : JSSet.t) (e : string * JSSet.t) : Peer :=
  mkPeer (fst e) (_jaccard targetBooks (snd e)) (snd e).

(** The entry's score reaches the threshold. *)
Definition passes (targetBooks : JSSet.t) (minScore : Q) (e : string * JSSet.t)
    : bool :=
  Qle_bool minScore (_jaccard targetBooks (snd e)).

(** What one contributing peer does to a book's entry: a missing entry
    starts at weight 0 with no contributor. *)
Definition credit (p : Peer) (entry : option Candidate) : Candidate :=
  let e := match entry with Some e => e | None => mkCandidate 0%Q [] end in
  mkCandidate (weightedScore e + score p)%Q (recommendedBy e ++ [peerId p]).

(** The number of loans of a book, and the number of loans of a reader. *)
Definition loan_count (db : Store.Database) (bookId : string) : Z :=
  Z.of_nat (List.length
              (filter (fun l => String.eqb (Loan.book_id l) bookId)
                      (Store.loans db))).

Definition loans_of_reader (db : Store.Database) (userId : string)
    : list Loan.row :=
  filter (fun l => String.eqb (Loan.user_id l) userId) (Store.loans db).

(** The rows the Reading DNA statement groups: a user row with the
    reader's id, a loan of that user and the book row of the loan. *)
Definition history_rows (db : Store.Database) (userId : string)
    : list (User.row * Loan.row * Book.row) :=
  filter
    (fun r => String.eqb (User.user_id (fst (fst r))) userId)
    (flat_map
       (fun u =>
          flat_map
            (fun l =>
               if String.eqb (Loan.user_id l) (User.user_id u)
               then map (fun b => (u, l, b))
                        (filter (fun b => String.eqb (Book.book_id b)
                                                     (Loan.book_id l))
                                (Store.books db))
               else [])
            (Store.loans db))
       (Store.users db)).


(** The number of occurrences of a character in a text. *)
Fixpoint count_char (c : ascii) (s : string) : nat :=
  match s with
  | String c' s' => (if Ascii.eqb c' c then 1 else 0) + count_char c s'
  | EmptyString => 0
  end%nat.

(** The sum of a list of counts. *)
Definition total (counts : list Z) : Z := fold_right Z.add 0 counts.

(** The peers whose set holds [bookId], in list order. *)
Definition contributors (bookId : string) (peers : list Peer) : list Peer :=
  filter (fun p => JSSet.has (books p) bookId) peers.

(** The scores of [peers] added up from 0 in list order. *)
Definition sum_scores (peers : list Peer) : Q :=
  fold_left Qplus (map score peers) 0%Q.

(** [r] is the entry built for a candidate of [candidates]: it carries the
    candidate's weight rounded to 4 decimals and its contributors, and no
    fallback tag. *)
Definition enriched_from (candidates : JSMap.t Candidate)
    (r : RecommendationResult) : Prop :=
  exists c,
    JSMap.get candidates (book_id r) = Some c
    /\ match_score r = parseFloat_toFixed (weightedScore c) 4
    /\ recommended_by r = recommendedBy c
    /\ fallback r = None.

(** [a] may stand before [b] in the ranking: a higher match score, or the
    same score and a title that does not compare after [b]'s. *)
Definition ranks_before (localeCompare : string -> string -> Z)
    (a b : RecommendationResult) : Prop :=
  (match_score b < match_score a)%Q \/
  ((match_score b == match_score a)%Q /\ localeCompare (title a) (title b) <= 0).

Definition starts_with_digit (s : string) : bool :=
  match s with
  | String c _ => JSNumber.is_digit c
  | EmptyString => false
  end.

(** A code begins with a number when, after leading white space and an
    optional sign, it starts with a digit, with a dot and a digit, or with
    the word Infinity. *)
Definition begins_with_number (s : string) : bool :=
  let body := snd (JSNumber.strip_sign (JSNumber.trimStart s)) in
  String.prefix "Infinity" body
  || starts_with_digit body
  || match body with
     | String c r => Ascii.eqb c "." && starts_with_digit r
     | EmptyString => false
     end.

(** A numeric code: digits, with at most one dot, and nothing else. *)
Definition numeric_code (s : string) : bool :=
  let '(ip, r1) := JSNumber.span_digits s in
  let '(fp, r2) := JSNumber.fraction_part r1 in
  negb (Nat.eqb (List.length (ip ++ fp)) 0) && String.eqb r2 EmptyString.

(** * Properties *)

(** ** Sets *)

Lemma has_In (s : JSSet.t) (x : string) : JSSet.has s x = true <-> In x s.
Proof.
  unfold JSSet.has. rewrite existsb_exists. split.
  - intros [y [Hy E]]. apply String.eqb_eq in E. now subst.
  - intros H. exists x. split; [assumption | apply String.eqb_refl].
Qed.

Lemma has_false (s : JSSet.t) (x : string) : JSSet.has s x = false <-> ~ In x s.
Proof.
  rewrite <- has_In. destruct (JSSet.has s x); split; congruence.
Qed.

Lemma add_NoDup (s : JSSet.t) (x : string) : NoDup s -> NoDup (JSSet.add s x).
Proof.
  intros H. unfold JSSet.add. destruct (JSSet.has s x) eqn:E; [assumption|].
  apply has_false in E. apply NoDup_app; auto.
  - repeat constructor. simpl. tauto.
  - intros y Hy [<- | []]. contradiction.
Qed.

Lemma of_list_NoDup (l : list string) : NoDup (JSSet.of_list l).
Proof.
  unfold JSSet.of_list.
  assert (G : forall acc, NoDup acc -> NoDup (fold_left JSSet.add l acc)).
  { induction l as [| x l IH]; simpl; intros acc H; [assumption|].
    apply IH, add_NoDup, H. }
  apply G. constructor.
Qed.

(** The counting loop of [_jaccard] counts the members of [smaller] that
    [larger] holds. *)
Lemma count_loop (larger smaller : JSSet.t) (n0 : Z) :
  fold_left (fun n item => if JSSet.has larger item then n + 1 else n) smaller n0
  = n0 + Z.of_nat (List.length (filter (JSSet.has larger) smaller)).
Proof.
  revert n0. induction smaller as [| x l IH]; simpl; intros n0; [lia|].
  rewrite IH. destruct (JSSet.has larger x); simpl; lia.
Qed.

Lemma filter_length_le {A} (f : A -> bool) (l : list A) :
  (List.length (filter f l) <= List.length l)%nat.
Proof.
  induction l as [| x l IH]; simpl; [lia|]. destruct (f x); simpl; lia.
Qed.

(** Counting either set against the other gives the size of the
    intersection. *)
Lemma common_count_sym (A B : JSSet.t) :
  NoDup A -> NoDup B ->
  List.length (filter (JSSet.has B) A) = List.length (filter (JSSet.has A) B).
Proof.
  intros HA HB. apply Permutation_length, NoDup_Permutation.
  - now apply NoDup_filter.
  - now apply NoDup_filter.
  - intros x. rewrite !filter_In, !has_In. tauto.
Qed.

Lemma filter_has_self (A : JSSet.t) : filter (JSSet.has A) A = A.
Proof.
  apply forallb_filter_id, forallb_forall. intros x Hx. now apply has_In.
Qed.

(** ** Similarity engine *)

(** Outside the both-empty case the score is a quotient [i / u] of the
    intersection count by a positive union count. *)
Lemma jaccard_quotient (A B : JSSet.t) :
  A <> [] \/ B <> [] ->
  exists i u, 0 <= i <= u /\ 0 < u /\
    _jaccard A B = (inject_Z i / inject_Z u)%Q.
Proof.
  intros Hne. unfold _jaccard, JSSet.size.
  assert (Hlen : (0 < List.length A \/ 0 < List.length B)%nat).
  { destruct Hne as [H | H]; [left; destruct A | right; destruct B];
      simpl; try congruence; lia. }
  destruct ((Z.of_nat (List.length A) =? 0) && (Z.of_nat (List.length B) =? 0))
    eqn:E.
  { apply andb_true_iff in E. destruct E as [E1 E2].
    apply Z.eqb_eq in E1, E2. lia. }
  destruct (Z.of_nat (List.length A) <=? Z.of_nat (List.length B)) eqn:L;
    [apply Z.leb_le in L | apply Z.leb_gt in L];
    rewrite count_loop; eexists; eexists; (split; [|split; [|reflexivity]]).
  - pose proof (filter_length_le (JSSet.has B) A). lia.
  - pose proof (filter_length_le (JSSet.has B) A). lia.
  - pose proof (filter_length_le (JSSet.has A) B). lia.
  - pose proof (filter_length_le (JSSet.has A) B). lia.
Qed.

Lemma quotient_range (i u : Z) :
  0 <= i <= u -> 0 < u -> (0 <= inject_Z i / inject_Z u <= 1)%Q.
Proof.
  intros Hi Hu.
  assert (Hq : (0 < inject_Z u)%Q).
  { change 0%Q with (inject_Z 0). now rewrite <- Zlt_Qlt. }
  split.
  - apply Qle_shift_div_l; [assumption|]. rewrite Qmult_0_l.
    change 0%Q with (inject_Z 0). rewrite <- Zle_Qle. lia.
  - apply Qle_shift_div_r; [assumption|]. rewrite Qmult_1_l.
    rewrite <- Zle_Qle. lia.
Qed.

Lemma jaccard_range (A B : JSSet.t) : (0 <= _jaccard A B <= 1)%Q.
Proof.
  destruct A as [| a A'] eqn:EA; [destruct B as [| b B'] eqn:EB|].
  - vm_compute. split; discriminate.
  - destruct (jaccard_quotient [] (b :: B')) as [i [u [Hi [Hu ->]]]];
      [right; discriminate | now apply quotient_range].
  - destruct (jaccard_quotient (a :: A') B) as [i [u [Hi [Hu ->]]]];
      [left; discriminate | now apply quotient_range].
Qed.

Lemma jaccard_sym (A B : JSSet.t) :
  NoDup A -> NoDup B -> _jaccard A B = _jaccard B A.
Proof.
  intros HA HB. unfold _jaccard, JSSet.size.
  rewrite (andb_comm (Z.of_nat (List.length B) =? 0)).
  destruct ((Z.of_nat (List.length A) =? 0) && (Z.of_nat (List.length B) =? 0));
    [reflexivity|].
  rewrite (Z.add_comm (Z.of_nat (List.length B))).
  destruct (Z.of_nat (List.length A) <=? Z.of_nat (List.length B)) eqn:L1;
    destruct (Z.of_nat (List.length B) <=? Z.of_nat (List.length A)) eqn:L2;
    rewrite !count_loop; try reflexivity.
  - now rewrite (common_count_sym A B).
  - apply Z.leb_gt in L1, L2. lia.
Qed.

Lemma jaccard_self (A : JSSet.t) : A <> [] -> (_jaccard A A == 1)%Q.
Proof.
  intros Hne. unfold _jaccard, JSSet.size.
  assert (Hlen : (0 < List.length A)%nat) by (destruct A; simpl; [congruence | lia]).
  destruct ((Z.of_nat (List.length A) =? 0) && (Z.of_nat (List.length A) =? 0))
    eqn:E.
  { apply andb_true_iff in E. destruct E as [E _]. apply Z.eqb_eq in E. lia. }
  rewrite Z.leb_refl, count_loop, filter_has_self.
  replace (Z.of_nat (List.length A) + Z.of_nat (List.length A)
           - (0 + Z.of_nat (List.length A))) with (Z.of_nat (List.length A)) by lia.
  replace (0 + Z.of_nat (List.length A)) with (Z.of_nat (List.length A)) by lia.
  apply Qmult_inv_r. intros H.
  unfold Qeq in H. simpl in H. lia.
Qed.

Ltac solve_NoDup :=
  repeat (constructor; [simpl; intuition discriminate |]); constructor.

(** C4: for all sets A and B, jaccard(A,B) = jaccard(B,A); the result lies in
    [0,1]; jaccard of two empty sets is 0, and whenever a set is non-empty
    the division is by a positive union count; jaccard(A,A) is 1 for every
    non-empty A. *)
Theorem jaccard_properties (A B : JSSet.t) (HA : NoDup A) (HB : NoDup B) :
  _jaccard A B = _jaccard B A
  /\ (0 <= _jaccard A B <= 1)%Q
  /\ _jaccard [] [] = 0%Q
  /\ (A <> [] \/ B <> [] ->
      exists i u, 0 <= i <= u /\ 0 < u /\
        _jaccard A B = (inject_Z i / inject_Z u)%Q)
  /\ (A <> [] -> (_jaccard A A == 1)%Q).
Proof.
  split; [now apply jaccard_sym|].
  split; [apply jaccard_range|].
  split; [reflexivity|].
  split; [apply jaccard_quotient | apply jaccard_self].
Qed.

Lemma jaccard_properties_witness :
  NoDup ["B1"; "B2"; "B3"]%string /\ NoDup ["B1"; "B2"; "B4"]%string /\
  _jaccard ["B1"; "B2"; "B3"]%string ["B1"; "B2"; "B4"]%string
  = _jaccard ["B1"; "B2"; "B4"]%string ["B1"; "B2"; "B3"]%string.
Proof.
  assert (HA : NoDup ["B1"; "B2"; "B3"]%string) by solve_NoDup.
  assert (HB : NoDup ["B1"; "B2"; "B4"]%string) by solve_NoDup.
  split; [exact HA|]. split; [exact HB|].
  exact (proj1 (jaccard_properties _ _ HA HB)).
Defined.

(** ** Sorting *)

Section SortFacts.

Context {A : Type}.
Variable comparefn : A -> A -> Q.

Let le (x y : A) : Prop := (comparefn x y <= 0)%Q.

Lemma insert_Permutation (x : A) (l : list A) :
  Permutation (JSArray.insert comparefn x l) (x :: l).
Proof.
  induction l as [| y l IH]; simpl; [reflexivity|].
  destruct (Qle_bool (comparefn x y) 0); [reflexivity|].
  rewrite IH. apply perm_swap.
Qed.

Lemma sort_Permutation (l : list A) : Permutation (JSArray.sort comparefn l) l.
Proof.
  induction l as [| x l IH]; simpl; [reflexivity|].
  rewrite insert_Permutation. now constructor.
Qed.

(** A consistent comparison function: any two elements compare one way or
    the other, and the order is transitive. *)
Hypothesis le_total : forall x y, le x y \/ le y x.
Hypothesis le_trans : forall x y z, le x y -> le y z -> le x z.

Lemma insert_sorted (x : A) (l : list A) :
  StronglySorted le l -> StronglySorted le (JSArray.insert comparefn x l).
Proof.
  induction l as [| y l IH]; simpl; intros Hs.
  - repeat constructor.
  - inversion Hs as [| ? ? Hs' Hall]; subst.
    destruct (Qle_bool (comparefn x y) 0) eqn:E.
    + apply Qle_bool_iff in E. constructor; [assumption|].
      constructor; [exact E|].
      eapply Forall_impl; [|exact Hall]. intros z Hz. now apply le_trans with y.
    + assert (Hyx : le y x).
      { destruct (le_total x y) as [H | H]; [|assumption].
        apply Qle_bool_iff in H. unfold le in H. congruence. }
      constructor; [now apply IH|].
      eapply Permutation_Forall.
      * symmetry. apply insert_Permutation.
      * now constructor.
Qed.

Lemma sort_sorted (l : list A) : StronglySorted le (JSArray.sort comparefn l).
Proof.
  induction l as [| x l IH]; simpl; [constructor | now apply insert_sorted].
Qed.

End SortFacts.

Lemma StronglySorted_impl {A} (R R' : A -> A -> Prop) (l : list A) :
  (forall a b, R a b -> R' a b) -> StronglySorted R l -> StronglySorted R' l.
Proof.
  intros HR. induction 1 as [| x l Hs IH Hall]; constructor; [assumption|].
  eapply Forall_impl; [|exact Hall]. intros y. apply HR.
Qed.

Lemma In_firstn {A} (n : nat) (l : list A) (x : A) :
  In x (firstn n l) -> In x l.
Proof.
  intros H. rewrite <- (firstn_skipn n l). apply in_or_app. now left.
Qed.

Lemma firstn_StronglySorted {A} (R : A -> A -> Prop) (n : nat) (l : list A) :
  StronglySorted R l -> StronglySorted R (firstn n l).
Proof.
  revert n. induction l as [| x l IH]; intros [| n] Hs; simpl; try constructor.
  - inversion Hs; subst. now apply IH.
  - inversion Hs as [| ? ? _ Hall]; subst.
    rewrite Forall_forall in *. intros y Hy. apply Hall.
    now apply (In_firstn n l).
Qed.

Lemma slice0_StronglySorted {A} (R : A -> A -> Prop) (l : list A) (n : Z) :
  StronglySorted R l -> StronglySorted R (JSArray.slice0 l n).
Proof. apply firstn_StronglySorted. Qed.

Lemma slice0_firstn {A} (l : list A) (n : Z) :
  0 <= n -> JSArray.slice0 l n = firstn (Z.to_nat n) l.
Proof.
  intros Hn. unfold JSArray.slice0.
  destruct (n <? 0) eqn:E; [apply Z.ltb_lt in E; lia|].
  destruct (Z.le_ge_cases n (Z.of_nat (List.length l))) as [H | H].
  - now rewrite Z.min_l.
  - rewrite Z.min_r, Nat2Z.id by assumption.
    rewrite !firstn_all2; [reflexivity | lia | lia].
Qed.

(** ** Peer scorer *)

(** ** Peer scorer *)

Lemma Qminus_le_0 (x y : Q) : (y - x <= 0 <-> y <= x)%Q.
Proof.
  split; intros H.
  - apply Qle_minus_iff. apply Qle_minus_iff in H.
    setoid_replace (x + - y)%Q with (0 + - (y - x))%Q by ring. exact H.
  - apply Qle_minus_iff. apply Qle_minus_iff in H.
    setoid_replace (0 + - (y - x))%Q with (x + - y)%Q by ring. exact H.
Qed.

Lemma scored_loop (T : JSSet.t) (minScore : Q) (l : JSMap.t JSSet.t)
    (acc : list Peer) :
  fold_left
    (fun scored '(peerId, peerBooks) =>
       let score := _jaccard T peerBooks in
       if Qle_bool minScore score
       then scored ++ [mkPeer peerId score peerBooks]
       else scored)
    l acc
  = acc ++ map (scored_entry T) (filter (passes T minScore) l).
Proof.
  revert acc. induction l as [| [id bs] l IH]; simpl; intros acc.
  - now rewrite app_nil_r.
  - rewrite IH. unfold passes at 2. simpl.
    destruct (Qle_bool minScore (_jaccard T bs)); [|reflexivity].
    now rewrite <- app_assoc.
Qed.

Lemma scorePeers_Permutation (T : JSSet.t) (all : JSMap.t JSSet.t) (minScore : Q) :
  Permutation (_scorePeers T all minScore)
              (map (scored_entry T) (filter (passes T minScore) all)).
Proof.
  unfold _scorePeers. rewrite scored_loop. apply sort_Permutation.
Qed.

Lemma scorePeers_In (T : JSSet.t) (all : JSMap.t JSSet.t) (minScore : Q) (p : Peer) :
  In p (_scorePeers T all minScore) <->
  exists e, In e all /\ (minScore <= _jaccard T (snd e))%Q /\ p = scored_entry T e.
Proof.
  rewrite (Permutation_in' (eq_refl p) (scorePeers_Permutation T all minScore)).
  rewrite in_map_iff. split.
  - intros [e [<- He]]. apply filter_In in He. destruct He as [He Hp].
    exists e. split; [assumption|]. split; [|reflexivity].
    now apply Qle_bool_iff.
  - intros [e [He [Hp ->]]]. exists e. split; [reflexivity|].
    apply filter_In. split; [assumption|]. now apply Qle_bool_iff.
Qed.

Lemma scorePeers_sorted (T : JSSet.t) (all : JSMap.t JSSet.t) (minScore : Q) :
  StronglySorted (fun a b => (score b <= score a)%Q) (_scorePeers T all minScore).
Proof.
  unfold _scorePeers.
  assert (Hle : forall a b : Peer, (score b - score a <= 0 <-> score b <= score a)%Q)
    by (intros a b; apply Qminus_le_0).
  apply StronglySorted_impl with
    (R := fun a b : Peer => (score b - score a <= 0)%Q).
  - intros a b. apply Hle.
  - apply sort_sorted.
    + intros x y. rewrite !Hle. destruct (Qlt_le_dec (score x) (score y)).
      * right. now apply Qlt_le_weak.
      * now left.
    + intros x y z. rewrite !Hle. intros H1 H2. now apply Qle_trans with (score y).
Qed.

(** C2, as amended: for every target set, peer map and minScore, the peer
    scorer returns exactly the peers whose Jaccard score against the target
    is at least minScore, each once per entry of the map (so no returned
    peer scores below minScore), ordered by score from high to low, where
    peers with equal scores may stand next to each other. *)
Theorem scorePeers_filtered_descending
    (T : JSSet.t) (all : JSMap.t JSSet.t) (minScore : Q) :
  (forall p, In p (_scorePeers T all minScore) <->
     exists e, In e all /\ (minScore <= _jaccard T (snd e))%Q /\
               p = scored_entry T e)
  /\ Permutation (_scorePeers T all minScore)
                 (map (scored_entry T) (filter (passes T minScore) all))
  /\ Forall (fun p => (minScore <= score p)%Q) (_scorePeers T all minScore)
  /\ StronglySorted (fun a b => (score b <= score a)%Q)
                    (_scorePeers T all minScore).
Proof.
  split; [intros p; apply scorePeers_In|].
  split; [apply scorePeers_Permutation|].
  split; [|apply scorePeers_sorted].
  apply Forall_forall. intros p Hp. apply scorePeers_In in Hp.
  destruct Hp as [e [_ [Hs ->]]]. exact Hs.
Qed.

(** C2, as stated, fails: two peers with the same score are both returned,
    so the list is not strictly descending. *)
Lemma scorePeers_not_strictly_descending :
  ~ Sorted (fun a b => (score b < score a)%Q)
      (_scorePeers ["B1"]%string
         [("U002", ["B1"]); ("U003", ["B1"])]%string MIN_SIMILARITY).
Proof.
  assert (E : _scorePeers ["B1"]%string
                [("U002", ["B1"]); ("U003", ["B1"])]%string MIN_SIMILARITY
              = [mkPeer "U002" (1 # 1) ["B1"]; mkPeer "U003" (1 # 1) ["B1"]]%string)
    by reflexivity.
  rewrite E. intros H.
  inversion H as [| ? ? _ Hd]; subst.
  inversion Hd as [| ? ? Hlt]; subst.
  simpl in Hlt. revert Hlt. apply Qlt_irrefl.
Qed.

(** ** Maps *)

Section MapFacts.

Context {V : Type}.
Implicit Types (m : JSMap.t V) (k : string) (v : V).

Lemma get_set m k v k' :
  JSMap.get (JSMap.set m k v) k' = if String.eqb k' k then Some v else JSMap.get m k'.
Proof.
  unfold JSMap.get. induction m as [| [k0 v0] m IH]; simpl.
  - now destruct (String.eqb k' k).
  - destruct (String.eqb k k0) eqn:E; simpl.
    + apply String.eqb_eq in E. subst k0. now destruct (String.eqb k' k).
    + destruct (String.eqb k' k0) eqn:E'; simpl; [|exact IH].
      apply String.eqb_eq in E'. subst k0.
      rewrite String.eqb_sym in E. now rewrite E.
Qed.

Lemma keys_set m k v k' :
  In k' (JSMap.keys (JSMap.set m k v)) <-> k' = k \/ In k' (JSMap.keys m).
Proof.
  unfold JSMap.keys. induction m as [| [k0 v0] m IH]; simpl.
  - intuition.
  - destruct (String.eqb k k0) eqn:E; simpl.
    + apply String.eqb_eq in E. subst k0. intuition.
    + rewrite IH. intuition.
Qed.

Lemma NoDup_keys_set m k v :
  NoDup (JSMap.keys m) -> NoDup (JSMap.keys (JSMap.set m k v)).
Proof.
  induction m as [| [k0 v0] m IH]; simpl; intros H.
  - repeat constructor. simpl. tauto.
  - inversion H as [| ? ? Hn Hd]; subst.
    destruct (String.eqb k k0) eqn:E; simpl.
    + apply String.eqb_eq in E. subst k0. now constructor.
    + constructor; [|now apply IH].
      intros Hin. apply keys_set in Hin. destruct Hin as [-> | Hin].
      * now rewrite String.eqb_refl in E.
      * contradiction.
Qed.

Lemma get_Some_In m k v : JSMap.get m k = Some v -> In (k, v) m.
Proof.
  unfold JSMap.get. induction m as [| [k0 v0] m IH]; simpl; [discriminate|].
  destruct (String.eqb k k0) eqn:E; simpl.
  - apply String.eqb_eq in E. subst k0. intros [= ->]. now left.
  - intros H. right. now apply IH.
Qed.

Lemma In_get_Some m k v :
  NoDup (JSMap.keys m) -> In (k, v) m -> JSMap.get m k = Some v.
Proof.
  unfold JSMap.get. induction m as [| [k0 v0] m IH]; simpl; [tauto|].
  intros Hnd Hin. inversion Hnd as [| ? ? Hn Hd]; subst.
  destruct Hin as [[= -> ->] | Hin].
  - now rewrite String.eqb_refl.
  - destruct (String.eqb k k0) eqn:E; simpl; [|now apply IH].
    apply String.eqb_eq in E. subst k0. exfalso. apply Hn.
    change k with (fst (k, v)). now apply in_map.
Qed.

Lemma get_None_keys m k : JSMap.get m k = None <-> ~ In k (JSMap.keys m).
Proof.
  unfold JSMap.get, JSMap.keys. induction m as [| [k0 v0] m IH]; simpl.
  - tauto.
  - destruct (String.eqb k k0) eqn:E; simpl.
    + apply String.eqb_eq in E. subst k0. split; [discriminate | tauto].
    + apply String.eqb_neq in E. rewrite IH. intuition congruence.
Qed.

Lemma set_In m k v (kv : string * V) :
  In kv (JSMap.set m k v) -> kv = (k, v) \/ In kv m.
Proof.
  induction m as [| [k0 v0] m IH]; simpl.
  - intuition.
  - destruct (String.eqb k k0); simpl; intuition.
Qed.

End MapFacts.

(** ** Plain objects *)

Section ObjectFacts.

Context {V : Type}.
Implicit Types (m : JSMap.t V) (k : string) (v : V).

Lemma insert_index_Permutation m k v :
  Permutation (JSObject.insert_index m k v) ((k, v) :: m).
Proof.
  induction m as [| [k0 v0] m IH]; simpl; [reflexivity|].
  destruct (JSObject.is_array_index k0
            && (JSObject.index_value k0 <? JSObject.index_value k));
    [|reflexivity].
  rewrite IH. apply perm_swap.
Qed.

Lemma get_insert_index m k v k' :
  JSMap.get m k = None ->
  JSMap.get (JSObject.insert_index m k v) k'
  = if String.eqb k' k then Some v else JSMap.get m k'.
Proof.
  unfold JSMap.get. induction m as [| [k0 v0] m IH]; simpl; intros Hk.
  - now destruct (String.eqb k' k).
  - destruct (String.eqb k k0) eqn:E0; [discriminate|].
    destruct (JSObject.is_array_index k0
              && (JSObject.index_value k0 <? JSObject.index_value k)); simpl.
    + destruct (String.eqb k' k0) eqn:E'; simpl; [|now apply IH].
      apply String.eqb_eq in E'. subst k0.
      rewrite String.eqb_sym in E0. now rewrite E0.
    + now destruct (String.eqb k' k).
Qed.

Lemma object_get_set m k v k' :
  JSMap.get (JSObject.set m k v) k'
  = if String.eqb k' k then Some v else JSMap.get m k'.
Proof.
  unfold JSObject.set, JSMap.has.
  destruct (JSMap.get m k) eqn:G; simpl; [apply get_set|].
  destruct (JSObject.is_array_index k); simpl;
    [now apply get_insert_index | apply get_set].
Qed.

Lemma object_keys_set m k v k' :
  In k' (JSMap.keys (JSObject.set m k v)) <-> k' = k \/ In k' (JSMap.keys m).
Proof.
  unfold JSObject.set.
  destruct (JSMap.has m k || negb (JSObject.is_array_index k));
    [apply keys_set|].
  unfold JSMap.keys.
  pose proof (Permutation_map fst (insert_index_Permutation m k v)) as P.
  split; intros H.
  - apply (Permutation_in _ P) in H. simpl in H. intuition.
  - apply (Permutation_in _ (Permutation_sym P)). simpl. intuition.
Qed.

Lemma object_NoDup_keys_set m k v :
  NoDup (JSMap.keys m) -> NoDup (JSMap.keys (JSObject.set m k v)).
Proof.
  unfold JSObject.set, JSMap.has. intros H.
  destruct (JSMap.get m k) eqn:G; simpl; [now apply NoDup_keys_set|].
  destruct (JSObject.is_array_index k); simpl; [|now apply NoDup_keys_set].
  apply (Permutation_NoDup
           (Permutation_sym (Permutation_map fst
                               (insert_index_Permutation m k v)))).
  simpl. constructor; [now apply get_None_keys | exact H].
Qed.

Lemma object_set_In m k v (kv : string * V) :
  In kv (JSObject.set m k v) -> kv = (k, v) \/ In kv m.
Proof.
  unfold JSObject.set.
  destruct (JSMap.has m k || negb (JSObject.is_array_index k));
    [apply set_In|].
  intros H. apply (Permutation_in _ (insert_index_Permutation m k v)) in H.
  destruct H as [<- | H]; auto.
Qed.

End ObjectFacts.

(** ** Candidate aggregator *)

Section Aggregation.

Variable T : JSSet.t.

(** One loop iteration touches the entry of its own book only, and only when
    the book is not excluded. *)
Lemma aggregate_book_get (p : Peer) (m : JSMap.t Candidate) (a b : string) :
  JSMap.get (aggregate_book T p m a) b
  = if String.eqb b a && negb (JSSet.has T a)
    then Some (credit p (JSMap.get m b)) else JSMap.get m b.
Proof.
  unfold aggregate_book. destruct (JSSet.has T a); simpl.
  { now rewrite andb_false_r. }
  rewrite andb_true_r. unfold JSMap.has.
  destruct (JSMap.get m a) as [e |] eqn:G; simpl.
  - rewrite G, get_set. destruct (String.eqb b a) eqn:E; [|reflexivity].
    apply String.eqb_eq in E. subst b. now rewrite G.
  - rewrite get_set, String.eqb_refl, !get_set.
    destruct (String.eqb b a) eqn:E; [|reflexivity].
    apply String.eqb_eq in E. subst b. now rewrite G.
Qed.

Lemma aggregate_book_NoDup (p : Peer) (m : JSMap.t Candidate) (a : string) :
  NoDup (JSMap.keys m) -> NoDup (JSMap.keys (aggregate_book T p m a)).
Proof.
  intros H. unfold aggregate_book. destruct (JSSet.has T a); [assumption|].
  destruct (negb (JSMap.has m a)).
  - destruct (JSMap.get _ a); [|now apply NoDup_keys_set].
    now apply NoDup_keys_set, NoDup_keys_set.
  - destruct (JSMap.get m a); [now apply NoDup_keys_set | assumption].
Qed.

Lemma aggregate_books_get (p : Peer) (bs : list string) (m : JSMap.t Candidate)
    (b : string) :
  NoDup bs ->
  JSMap.get (fold_left (aggregate_book T p) bs m) b
  = if JSSet.has bs b && negb (JSSet.has T b)
    then Some (credit p (JSMap.get m b)) else JSMap.get m b.
Proof.
  revert m. induction bs as [| a bs IH]; simpl; intros m Hnd; [reflexivity|].
  inversion Hnd as [| ? ? Hn Hd]; subst.
  rewrite IH, aggregate_book_get by assumption.
  destruct (String.eqb b a) eqn:E; simpl.
  - apply String.eqb_eq in E. subst a.
    apply has_false in Hn. rewrite Hn. simpl.
    now destruct (JSSet.has T b).
  - reflexivity.
Qed.

Lemma aggregate_books_NoDup (p : Peer) (bs : list string) (m : JSMap.t Candidate) :
  NoDup (JSMap.keys m) -> NoDup (JSMap.keys (fold_left (aggregate_book T p) bs m)).
Proof.
  revert m. induction bs as [| a bs IH]; simpl; intros m H; [assumption|].
  now apply IH, aggregate_book_NoDup.
Qed.

(** The entry of book [b] after the peers [ps], from the entry [o] before. *)
Lemma aggregate_peers_get (ps : list Peer) (m : JSMap.t Candidate) (b : string) :
  Forall (fun p => NoDup (books p)) ps ->
  JSMap.get (fold_left (aggregate_peer T) ps m) b
  = if JSSet.has T b then JSMap.get m b
    else match contributors b ps with
         | [] => JSMap.get m b
         | p0 :: cs =>
             Some (fold_left (fun e p => credit p (Some e)) cs
                             (credit p0 (JSMap.get m b)))
         end.
Proof.
  revert m. induction ps as [| p ps IH]; simpl; intros m Hwf.
  - now destruct (JSSet.has T b).
  - inversion Hwf as [| ? ? Hp Hps]; subst.
    rewrite IH by assumption. unfold aggregate_peer.
    rewrite aggregate_books_get by assumption.
    destruct (JSSet.has T b); simpl; [now rewrite andb_false_r|].
    rewrite andb_true_r.
    destruct (JSSet.has (books p) b); simpl; [|reflexivity].
    destruct (contributors b ps); reflexivity.
Qed.

Lemma aggregate_peers_NoDup (ps : list Peer) (m : JSMap.t Candidate) :
  NoDup (JSMap.keys m) -> NoDup (JSMap.keys (fold_left (aggregate_peer T) ps m)).
Proof.
  revert m. induction ps as [| p ps IH]; simpl; intros m H; [assumption|].
  now apply IH, aggregate_books_NoDup.
Qed.

End Aggregation.

Lemma credit_fold_weight (cs : list Peer) (e : Candidate) :
  weightedScore (fold_left (fun e p => credit p (Some e)) cs e)
  = fold_left Qplus (map score cs) (weightedScore e).
Proof.
  revert e. induction cs as [| p cs IH]; simpl; intros e; [reflexivity|].
  now rewrite IH.
Qed.

Lemma credit_fold_contributors (cs : list Peer) (e : Candidate) :
  recommendedBy (fold_left (fun e p => credit p (Some e)) cs e)
  = recommendedBy e ++ map peerId cs.
Proof.
  revert e. induction cs as [| p cs IH]; simpl; intros e.
  - now rewrite app_nil_r.
  - rewrite IH. simpl. now rewrite <- app_assoc.
Qed.

(** The map the aggregator returns, read at one book. *)
Lemma aggregateCandidates_get (peers : list Peer) (T : JSSet.t) (b : string) :
  Forall (fun p => NoDup (books p)) peers ->
  JSMap.get (_aggregateCandidates peers T) b
  = if JSSet.has T b then None
    else match contributors b peers with
         | [] => None
         | cs => Some (mkCandidate (sum_scores cs) (map peerId cs))
         end.
Proof.
  intros Hwf. unfold _aggregateCandidates.
  rewrite aggregate_peers_get by assumption. simpl.
  destruct (JSSet.has T b); [reflexivity|].
  destruct (contributors b peers) as [| p0 cs]; [reflexivity|].
  f_equal. change (JSMap.get [] b) with (@None Candidate).
  pose proof (credit_fold_weight cs (credit p0 None)) as Hw.
  pose proof (credit_fold_contributors cs (credit p0 None)) as Hc.
  destruct (fold_left _ cs (credit p0 None)) as [w r]. simpl in Hw, Hc.
  now subst.
Qed.

(** C1: for every ordered list of peers (each a score and a book set) and
    every exclusion set, the candidate map has an entry for a book exactly
    when the book is in some peer's set and not in the exclusion set; the
    book is a key once; its weightedScore is the sum of the scores of exactly
    the peers whose sets hold it, and its contributor list is those peers'
    identifiers in the order the peers were given. *)
Theorem aggregateCandidates_spec (peers : list Peer) (T : JSSet.t)
    (Hsets : Forall (fun p => NoDup (books p)) peers) :
  NoDup (JSMap.keys (_aggregateCandidates peers T))
  /\ forall b,
       (In b (JSMap.keys (_aggregateCandidates peers T)) <->
          (exists p, In p peers /\ In b (books p)) /\ ~ In b T)
       /\ (forall e, In (b, e) (_aggregateCandidates peers T) ->
             weightedScore e = sum_scores (contributors b peers)
             /\ recommendedBy e = map peerId (contributors b peers))
       /\ (forall p, In p (contributors b peers) <-> In p peers /\ In b (books p)).
Proof.
  assert (Hnd : NoDup (JSMap.keys (_aggregateCandidates peers T))).
  { apply aggregate_peers_NoDup. constructor. }
  assert (Hc : forall b p, In p (contributors b peers) <-> In p peers /\ In b (books p)).
  { intros b p. unfold contributors. now rewrite filter_In, has_In. }
  split; [exact Hnd|]. intros b.
  pose proof (aggregateCandidates_get peers T b Hsets) as G.
  split; [|split; [|apply Hc]].
  - split.
    + intros Hin. destruct (JSSet.has T b) eqn:HT.
      { exfalso. revert Hin. now apply get_None_keys. }
      apply has_false in HT. split; [|exact HT].
      destruct (contributors b peers) as [| p cs] eqn:E.
      { exfalso. revert Hin. now apply get_None_keys. }
      exists p. apply Hc. rewrite E. now left.
    + intros [[p [Hp Hb]] HT]. apply has_false in HT. rewrite HT in G.
      assert (Hp' : In p (contributors b peers)) by now apply Hc.
      destruct (contributors b peers) as [| p0 cs]; [contradiction|].
      apply get_Some_In in G.
      change b with (fst (b, mkCandidate (sum_scores (p0 :: cs)) (map peerId (p0 :: cs)))).
      now apply in_map.
  - intros e He. apply (In_get_Some _ _ _ Hnd) in He. rewrite He in G.
    destruct (JSSet.has T b); [discriminate|].
    destruct (contributors b peers) as [| p0 cs]; [discriminate|].
    injection G as ->. split; reflexivity.
Qed.

Lemma aggregateCandidates_spec_witness :
  Forall (fun p => NoDup (books p))
    [mkPeer "U002" (1 # 2) ["B1"; "B2"; "B4"]; mkPeer "U004" (1 # 10) ["B1"; "B4"; "B6"]]%string
  /\ NoDup (JSMap.keys
       (_aggregateCandidates
          [mkPeer "U002" (1 # 2) ["B1"; "B2"; "B4"];
           mkPeer "U004" (1 # 10) ["B1"; "B4"; "B6"]]%string
          ["B1"; "B2"; "B3"]%string)).
Proof.
  assert (H : Forall (fun p => NoDup (books p))
    [mkPeer "U002" (1 # 2) ["B1"; "B2"; "B4"];
     mkPeer "U004" (1 # 10) ["B1"; "B4"; "B6"]]%string).
  { repeat constructor; simpl; intuition discriminate. }
  split; [exact H|].
  exact (proj1 (aggregateCandidates_spec _ ["B1"; "B2"; "B3"]%string H)).
Defined.

Example aggregate_end_to_end :
  _aggregateCandidates
    [mkPeer "U002" (1 # 2) ["B1"; "B2"; "B4"]]%string ["B1"; "B2"; "B3"]%string
  = [("B4", mkCandidate (0 + (1 # 2)) ["U002"])]%string.
Proof. reflexivity. Qed.


(** ** Category classifier *)

Lemma specific_labels_nonempty (k label : string) :
  In (k, label) specific -> label <> EmptyString.
Proof.
  unfold specific. simpl. intros H.
  repeat (destruct H as [[= <- <-] | H]; [discriminate|]). contradiction.
Qed.

Lemma deweyCategory_nonempty (dewey : string) : _deweyCategory dewey <> EmptyString.
Proof.
  unfold _deweyCategory.
  destruct (JSMap.get specific _) as [label |] eqn:G.
  - apply get_Some_In in G. now apply specific_labels_nonempty in G.
  - repeat match goal with
           | |- context [if ?c then _ else _] => destruct c
           end; discriminate.
Qed.

Lemma span_digits_no_digit (s : string) :
  starts_with_digit s = false -> JSNumber.span_digits s = ([], s).
Proof.
  destruct s as [| c r]; simpl; [reflexivity|]. now intros ->.
Qed.

Lemma span_digits_digit (s : string) :
  starts_with_digit s = true -> fst (JSNumber.span_digits s) <> [].
Proof.
  destruct s as [| c r]; simpl; [discriminate|]. intros ->.
  destruct (JSNumber.span_digits r). discriminate.
Qed.

(** [parseFloat] yields NaN exactly on the codes that do not begin with a
    number. *)
Lemma parseFloat_NaN (s : string) :
  JSNumber.parseFloat s = JSNumber.NaN <-> begins_with_number s = false.
Proof.
  unfold JSNumber.parseFloat, begins_with_number.
  destruct (JSNumber.strip_sign (JSNumber.trimStart s)) as [neg body]. simpl.
  destruct (String.prefix "Infinity" body) eqn:EI; simpl.
  { split; discriminate. }
  destruct (starts_with_digit body) eqn:ED; simpl.
  - split; [|discriminate]. intros H. exfalso.
    apply span_digits_digit in ED.
    destruct (JSNumber.span_digits body) as [ip r1].
    destruct (JSNumber.fraction_part r1) as [fp r2].
    destruct ip; [now apply ED | discriminate].
  - rewrite (span_digits_no_digit body ED).
    destruct body as [| c r]; simpl; [tauto|].
    destruct (Ascii.eqb c ".") eqn:EC; simpl; [|tauto].
    destruct (starts_with_digit r) eqn:ER.
    + split; [|discriminate]. intros H. exfalso.
      apply span_digits_digit in ER.
      destruct (JSNumber.span_digits r) as [fp r2].
      destruct fp; [now apply ER | discriminate].
    + rewrite (span_digits_no_digit r ER). tauto.
Qed.

Lemma deweyCategory_NaN (s : string) :
  JSNumber.parseFloat s = JSNumber.NaN ->
  _deweyCategory s = "History, Geography & Biography"%string.
Proof.
  intros H. unfold _deweyCategory. now rewrite H.
Qed.

(** C3, as amended: the classifier is total and every label it returns is
    non-empty; "005" and "005.1" map to "Technology & Computer Science";
    "0051" is the number 51, whose prefix "051" has no override, and maps to
    "General & Computer Science"; "999" maps to "History, Geography &
    Biography" and "050" to "General & Computer Science". *)
Theorem deweyCategory_total :
  (forall dewey, _deweyCategory dewey <> EmptyString)
  /\ _deweyCategory "005" = "Technology & Computer Science"%string
  /\ _deweyCategory "005.1" = "Technology & Computer Science"%string
  /\ dewey_prefix (JSNumber.parseFloat "0051") = "051"%string
  /\ _deweyCategory "0051" = "General & Computer Science"%string
  /\ _deweyCategory "999" = "History, Geography & Biography"%string
  /\ _deweyCategory "050" = "General & Computer Science"%string.
Proof.
  split; [exact deweyCategory_nonempty|]. repeat split; reflexivity.
Qed.

(** C3, as stated, fails at "0051": the code parses to 51, not to class
    005. *)
Lemma deweyCategory_0051_not_technology :
  _deweyCategory "0051" <> "Technology & Computer Science"%string.
Proof. vm_compute. discriminate. Qed.

(** C8, as amended: for every code that does not begin with a number (after
    leading white space, which is any StrWhiteSpaceChar, the Unicode spaces
    included, and an optional sign: no digit, no dot followed by a digit,
    not the word Infinity), parsing yields NaN, no override matches the
    prefix "NaN", every range comparison is false, and the classifier
    returns "History, Geography & Biography". *)
Theorem deweyCategory_without_number (s : string)
    (H : begins_with_number s = false) :
  JSNumber.parseFloat s = JSNumber.NaN
  /\ JSMap.get specific (dewey_prefix JSNumber.NaN) = None
  /\ (forall bound, JSNumber.lt JSNumber.NaN bound = false)
  /\ _deweyCategory s = "History, Geography & Biography"%string.
Proof.
  assert (HN : JSNumber.parseFloat s = JSNumber.NaN) by now apply parseFloat_NaN.
  split; [exact HN|]. split; [reflexivity|]. split; [reflexivity|].
  now apply deweyCategory_NaN.
Qed.

Lemma deweyCategory_without_number_witness :
  begins_with_number "n/a" = false
  /\ _deweyCategory "n/a" = "History, Geography & Biography"%string.
Proof.
  split; [reflexivity|].
  exact (proj2 (proj2 (proj2 (deweyCategory_without_number "n/a" eq_refl)))).
Defined.

(** The white space skipped before the number is any StrWhiteSpaceChar. *)
Example deweyCategory_unicode_white_space :
  begins_with_number em_space_658 = true
  /\ _deweyCategory em_space_658 = "Business & Management"%string
  /\ _deweyCategory nbsp_005_1 = "Technology & Computer Science"%string
  /\ _deweyCategory bom_332 = "Finance & Economics"%string.
Proof. repeat split; vm_compute; reflexivity. Qed.

(** C8, as stated, fails on a malformed code that begins with digits:
    "658x" is not a numeric code, yet it parses to 658 and is classified by
    that number. *)
Lemma deweyCategory_malformed_with_number :
  numeric_code "658x" = false
  /\ JSNumber.parseFloat "658x" <> JSNumber.NaN
  /\ _deweyCategory "658x" = "Business & Management"%string
  /\ _deweyCategory "658x" <> "History, Geography & Biography"%string.
Proof.
  split; [reflexivity|]. split; [vm_compute; discriminate|].
  split; [reflexivity | vm_compute; discriminate].
Qed.


(** ** The query monad *)

Lemma bind_run {A B} (m : M A) (f : A -> M B) (db : Store.Database)
    (log : list statement) (a : A) :
  m db = (log, Some a) ->
  bind m f db = (log ++ fst (f a db), snd (f a db)).
Proof.
  intros H. unfold bind. rewrite H. now destruct (f a db).
Qed.

Lemma getBorrowedBooks_eq (userId : string) (db : Store.Database) :
  exists target,
    _getBorrowedBooks userId db = ([SelectBorrowedBooks userId], Some target)
    /\ NoDup target.
Proof.
  eexists. split; [reflexivity|]. apply of_list_NoDup.
Qed.

(** The peer statement is the one statement sent, whether or not the
    grouping throws. *)
Lemma getAllUserBooks_eq (userId : string) (db : Store.Database) :
  exists result,
    _getAllUserBooks userId db = ([SelectAllUserBooks userId], result).
Proof.
  unfold _getAllUserBooks, bind, execute, select_all_user_books.
  destruct (reduce_or_throw group_row _ []); eexists; reflexivity.
Qed.

Lemma run_getBorrowedBooks (userId : string) (db : Store.Database)
    (target : JSSet.t) :
  run (_getBorrowedBooks userId) db = Some target ->
  _getBorrowedBooks userId db = ([SelectBorrowedBooks userId], Some target).
Proof.
  destruct (getBorrowedBooks_eq userId db) as [t [E _]].
  unfold run. rewrite E. simpl. now intros [= ->].
Qed.

Lemma run_getAllUserBooks (userId : string) (db : Store.Database)
    (all : JSMap.t JSSet.t) :
  run (_getAllUserBooks userId) db = Some all ->
  _getAllUserBooks userId db = ([SelectAllUserBooks userId], Some all).
Proof.
  destruct (getAllUserBooks_eq userId db) as [t E].
  unfold run. rewrite E. simpl. now intros [= ->].
Qed.

(** The peer map holds well-formed sets. *)
Lemma getAllUserBooks_sets (userId : string) (db : Store.Database)
    (all : JSMap.t JSSet.t) :
  run (_getAllUserBooks userId) db = Some all ->
  Forall (fun e => NoDup (snd e)) all.
Proof.
  unfold run, _getAllUserBooks, bind, execute, select_all_user_books.
  generalize (map (fun l => (Loan.user_id l, Loan.book_id l))
                (SQL.order_by_string Loan.user_id
                   (filter (fun l => negb (String.eqb (Loan.user_id l) userId))
                           (Store.loans db)))).
  intros rows.
  destruct (reduce_or_throw group_row rows []) as [m |] eqn:E;
    [|discriminate].
  simpl. intros [= <-]. revert E.
  assert (G : forall acc : JSMap.t JSSet.t,
             Forall (fun e => NoDup (snd e)) acc ->
             reduce_or_throw group_row rows acc = Some m ->
             Forall (fun e => NoDup (snd e)) m).
  { induction rows as [| [u b] rows IH]; cbn [reduce_or_throw];
      intros acc Hacc.
    - now intros [= <-].
    - destruct (group_row acc (u, b)) as [acc' |] eqn:Estep;
        [|intros; discriminate].
      apply IH. unfold group_row in Estep.
      assert (H1 : Forall (fun e => NoDup (snd e))
                     (if negb (JSMap.has acc u || JSObject.inherited u)
                      then JSObject.set acc u [] else acc)).
      { destruct (negb (JSMap.has acc u || JSObject.inherited u));
          [|exact Hacc].
        apply Forall_forall. intros kv Hkv. apply object_set_In in Hkv.
        destruct Hkv as [-> | Hkv]; [constructor|].
        now apply (proj1 (Forall_forall _ _) Hacc). }
      destruct (JSMap.get _ u) as [s0 |] eqn:G; [|discriminate].
      injection Estep as <-.
      apply Forall_forall. intros kv Hkv. apply object_set_In in Hkv.
      destruct Hkv as [-> | Hkv].
      + simpl. apply add_NoDup. apply get_Some_In in G.
        exact (proj1 (Forall_forall _ _) H1 _ G).
      + now apply (proj1 (Forall_forall _ _) H1). }
  apply G. constructor.
Qed.

(** So do the peers the scorer hands to the aggregator. *)
Lemma scorePeers_sets (T : JSSet.t) (all : JSMap.t JSSet.t) (minScore : Q) (n : Z) :
  Forall (fun e => NoDup (snd e)) all ->
  Forall (fun p => NoDup (books p))
         (JSArray.slice0 (_scorePeers T all minScore) n).
Proof.
  intros H. apply Forall_forall. intros p Hp. apply In_firstn in Hp.
  apply scorePeers_In in Hp. destruct Hp as [e [He [_ ->]]]. simpl.
  exact (proj1 (Forall_forall _ _) H _ He).
Qed.

Lemma size_zero (s : JSSet.t) : (JSSet.size s =? 0) = true <-> s = [].
Proof.
  unfold JSSet.size. rewrite Z.eqb_eq. destruct s; simpl; split;
    intros H; try reflexivity; try discriminate; lia.
Qed.

Lemma length_zero {A} (l : list A) :
  (Z.of_nat (List.length l) =? 0) = true <-> l = [].
Proof.
  rewrite Z.eqb_eq. destruct l; simpl; split;
    intros H; try reflexivity; try discriminate; lia.
Qed.

Lemma length_nonzero {A} (l : list A) :
  l <> [] -> (Z.of_nat (List.length l) =? 0) = false.
Proof.
  intros H. destruct (Z.of_nat (List.length l) =? 0) eqn:E; [|reflexivity].
  apply length_zero in E. contradiction.
Qed.

(** ** SQL operators *)

Lemma limit_Some {R} (n : Z) (rows : list R) :
  0 <= n -> SQL.limit n rows = Some (firstn (Z.to_nat n) rows).
Proof.
  intros H. unfold SQL.limit. destruct (n <? 0) eqn:E; [|reflexivity].
  apply Z.ltb_lt in E. lia.
Qed.

Lemma limit_In {R} (n : Z) (rows out : list R) (r : R) :
  SQL.limit n rows = Some out -> In r out -> In r rows.
Proof.
  unfold SQL.limit. destruct (n <? 0); [discriminate|].
  intros [= <-]. apply In_firstn.
Qed.

Lemma order_by_desc_In {R} (f : R -> Z) (rows : list R) (r : R) :
  In r (SQL.order_by_desc f rows) -> In r rows.
Proof.
  apply Permutation_in, sort_Permutation.
Qed.

(** The row that stands for a group is one of the grouped rows. *)
Lemma group_count_In {R} (key : R -> string) (rows : list R) (r : R) (n : Z) :
  In (r, n) (SQL.group_count key rows) -> In r rows.
Proof.
  unfold SQL.group_count. rewrite in_map_iff.
  intros [[k [r' n']] [[= -> ->] Hin]]. revert Hin.
  assert (G : forall todo done (acc : JSMap.t (R * Z)),
             rows = done ++ todo ->
             (forall kv, In kv acc -> In (fst (snd kv)) rows) ->
             forall kv,
               In kv (fold_left
                        (fun groups r =>
                           match JSMap.get groups (key r) with
                           | Some (r0, n) => JSMap.set groups (key r) (r0, n + 1)
                           | None => JSMap.set groups (key r) (r, 1)
                           end) todo acc) ->
               In (fst (snd kv)) rows).
  { induction todo as [| x todo IH]; simpl; intros done acc E Hacc kv Hkv.
    - now apply Hacc.
    - apply (IH (done ++ [x])) in Hkv;
        [assumption | now rewrite <- app_assoc |].
      intros kv' Hkv'.
      assert (Hx : In x rows).
      { rewrite E. apply in_or_app. right. now left. }
      destruct (JSMap.get acc (key x)) as [[r0 n0] |] eqn:G;
        apply set_In in Hkv'; destruct Hkv' as [-> | Hkv']; auto.
      apply get_Some_In in G. exact (Hacc _ G). }
  apply (G rows [] []); [reflexivity | intros kv []].
Qed.

(** ** Fallback policies *)

Lemma coldStartFallback_eq (userId : string) (lim : Z) (db : Store.Database) :
  _coldStartFallback userId lim db
  = ([SelectColdStart lim],
     option_map
       (map (fun r =>
               mkResult (Book.book_id (popular_book r))
                        (Book.title (popular_book r))
                        (Book.author (popular_book r))
                        (Book.dewey_decimal (popular_book r))
                        0%Q [] (Some "cold_start_popularity"%string)))
       (select_cold_start lim db)).
Proof.
  unfold _coldStartFallback, bind, execute, ret.
  now destruct (select_cold_start lim db).
Qed.

Lemma deweyFallback_eq (userId : string) (T : JSSet.t) (lim : Z)
    (db : Store.Database) :
  _deweyFallback userId T lim db
  = ([SelectDeweyFallback T lim],
     option_map
       (map (fun r =>
               mkResult (Book.book_id (popular_book r))
                        (Book.title (popular_book r))
                        (Book.author (popular_book r))
                        (Book.dewey_decimal (popular_book r))
                        0%Q [] (Some "dewey_category_popularity"%string)))
       (select_dewey_fallback T lim db)).
Proof.
  unfold _deweyFallback, bind, execute, ret.
  now destruct (select_dewey_fallback T lim db).
Qed.

Lemma in_list_In (x : string) (l : list string) :
  SQL.in_list x l = true <-> In x l.
Proof. apply has_In. Qed.

(** Every row of the category statement is a book outside [ids] that shares
    its Dewey code with a book of the table whose id is in [ids]. *)
Lemma select_dewey_fallback_rows (ids : list string) (lim : Z)
    (db : Store.Database) (rows : list PopularRow) (r : PopularRow) :
  select_dewey_fallback ids lim db = Some rows -> In r rows ->
  In (popular_book r) (Store.books db)
  /\ ~ In (Book.book_id (popular_book r)) ids
  /\ exists b1, In b1 (Store.books db)
                /\ In (Book.book_id b1) ids
                /\ Book.dewey_decimal (popular_book r) = Book.dewey_decimal b1.
Proof.
  unfold select_dewey_fallback. destruct ids as [| i ids]; [discriminate|].
  remember (i :: ids) as L eqn:EL. clear EL.
  intros Hlim Hr. apply (limit_In _ _ _ _ Hlim) in Hr.
  apply order_by_desc_In in Hr. apply in_map_iff in Hr.
  destruct Hr as [[[[b1 b2] l] n] [<- Hg]]. simpl.
  apply group_count_In in Hg. apply filter_In in Hg.
  destruct Hg as [Hj Hb1]. simpl in Hb1. apply in_list_In in Hb1.
  apply in_flat_map in Hj. destruct Hj as [b1' [Hb1' Hj]].
  apply in_flat_map in Hj. destruct Hj as [b2' [Hb2' Hj]].
  destruct (String.eqb (Book.dewey_decimal b2') (Book.dewey_decimal b1')) eqn:Ed;
    [|contradiction].
  destruct (SQL.in_list (Book.book_id b2') L) eqn:Ei; [contradiction|].
  simpl in Hj. apply in_map_iff in Hj. destruct Hj as [l' [[= -> -> ->] _]].
  apply String.eqb_eq in Ed. apply has_false in Ei.
  split; [assumption|]. split; [assumption|]. now exists b1.
Qed.

(** ** Orchestrator *)

Section Orchestrator.

Variable localeCompare : string -> string -> Z.
Variables (userId : string) (opts : Opts) (db : Store.Database).

Let lim : Z := match limit opts with Some l => l | None => MAX_RESULTS end.
Let threshold : Q :=
  match minScore opts with Some s => s | None => MIN_SIMILARITY end.

Lemma recommend_cold_start :
  run (_getBorrowedBooks userId) db = Some [] ->
  getRecommendations localeCompare userId opts db
  = (SelectBorrowedBooks userId :: fst (_coldStartFallback userId lim db),
     snd (_coldStartFallback userId lim db)).
Proof.
  intros Ht. apply run_getBorrowedBooks in Ht.
  unfold getRecommendations. now rewrite (bind_run _ _ _ _ _ Ht).
Qed.

Lemma recommend_with_history (target : JSSet.t) (all : JSMap.t JSSet.t) :
  run (_getBorrowedBooks userId) db = Some target -> target <> [] ->
  run (_getAllUserBooks userId) db = Some all ->
  getRecommendations localeCompare userId opts db
  = let rest :=
      if Z.of_nat (List.length (JSMap.keys all)) =? 0 then ret []
      else
        let peers := _scorePeers target all threshold in
        if Z.of_nat (List.length peers) =? 0
        then _deweyFallback userId target lim
        else _enrichAndRank localeCompare
               (_aggregateCandidates (JSArray.slice0 peers MAX_PEERS) target) lim in
    (SelectBorrowedBooks userId :: SelectAllUserBooks userId :: fst (rest db),
     snd (rest db)).
Proof.
  intros Ht Hne Ha. apply run_getBorrowedBooks in Ht.
  apply run_getAllUserBooks in Ha.
  unfold getRecommendations. rewrite (bind_run _ _ _ _ _ Ht).
  assert (Hs : (JSSet.size target =? 0) = false).
  { destruct (JSSet.size target =? 0) eqn:E; [|reflexivity].
    apply size_zero in E. contradiction. }
  rewrite Hs. now rewrite (bind_run _ _ _ _ _ Ha).
Qed.

End Orchestrator.

Lemma filter_none {A} (f : A -> bool) (l : list A) :
  (forall x, In x l -> f x = false) -> filter f l = [].
Proof.
  induction l as [| x l IH]; simpl; intros H; [reflexivity|].
  rewrite (H x) by now left. apply IH. intros y Hy. apply H. now right.
Qed.

Lemma scorePeers_none (T : JSSet.t) (all : JSMap.t JSSet.t) (minScore : Q) :
  (forall e, In e all -> (_jaccard T (snd e) < minScore)%Q) ->
  _scorePeers T all minScore = [].
Proof.
  intros Hlow. apply Permutation_nil. symmetry.
  rewrite scorePeers_Permutation, filter_none; [reflexivity|].
  intros e He. unfold passes.
  destruct (Qle_bool minScore (_jaccard T (snd e))) eqn:E; [|reflexivity].
  apply Qle_bool_iff in E. apply Hlow in He.
  exfalso. now apply (Qlt_not_le _ _ He).
Qed.

(** C6: for every reader whose read-set is empty, recommend returns the
    rows of the popularity statement, in their order, each as an entry with
    the row's book, the cold-start popularity tag, a zero match score and an
    empty contributor list; so every entry of the list carries that tag,
    that score and no contributor.  The list is returned whenever the limit
    is not negative, after the read-set and the popularity statements and
    no other. *)
Theorem cold_start_entries (localeCompare : string -> string -> Z)
    (userId : string) (opts : Opts) (db : Store.Database)
    (Hempty : run (_getBorrowedBooks userId) db = Some []) :
  run (getRecommendations localeCompare userId opts) db
  = option_map
      (map (fun r =>
              mkResult (Book.book_id (popular_book r))
                       (Book.title (popular_book r))
                       (Book.author (popular_book r))
                       (Book.dewey_decimal (popular_book r))
                       0%Q [] (Some "cold_start_popularity"%string)))
      (select_cold_start
         match limit opts with Some l => l | None => MAX_RESULTS end db)
  /\ (forall res,
        run (getRecommendations localeCompare userId opts) db = Some res ->
        Forall (fun r => fallback r = Some "cold_start_popularity"%string
                         /\ match_score r = 0%Q
                         /\ recommended_by r = [])
               res)
  /\ (0 <= match limit opts with Some l => l | None => MAX_RESULTS end ->
      exists res,
        run (getRecommendations localeCompare userId opts) db = Some res)
  /\ sent (getRecommendations localeCompare userId opts) db
     = [SelectBorrowedBooks userId;
        SelectColdStart
          match limit opts with Some l => l | None => MAX_RESULTS end].
Proof.
  unfold run, sent. rewrite (recommend_cold_start _ _ _ _ Hempty).
  rewrite coldStartFallback_eq. simpl.
  split; [reflexivity|]. split; [|split; [|reflexivity]].
  - intros res Hres. destruct (select_cold_start _ db) as [rows |];
      [|discriminate]. simpl in Hres. injection Hres as <-.
    apply Forall_forall. intros r Hr. apply in_map_iff in Hr.
    destruct Hr as [row [<- _]]. simpl. auto.
  - intros Hlim. unfold select_cold_start. rewrite limit_Some by assumption.
    simpl. eexists. reflexivity.
Qed.

Lemma cold_start_entries_witness :
  run (_getBorrowedBooks "U005") sample_db = Some []
  /\ option_map (map (fun r => (book_id r, fallback r)))
       (run (getRecommendations code_unit_compare "U005" (mkOpts (Some 3) None))
            sample_db)
     = Some [("B1", Some "cold_start_popularity");
             ("B2", Some "cold_start_popularity");
             ("B4", Some "cold_start_popularity")]%string
  /\ sent (getRecommendations code_unit_compare "U005" (mkOpts (Some 3) None))
          sample_db
     = [SelectBorrowedBooks "U005"; SelectColdStart 3].
Proof.
  assert (H : run (_getBorrowedBooks "U005") sample_db = Some [])
    by (vm_compute; reflexivity).
  split; [exact H|].
  destruct (cold_start_entries code_unit_compare "U005" (mkOpts (Some 3) None)
              sample_db H) as [Hrun [_ [_ Hsent]]].
  split; [|exact Hsent].
  rewrite Hrun. vm_compute. reflexivity.
Defined.

(** C7: for every reader with a non-empty read-set for whom every peer's
    similarity score is below the threshold, recommend returns the empty
    list when the peer map is empty, and otherwise the rows of the category
    statement, in their order, each as an entry with the row's book, the
    category-popularity tag, a zero match score and no contributor; the
    statements sent are the two on loans and, for a peer map that is not
    empty, the category statement.  So every entry of the list carries the
    category-popularity tag, has the category code of some book of the
    reader's read-set, and is not a book of the read-set; the list is
    returned whenever the limit is not negative. *)
Theorem no_similar_peers_entries (localeCompare : string -> string -> Z)
    (userId : string) (opts : Opts) (db : Store.Database)
    (target : JSSet.t) (all : JSMap.t JSSet.t)
    (Ht : run (_getBorrowedBooks userId) db = Some target)
    (Hne : target <> [])
    (Ha : run (_getAllUserBooks userId) db = Some all)
    (Hlow : forall e, In e all ->
              (_jaccard target (snd e)
               < match minScore opts with Some s => s | None => MIN_SIMILARITY end)%Q) :
  getRecommendations localeCompare userId opts db
  = match all with
    | [] => ([SelectBorrowedBooks userId; SelectAllUserBooks userId], Some [])
    | _ :: _ =>
        ([SelectBorrowedBooks userId; SelectAllUserBooks userId;
          SelectDeweyFallback target
            match limit opts with Some l => l | None => MAX_RESULTS end],
         option_map
           (map (fun r =>
                   mkResult (Book.book_id (popular_book r))
                            (Book.title (popular_book r))
                            (Book.author (popular_book r))
                            (Book.dewey_decimal (popular_book r))
                            0%Q [] (Some "dewey_category_popularity"%string)))
           (select_dewey_fallback target
              match limit opts with Some l => l | None => MAX_RESULTS end db))
    end
  /\ (forall res,
        run (getRecommendations localeCompare userId opts) db = Some res ->
        Forall (fun r =>
                  fallback r = Some "dewey_category_popularity"%string
                  /\ (exists b1, In b1 (Store.books db)
                                 /\ In (Book.book_id b1) target
                                 /\ dewey_decimal r = Book.dewey_decimal b1)
                  /\ ~ In (book_id r) target)
               res)
  /\ (0 <= match limit opts with Some l => l | None => MAX_RESULTS end ->
      exists res,
        run (getRecommendations localeCompare userId opts) db = Some res).
Proof.
  unfold run. rewrite (recommend_with_history _ _ _ _ _ _ Ht Hne Ha). simpl.
  destruct all as [| e0 all'].
  { simpl. split; [reflexivity|].
    split; [intros res [= <-]; constructor | intros _; now exists []]. }
  cbn [List.length JSMap.keys map].
  replace (Z.of_nat (S (List.length (map fst all'))) =? 0) with false
    by (symmetry; apply Z.eqb_neq; lia).
  rewrite (scorePeers_none _ _ _ Hlow). simpl.
  rewrite deweyFallback_eq. simpl. split; [reflexivity|]. split.
  - intros res Hres.
    destruct (select_dewey_fallback target _ db) as [rows |] eqn:Hrows;
      [|discriminate]. simpl in Hres. injection Hres as <-.
    apply Forall_forall. intros r Hr. apply in_map_iff in Hr.
    destruct Hr as [row [<- Hrow]]. simpl.
    destruct (select_dewey_fallback_rows _ _ _ _ _ Hrows Hrow)
      as [_ [Hout Hb1]].
    split; [reflexivity|]. split; assumption.
  - intros Hlim. unfold select_dewey_fallback.
    destruct target as [| t0 target']; [contradiction|].
    rewrite limit_Some by assumption. simpl. eexists. reflexivity.
Qed.

Lemma no_similar_peers_entries_witness :
  run (_getBorrowedBooks "U003") sample_db = Some ["B5"%string]
  /\ getRecommendations code_unit_compare "U003" no_opts sample_db
     = ([SelectBorrowedBooks "U003"; SelectAllUserBooks "U003";
         SelectDeweyFallback ["B5"] 10],
        Some [mkResult "B12" "Guns, Germs, and Steel" "Jared Diamond" "909" 0 []
                       (Some "dewey_category_popularity")])%string.
Proof.
  assert (Ht : run (_getBorrowedBooks "U003") sample_db = Some ["B5"%string])
    by (vm_compute; reflexivity).
  assert (Ha : run (_getAllUserBooks "U003") sample_db
               = Some [("U001", ["B1"; "B2"; "B3"]);
                       ("U002", ["B1"; "B2"; "B4"]);
                       ("U004", ["B1"; "B4"; "B6"; "B7"; "B8"; "B9"; "B10"; "B11"]);
                       ("U006", ["B12"])]%string)
    by (vm_compute; reflexivity).
  split; [exact Ht|].
  rewrite (proj1 (no_similar_peers_entries code_unit_compare "U003" no_opts
                    sample_db ["B5"%string] _ Ht ltac:(discriminate) Ha
                    ltac:(intros e He;
                          repeat (destruct He as [<- | He];
                                  [vm_compute; reflexivity|]);
                          contradiction))).
  vm_compute. reflexivity.
Defined.

(** C10: for every reader with a non-empty read-set, when the store returns
    an empty peer map recommend returns the empty list, having sent the
    read-set and the peer statements only: no fallback statement is sent. *)
Theorem empty_peer_map_no_fallback (localeCompare : string -> string -> Z)
    (userId : string) (opts : Opts) (db : Store.Database) (target : JSSet.t)
    (Ht : run (_getBorrowedBooks userId) db = Some target)
    (Hne : target <> [])
    (Ha : run (_getAllUserBooks userId) db = Some []) :
  getRecommendations localeCompare userId opts db
  = ([SelectBorrowedBooks userId; SelectAllUserBooks userId], Some []).
Proof.
  now rewrite (recommend_with_history _ _ _ _ _ _ Ht Hne Ha).
Qed.

Lemma empty_peer_map_no_fallback_witness :
  run (_getBorrowedBooks "U001") solo_db = Some ["B1"; "B2"]%string
  /\ run (_getAllUserBooks "U001") solo_db = Some []
  /\ getRecommendations code_unit_compare "U001" no_opts solo_db
     = ([SelectBorrowedBooks "U001"; SelectAllUserBooks "U001"], Some []).
Proof.
  assert (Ht : run (_getBorrowedBooks "U001") solo_db = Some ["B1"; "B2"]%string)
    by (vm_compute; reflexivity).
  assert (Ha : run (_getAllUserBooks "U001") solo_db = Some [])
    by (vm_compute; reflexivity).
  split; [exact Ht|]. split; [exact Ha|].
  refine (empty_peer_map_no_fallback code_unit_compare "U001" no_opts solo_db
            ["B1"; "B2"]%string Ht _ Ha).
  discriminate.
Defined.

(** ** Reading DNA *)

Lemma select_reading_dna_empty (userId : string) (db : Store.Database) :
  (forall u, In u (Store.users db) -> User.user_id u <> userId)
  \/ (forall l, In l (Store.loans db) -> Loan.user_id l <> userId) ->
  select_reading_dna userId db = Some [].
Proof.
  intros H. unfold select_reading_dna. rewrite filter_none; [reflexivity|].
  intros [[u l] b] Hin. simpl. apply String.eqb_neq.
  apply in_flat_map in Hin. destruct Hin as [u' [Hu Hin]].
  apply in_flat_map in Hin. destruct Hin as [l' [Hl Hin]].
  destruct (String.eqb (Loan.user_id l') (User.user_id u')) eqn:E;
    [|contradiction].
  apply in_map_iff in Hin. destruct Hin as [b' [[= -> -> ->] _]].
  apply String.eqb_eq in E. destruct H as [H | H].
  - now apply H.
  - rewrite <- E. now apply H.
Qed.

(** C9: for every reader whose history yields no (category, count) pairs,
    be it that the reader is unknown, has no loans, or the statement simply
    returns no row, readingProfile returns, without failing, the result with
    totalBooks 0 and an empty breakdown; that result depends on the reader's
    identifier only, so the cases are not told apart. *)
Theorem readingDNA_no_history (userId : string) (db : Store.Database)
    (H : (forall u, In u (Store.users db) -> User.user_id u <> userId)
         \/ (forall l, In l (Store.loans db) -> Loan.user_id l <> userId)
         \/ select_reading_dna userId db = Some []) :
  getReadingDNA userId db
  = ([SelectReadingDNA userId],
     Some (mkDNA userId "Unknown" 0 [] "No reading history found."))
  /\ (forall dna, run (getReadingDNA userId) db = Some dna ->
        totalBooks dna = 0 /\ breakdown dna = []).
Proof.
  assert (E : select_reading_dna userId db = Some []).
  { destruct H as [H | [H | H]]; [| | exact H];
      apply select_reading_dna_empty; auto. }
  assert (G : getReadingDNA userId db
              = ([SelectReadingDNA userId],
                 Some (mkDNA userId "Unknown" 0 [] "No reading history found."))).
  { unfold getReadingDNA, bind, execute. now rewrite E. }
  split; [exact G|]. unfold run. rewrite G. simpl.
  intros dna [= <-]. split; reflexivity.
Qed.

Lemma readingDNA_no_history_witness :
  select_reading_dna "U005" sample_db = Some []
  /\ getReadingDNA "U005" sample_db
     = ([SelectReadingDNA "U005"],
        Some (mkDNA "U005" "Unknown" 0 [] "No reading history found.")).
Proof.
  assert (H : select_reading_dna "U005" sample_db = Some [])
    by (vm_compute; reflexivity).
  split; [exact H|].
  exact (proj1 (readingDNA_no_history "U005" sample_db (or_intror (or_intror H)))).
Defined.

Example readingDNA_unknown_reader :
  getReadingDNA "U999" sample_db
  = ([SelectReadingDNA "U999"],
     Some (mkDNA "U999" "Unknown" 0 [] "No reading history found.")).
Proof. vm_compute. reflexivity. Qed.

Example readingDNA_percentages :
  option_map (fun dna => map percentage (breakdown dna))
             (run (getReadingDNA "U004") sample_db)
  = Some ["37.50%"; "25.00%"; "25.00%"; "12.50%"]%string.
Proof. vm_compute. reflexivity. Qed.

Example toFixed_sevenths :
  map (fun n => toFixed (inject_Z n / 7 * 100) 2) [3; 2; 2]
  = ["42.86"; "28.57"; "28.57"]%string.
Proof. vm_compute. reflexivity. Qed.

Example toFixed_whole_and_small :
  map (fun x => toFixed x 2) [100; 7 # 2; 1 # 8; 0]%Q
  = ["100.00"; "3.50"; "0.13"; "0.00"]%string.
Proof. vm_compute. reflexivity. Qed.

(** ** Ranking *)

Section RankingFacts.

Variable localeCompare : string -> string -> Z.

Lemma rank_compare_le (a b : RecommendationResult) :
  (rank_compare localeCompare a b <= 0)%Q <-> ranks_before localeCompare a b.
Proof.
  unfold rank_compare, ranks_before.
  assert (Hd : forall x y : Q, (y - x == 0 <-> y == x)%Q).
  { intros x y. split; intros E.
    - setoid_replace y with ((y - x) + x)%Q by ring. rewrite E. ring.
    - rewrite E. ring. }
  assert (Hl : forall x y : Q, (y - x <= 0 <-> y <= x)%Q)
    by (intros x y; apply Qminus_le_0).
  destruct (Qeq_bool (match_score b - match_score a) 0) eqn:E.
  - apply Qeq_bool_iff in E. apply (proj1 (Hd _ _)) in E.
    change 0%Q with (inject_Z 0). rewrite <- Zle_Qle. split.
    + intros H. right. now split.
    + intros [H | [_ H]]; [|exact H].
      exfalso. rewrite E in H. now apply (Qlt_irrefl _ H).
  - apply Qeq_bool_neq in E. rewrite Hl. split.
    + intros H. left. apply Qle_lteq in H. destruct H as [H | H]; [exact H|].
      exfalso. apply E. now apply Hd.
    + intros [H | [H _]]; [now apply Qlt_le_weak|].
      exfalso. apply E. now apply Hd.
Qed.

Hypothesis localeCompare_total :
  forall s t, localeCompare s t <= 0 \/ localeCompare t s <= 0.
Hypothesis localeCompare_trans :
  forall s t u, localeCompare s t <= 0 -> localeCompare t u <= 0 ->
                localeCompare s u <= 0.

Lemma ranks_before_total (a b : RecommendationResult) :
  ranks_before localeCompare a b \/ ranks_before localeCompare b a.
Proof.
  unfold ranks_before.
  destruct (Q_dec (match_score a) (match_score b)) as [[H | H] | H].
  - right. now left.
  - left. now left.
  - destruct (localeCompare_total (title a) (title b)) as [L | L].
    + left. right. split; [now symmetry | exact L].
    + right. right. split; [exact H | exact L].
Qed.

Lemma ranks_before_trans (a b c : RecommendationResult) :
  ranks_before localeCompare a b -> ranks_before localeCompare b c ->
  ranks_before localeCompare a c.
Proof.
  unfold ranks_before. intros [H1 | [E1 L1]] [H2 | [E2 L2]].
  - left. now apply Qlt_trans with (match_score b).
  - left. now rewrite E2.
  - left. now rewrite <- E1.
  - right. split; [now rewrite E2 | now apply localeCompare_trans with (title b)].
Qed.

Lemma rank_sort_sorted (l : list RecommendationResult) :
  StronglySorted (ranks_before localeCompare)
                 (JSArray.sort (rank_compare localeCompare) l).
Proof.
  apply StronglySorted_impl with
    (R := fun a b => (rank_compare localeCompare a b <= 0)%Q).
  - intros a b. apply rank_compare_le.
  - apply sort_sorted.
    + intros x y. rewrite !rank_compare_le. apply ranks_before_total.
    + intros x y z. rewrite !rank_compare_le. apply ranks_before_trans.
Qed.

End RankingFacts.

Lemma map_or_throw_Forall2 {A B} (f : A -> option B) (l : list A) :
  (forall a, In a l -> f a <> None) ->
  exists l', map_or_throw f l = Some l' /\ Forall2 (fun a b => f a = Some b) l l'.
Proof.
  induction l as [| a l IH]; simpl; intros H.
  - exists []. split; [reflexivity | constructor].
  - destruct (f a) as [b |] eqn:E; [|exfalso; apply (H a); auto].
    destruct IH as [l' [E' F]]; [intros x Hx; apply H; now right|].
    exists (b :: l'). rewrite E'. split; [reflexivity | now constructor].
Qed.

Lemma enriched_rows (cands : JSMap.t Candidate) (rows : list Book.row)
    (results : list RecommendationResult) :
  Forall2
    (fun book r =>
       match JSMap.get cands (Book.book_id book) with
       | Some c =>
           Some (mkResult (Book.book_id book) (Book.title book)
                          (Book.author book) (Book.dewey_decimal book)
                          (parseFloat_toFixed (weightedScore c) 4)
                          (recommendedBy c) None)
       | None => None
       end = Some r)
    rows results ->
  Forall (enriched_from cands) results
  /\ map book_id results = map Book.book_id rows.
Proof.
  induction 1 as [| book r rows results Hr F [IH1 IH2]]; simpl.
  - split; [constructor | reflexivity].
  - destruct (JSMap.get cands _) as [c |] eqn:G; [|discriminate].
    injection Hr as <-. simpl. split; [|now rewrite IH2].
    constructor; [|exact IH1]. exists c. simpl. auto.
Qed.

Section EnrichFacts.

Variable localeCompare : string -> string -> Z.
Hypothesis localeCompare_total :
  forall s t, localeCompare s t <= 0 \/ localeCompare t s <= 0.
Hypothesis localeCompare_trans :
  forall s t u, localeCompare s t <= 0 -> localeCompare t u <= 0 ->
                localeCompare s u <= 0.

(** The ranking step returns the head of a list [ranked] that holds one
    entry per book row of a candidate and is in ranking order. *)
Lemma enrichAndRank_run (cands : JSMap.t Candidate) (lim : Z)
    (db : Store.Database) :
  exists ranked,
    run (_enrichAndRank localeCompare cands lim) db
    = Some (JSArray.slice0 ranked lim)
    /\ StronglySorted (ranks_before localeCompare) ranked
    /\ Forall (enriched_from cands) ranked
    /\ Permutation
         (map book_id ranked)
         (map Book.book_id
            (filter (fun b => SQL.in_list (Book.book_id b) (JSMap.keys cands))
                    (Store.books db))).
Proof.
  unfold _enrichAndRank, run.
  destruct (JSMap.size cands =? 0) eqn:E.
  - apply length_zero in E. subst cands. exists []. simpl.
    split; [unfold JSArray.slice0; now rewrite firstn_nil|].
    split; [constructor|]. split; [constructor|].
    rewrite filter_none; [constructor | reflexivity].
  - assert (Hk : JSMap.keys cands <> []).
    { destruct cands; [discriminate E | discriminate]. }
    set (rows := filter (fun b => SQL.in_list (Book.book_id b) (JSMap.keys cands))
                        (Store.books db)).
    assert (Hsel : select_books_in (JSMap.keys cands) db = Some rows).
    { unfold select_books_in. now destruct (JSMap.keys cands). }
    set (enrich := fun book : Book.row =>
           match JSMap.get cands (Book.book_id book) with
           | Some c =>
               Some (mkResult (Book.book_id book) (Book.title book)
                              (Book.author book) (Book.dewey_decimal book)
                              (parseFloat_toFixed (weightedScore c) 4)
                              (recommendedBy c) None)
           | None => None
           end).
    destruct (map_or_throw_Forall2 enrich rows) as [results [Hres F]].
    { intros book Hb. apply filter_In in Hb. destruct Hb as [_ Hb].
      apply in_list_In in Hb. unfold enrich.
      destruct (JSMap.get cands (Book.book_id book)) eqn:G; [discriminate|].
      apply get_None_keys in G. contradiction. }
    exists (JSArray.sort (rank_compare localeCompare) results).
    split; [|split; [|split]].
    + unfold bind, execute. rewrite Hsel. fold enrich. now rewrite Hres.
    + now apply rank_sort_sorted.
    + eapply Permutation_Forall; [symmetry; apply sort_Permutation|].
      exact (proj1 (enriched_rows _ _ _ F)).
    + rewrite (Permutation_map book_id (sort_Permutation _ results)).
      now rewrite (proj2 (enriched_rows _ _ _ F)).
Qed.

End EnrichFacts.

Lemma string_compare_trans (s t u : string) :
  String.compare s t <> Gt -> String.compare t u <> Gt ->
  String.compare s u <> Gt.
Proof.
  revert t u. induction s as [| a s IH]; intros [| b t] [| c u]; simpl;
    try congruence.
  unfold Ascii.compare.
  destruct (N.compare_spec (N_of_ascii a) (N_of_ascii b)) as [E1 | L1 | L1];
    destruct (N.compare_spec (N_of_ascii b) (N_of_ascii c)) as [E2 | L2 | L2];
    destruct (N.compare_spec (N_of_ascii a) (N_of_ascii c)) as [E3 | L3 | L3];
    try congruence; try lia.
  apply IH.
Qed.

Lemma code_unit_compare_total (s t : string) :
  code_unit_compare s t <= 0 \/ code_unit_compare t s <= 0.
Proof.
  unfold code_unit_compare. rewrite (String.compare_antisym s t).
  destruct (String.compare t s); simpl; lia.
Qed.

Lemma code_unit_compare_trans (s t u : string) :
  code_unit_compare s t <= 0 -> code_unit_compare t u <= 0 ->
  code_unit_compare s u <= 0.
Proof.
  unfold code_unit_compare. intros H1 H2.
  assert (G : String.compare s u <> Gt).
  { apply string_compare_trans with t.
    - destruct (String.compare s t); simpl in H1; [discriminate | discriminate | lia].
    - destruct (String.compare t u); simpl in H2; [discriminate | discriminate | lia]. }
  destruct (String.compare s u); simpl; [lia | lia | congruence].
Qed.

(** C5, as amended: on the primary path (a non-empty read-set, a non-empty
    peer map, at least one peer at or above the threshold) recommend returns
    the head, cut at the limit, of the list of all enriched candidates
    sorted by match score from high to low with ties ordered by title under
    localeCompare; the limit is the one requested and is 10 (MAX_RESULTS)
    when the caller supplies none. *)
Theorem primary_path_ranking (localeCompare : string -> string -> Z)
    (localeCompare_total :
       forall s t, localeCompare s t <= 0 \/ localeCompare t s <= 0)
    (localeCompare_trans :
       forall s t u, localeCompare s t <= 0 -> localeCompare t u <= 0 ->
                     localeCompare s u <= 0)
    (userId : string) (opts : Opts) (db : Store.Database)
    (target : JSSet.t) (all : JSMap.t JSSet.t)
    (Ht : run (_getBorrowedBooks userId) db = Some target)
    (Hne : target <> [])
    (Ha : run (_getAllUserBooks userId) db = Some all)
    (Hall : all <> [])
    (Hpeers :
       _scorePeers target all
         match minScore opts with Some s => s | None => MIN_SIMILARITY end
       <> []) :
  let lim := match limit opts with Some l => l | None => 10 end in
  let candidates :=
    _aggregateCandidates
      (JSArray.slice0
         (_scorePeers target all
            match minScore opts with Some s => s | None => MIN_SIMILARITY end)
         MAX_PEERS)
      target in
  exists ranked,
    run (getRecommendations localeCompare userId opts) db
    = Some (JSArray.slice0 ranked lim)
    /\ StronglySorted (ranks_before localeCompare) ranked
    /\ Permutation
         (map book_id ranked)
         (map Book.book_id
            (filter (fun b => SQL.in_list (Book.book_id b) (JSMap.keys candidates))
                    (Store.books db)))
    /\ Forall (enriched_from candidates) ranked
    /\ StronglySorted (ranks_before localeCompare) (JSArray.slice0 ranked lim)
    /\ (0 <= lim -> JSArray.slice0 ranked lim = firstn (Z.to_nat lim) ranked).
Proof.
  intros lim candidates.
  destruct (enrichAndRank_run localeCompare localeCompare_total
              localeCompare_trans candidates lim db)
    as [ranked [Hrun [Hsorted [Htags Hperm]]]].
  exists ranked.
  split; [|split; [exact Hsorted|split; [exact Hperm|split; [exact Htags|split]]]].
  - unfold run in *. rewrite (recommend_with_history _ _ _ _ _ _ Ht Hne Ha).
    simpl. rewrite !length_nonzero; [exact Hrun | exact Hpeers |].
    destruct all; [contradiction | discriminate].
  - now apply slice0_StronglySorted.
  - apply slice0_firstn.
Qed.

Lemma primary_path_ranking_witness :
  run (_getBorrowedBooks "U001") sample_db = Some ["B1"; "B2"; "B3"]%string
  /\ exists ranked,
       run (getRecommendations code_unit_compare "U001" no_opts) sample_db
       = Some (JSArray.slice0 ranked 10)
       /\ StronglySorted (ranks_before code_unit_compare) ranked.
Proof.
  assert (Ht : run (_getBorrowedBooks "U001") sample_db
               = Some ["B1"; "B2"; "B3"]%string)
    by (vm_compute; reflexivity).
  assert (Ha : run (_getAllUserBooks "U001") sample_db
               = Some [("U002", ["B1"; "B2"; "B4"]);
                       ("U003", ["B5"]);
                       ("U004", ["B1"; "B4"; "B6"; "B7"; "B8"; "B9"; "B10"; "B11"]);
                       ("U006", ["B12"])]%string)
    by (vm_compute; reflexivity).
  split; [exact Ht|].
  destruct (primary_path_ranking code_unit_compare code_unit_compare_total
              code_unit_compare_trans "U001" no_opts sample_db _ _ Ht
              ltac:(discriminate) Ha ltac:(discriminate)
              ltac:(vm_compute; discriminate))
    as [ranked [Hrun [Hsorted _]]].
  exists ranked. split; assumption.
Defined.

(** C5, as stated, fails on the default: with no limit supplied the list is
    cut at 10, and here it has seven entries. *)
Lemma default_limit_is_not_five :
  option_map (@List.length RecommendationResult)
    (run (getRecommendations code_unit_compare "U001" no_opts) sample_db)
  = Some 7%nat
  /\ limit no_opts = None.
Proof. split; [vm_compute|]; reflexivity. Qed.

Example recommend_with_limit_five :
  option_map (map book_id)
    (run (getRecommendations code_unit_compare "U001" (mkOpts (Some 5) None))
         sample_db)
  = Some ["B4"; "B8"; "B9"; "B7"; "B11"]%string.
Proof. vm_compute. reflexivity. Qed.

(** The end-to-end scenario: B scores 0.5 and contributes B4; C scores 0 and
    contributes nothing. *)
Example recommend_scenario :
  run (getRecommendations code_unit_compare "A" no_opts) scenario_db
  = Some [mkResult "B4" "Zero to One" "Peter Thiel" "658.1"
                   (5000 # 10000) ["B"] None]%string.
Proof. vm_compute. reflexivity. Qed.

(** * Further properties of the service *)

(** ** Similarity engine: the extreme scores *)

Lemma jaccard_value_le (A B : JSSet.t) :
  A <> [] \/ B <> [] -> (List.length A <= List.length B)%nat ->
  _jaccard A B
  = (inject_Z (Z.of_nat (List.length (filter (JSSet.has B) A)))
     / inject_Z (JSSet.size A + JSSet.size B
                 - Z.of_nat (List.length (filter (JSSet.has B) A))))%Q.
Proof.
  intros Hne Hle. unfold _jaccard, JSSet.size.
  destruct ((Z.of_nat (List.length A) =? 0) && (Z.of_nat (List.length B) =? 0))
    eqn:E.
  { apply andb_true_iff in E. destruct E as [E1 E2].
    apply length_zero in E1, E2. tauto. }
  destruct (Z.of_nat (List.length A) <=? Z.of_nat (List.length B)) eqn:L;
    [|apply Z.leb_gt in L; lia].
  now rewrite count_loop.
Qed.

Lemma jaccard_value_gt (A B : JSSet.t) :
  (List.length B < List.length A)%nat ->
  _jaccard A B
  = (inject_Z (Z.of_nat (List.length (filter (JSSet.has A) B)))
     / inject_Z (JSSet.size A + JSSet.size B
                 - Z.of_nat (List.length (filter (JSSet.has A) B))))%Q.
Proof.
  intros Hlt. unfold _jaccard, JSSet.size.
  destruct ((Z.of_nat (List.length A) =? 0) && (Z.of_nat (List.length B) =? 0))
    eqn:E.
  { apply andb_true_iff in E. destruct E as [E1 _]. apply Z.eqb_eq in E1. lia. }
  destruct (Z.of_nat (List.length A) <=? Z.of_nat (List.length B)) eqn:L;
    [apply Z.leb_le in L; lia|].
  now rewrite count_loop.
Qed.

Lemma quotient_zero (i u : Z) :
  0 < u -> ((inject_Z i / inject_Z u == 0)%Q <-> i = 0).
Proof.
  intros Hu. destruct u as [| p | p]; try lia.
  unfold Qeq, Qdiv, Qmult, Qinv. simpl. lia.
Qed.

Lemma quotient_one (i u : Z) :
  0 < u -> ((inject_Z i / inject_Z u == 1)%Q <-> i = u).
Proof.
  intros Hu. destruct u as [| p | p]; try lia.
  unfold Qeq, Qdiv, Qmult, Qinv. simpl. lia.
Qed.

Lemma filter_nil_iff {A} (f : A -> bool) (l : list A) :
  filter f l = [] <-> forall x, In x l -> f x = false.
Proof.
  split; [|apply filter_none].
  intros E x Hx. destruct (f x) eqn:Hf; [|reflexivity].
  assert (H : In x (filter f l)) by (apply filter_In; now split).
  rewrite E in H. contradiction.
Qed.

Lemma length_zero_nat {A} (l : list A) : Z.of_nat (List.length l) = 0 <-> l = [].
Proof. rewrite <- length_zero. symmetry. apply Z.eqb_eq. Qed.

(** X1: the similarity of two sets is 0 exactly when they share no
    element. *)
Theorem jaccard_zero_iff_disjoint (A B : JSSet.t) :
  (_jaccard A B == 0)%Q <-> (forall x, In x A -> ~ In x B).
Proof.
  destruct (Nat.le_gt_cases (List.length A) (List.length B)) as [Hle | Hgt].
  - destruct A as [| a A'].
    + destruct B as [| b B']; [split; [intros _ x [] | reflexivity]|].
      rewrite jaccard_value_le by (auto; right; discriminate).
      simpl. split; [intros _ x [] | reflexivity].
    + rewrite jaccard_value_le by (auto; left; discriminate).
      pose proof (filter_length_le (JSSet.has B) (a :: A')) as Hf.
      rewrite quotient_zero by (unfold JSSet.size; simpl List.length in *; lia).
      rewrite length_zero_nat, filter_nil_iff.
      split; intros H x Hx; specialize (H x Hx); now apply has_false.
  - rewrite jaccard_value_gt by assumption.
    pose proof (filter_length_le (JSSet.has A) B) as Hf.
    rewrite quotient_zero by (unfold JSSet.size; lia).
    rewrite length_zero_nat, filter_nil_iff. split.
    + intros H x Hx Hb. specialize (H x Hb). apply has_false in H. contradiction.
    + intros H x Hx. apply has_false. intros Ha. now apply (H x).
Qed.

Lemma filter_full_iff {A} (f : A -> bool) (l : list A) :
  List.length (filter f l) = List.length l <-> forall x, In x l -> f x = true.
Proof.
  induction l as [| a l IH]; simpl; [tauto|].
  pose proof (filter_length_le f l) as Hf.
  destruct (f a) eqn:E; simpl.
  - split.
    + intros H x [<- | Hx]; [assumption|]. apply IH; [lia | assumption].
    + intros H. f_equal. apply IH. auto.
  - split; [lia|]. intros H. specialize (H a (or_introl eq_refl)). congruence.
Qed.

(** X2: for two sets, the similarity is 1 exactly when the sets are not
    empty and hold the same elements. *)
Theorem jaccard_one_iff_same (A B : JSSet.t) (HA : NoDup A) (HB : NoDup B) :
  (_jaccard A B == 1)%Q <-> A <> [] /\ (forall x, In x A <-> In x B).
Proof.
  assert (Hsame : forall X Y : JSSet.t, NoDup X -> NoDup Y ->
            (List.length X <= List.length Y)%nat ->
            (Z.of_nat (List.length (filter (JSSet.has Y) X))
             = JSSet.size X + JSSet.size Y
               - Z.of_nat (List.length (filter (JSSet.has Y) X))
             <-> forall x, In x X <-> In x Y)).
  { intros X Y HX HY Hle. unfold JSSet.size.
    pose proof (filter_length_le (JSSet.has Y) X) as Hf. split.
    - intros E.
      assert (E1 : List.length (filter (JSSet.has Y) X) = List.length X) by lia.
      assert (E2 : List.length Y = List.length X) by lia.
      assert (Hincl : incl X Y).
      { intros x Hx. apply has_In.
        now apply (proj1 (filter_full_iff _ _) E1). }
      intros x. split; [apply Hincl|].
      apply (NoDup_length_incl HX); [lia | exact Hincl].
    - intros Hiff.
      assert (E1 : List.length (filter (JSSet.has Y) X) = List.length X).
      { apply filter_full_iff. intros x Hx. apply has_In. now apply Hiff. }
      assert (E2 : List.length X = List.length Y).
      { apply Permutation_length, NoDup_Permutation; assumption. }
      lia. }
  destruct (Nat.le_gt_cases (List.length A) (List.length B)) as [Hle | Hgt].
  - destruct A as [| a A'].
    + split; [|intros [H _]; congruence].
      destruct B as [| b B']; [discriminate|].
      rewrite jaccard_value_le by (auto; right; discriminate).
      simpl. discriminate.
    + rewrite jaccard_value_le by (auto; left; discriminate).
      pose proof (filter_length_le (JSSet.has B) (a :: A')) as Hf.
      rewrite quotient_one by (unfold JSSet.size; simpl List.length in *; lia).
      rewrite (Hsame (a :: A') B HA HB Hle).
      split; [intros H; split; [discriminate | exact H] | tauto].
  - rewrite jaccard_value_gt by assumption.
    pose proof (filter_length_le (JSSet.has A) B) as Hf.
    rewrite quotient_one by (unfold JSSet.size; lia).
    replace (JSSet.size A + JSSet.size B) with (JSSet.size B + JSSet.size A) by lia.
    rewrite (Hsame B A HB HA) by lia.
    split.
    + intros H. split; [destruct A; [simpl in Hgt; lia | discriminate]|].
      intros x. symmetry. apply H.
    + intros [_ H] x. symmetry. apply H.
Qed.

Lemma jaccard_one_iff_same_witness :
  NoDup ["B2"; "B1"]%string /\ NoDup ["B1"; "B2"]%string
  /\ (_jaccard ["B2"; "B1"]%string ["B1"; "B2"]%string == 1)%Q.
Proof.
  assert (HA : NoDup ["B2"; "B1"]%string) by solve_NoDup.
  assert (HB : NoDup ["B1"; "B2"]%string) by solve_NoDup.
  split; [exact HA|]. split; [exact HB|].
  apply (proj2 (jaccard_one_iff_same _ _ HA HB)).
  split; [discriminate|]. intros x. simpl. tauto.
Defined.

(** ** Data fetching *)

Lemma add_In (s : JSSet.t) (x y : string) :
  In y (JSSet.add s x) <-> In y s \/ y = x.
Proof.
  unfold JSSet.add. destruct (JSSet.has s x) eqn:E.
  - apply has_In in E. split; [tauto|]. intros [H | ->]; assumption.
  - rewrite in_app_iff. simpl. intuition.
Qed.

Lemma of_list_In (l : list string) (x : string) :
  In x (JSSet.of_list l) <-> In x l.
Proof.
  unfold JSSet.of_list.
  assert (G : forall acc, In x (fold_left JSSet.add l acc) <-> In x acc \/ In x l).
  { induction l as [| a l IH]; simpl; intros acc; [tauto|].
    rewrite IH, add_In. intuition. }
  rewrite G. simpl. tauto.
Qed.

Lemma read_set_facts (userId : string) (db : Store.Database) :
  exists target,
    _getBorrowedBooks userId db = ([SelectBorrowedBooks userId], Some target)
    /\ NoDup target
    /\ forall b, In b target <->
         exists l, In l (Store.loans db)
                   /\ Loan.user_id l = userId /\ Loan.book_id l = b.
Proof.
  eexists. split; [reflexivity|]. split; [apply of_list_NoDup|].
  intros b. rewrite of_list_In, in_map_iff.
  split; intros [l H]; exists l; rewrite filter_In, String.eqb_eq in *; tauto.
Qed.

(** X3: the read-set of a reader is fetched with one statement, never fails,
    holds no book twice, and holds a book exactly when the loans table has a
    loan of that book by that reader. *)
Theorem getBorrowedBooks_spec (userId : string) (db : Store.Database) :
  exists target,
    _getBorrowedBooks userId db = ([SelectBorrowedBooks userId], Some target)
    /\ NoDup target
    /\ forall b, In b target <->
         exists l, In l (Store.loans db)
                   /\ Loan.user_id l = userId /\ Loan.book_id l = b.
Proof. apply read_set_facts. Qed.

(** ** The grouping of the peer statement's rows *)

Lemma group_row_eq (m : JSMap.t JSSet.t) (u b : string) :
  group_row m (u, b)
  = match JSMap.get m u with
    | Some s => Some (JSObject.set m u (JSSet.add s b))
    | None =>
        if JSObject.inherited u then None
        else Some (JSObject.set (JSObject.set m u []) u (JSSet.add [] b))
    end.
Proof.
  unfold group_row, JSMap.has.
  destruct (JSMap.get m u) as [s |] eqn:E; simpl; [now rewrite E|].
  destruct (JSObject.inherited u); simpl; [now rewrite E|].
  now rewrite object_get_set, String.eqb_refl.
Qed.

Lemma of_list_snoc (l : list string) (x : string) :
  JSSet.of_list (l ++ [x]) = JSSet.add (JSSet.of_list l) x.
Proof. unfold JSSet.of_list. now rewrite fold_left_app. Qed.

Section ObjectKeys.

Context {V : Type}.
Implicit Types (m : JSMap.t V) (k : string) (v : V).

Lemma keys_set_own m k v :
  JSMap.get m k <> None -> JSMap.keys (JSMap.set m k v) = JSMap.keys m.
Proof.
  unfold JSMap.get, JSMap.keys.
  induction m as [| [k0 v0] m IH]; simpl; [congruence|].
  destruct (String.eqb k k0) eqn:E; simpl.
  - apply String.eqb_eq in E. now subst.
  - intros H. now rewrite IH.
Qed.

Lemma keys_set_new m k v :
  JSMap.get m k = None -> JSMap.keys (JSMap.set m k v) = JSMap.keys m ++ [k].
Proof.
  unfold JSMap.get, JSMap.keys.
  induction m as [| [k0 v0] m IH]; simpl; [reflexivity|].
  destruct (String.eqb k k0) eqn:E; simpl; [discriminate|].
  intros H. now rewrite IH.
Qed.

(** A new array index takes its place among the array indices, which stay
    in ascending order; the other keys are not moved. *)
Lemma insert_index_order m k v :
  JSObject.is_array_index k = true ->
  forall indices others,
    JSMap.keys m = indices ++ others ->
    Forall (fun i => JSObject.is_array_index i = true) indices ->
    StronglySorted
      (fun a b => JSObject.index_value a <= JSObject.index_value b) indices ->
    Forall (fun o => JSObject.is_array_index o = false) others ->
    exists indices',
      JSMap.keys (JSObject.insert_index m k v) = indices' ++ others
      /\ Forall (fun i => JSObject.is_array_index i = true) indices'
      /\ StronglySorted
           (fun a b => JSObject.index_value a <= JSObject.index_value b)
           indices'
      /\ forall x, In x indices' -> x = k \/ In x indices.
Proof.
  intros Hk. unfold JSMap.keys.
  induction m as [| [k0 v0] m IH]; intros indices others Hkeys Hidx Hsorted Hoth.
  - simpl in *. symmetry in Hkeys. apply app_eq_nil in Hkeys.
    destruct Hkeys as [-> ->]. exists [k].
    split; [reflexivity|]. split; [now constructor|].
    split; [repeat constructor|]. intros x [<- | []]. now left.
  - cbn [JSObject.insert_index]. destruct indices as [| i indices].
    + simpl in Hkeys. subst others.
      inversion Hoth as [| ? ? Hk0 _]; subst. simpl in Hk0. rewrite Hk0.
      cbn [andb]. exists [k].
      split; [reflexivity|]. split; [now constructor|].
      split; [repeat constructor|]. intros x [<- | []]. now left.
    + simpl in Hkeys. injection Hkeys as <- Hkeys.
      inversion Hidx as [| ? ? Hi Hidx']; subst.
      inversion Hsorted as [| ? ? Hsorted' Hle]; subst.
      rewrite Hi. cbn [andb].
      destruct (JSObject.index_value k0 <? JSObject.index_value k) eqn:E.
      * apply Z.ltb_lt in E.
        destruct (IH indices others Hkeys Hidx' Hsorted' Hoth)
          as [indices' [E' [Hidx'' [Hsorted'' Hfrom]]]].
        exists (k0 :: indices'). simpl. rewrite E'.
        split; [reflexivity|]. split; [now constructor|]. split.
        { constructor; [exact Hsorted''|]. apply Forall_forall.
          intros x Hx. destruct (Hfrom x Hx) as [-> | Hin]; [lia|].
          exact (proj1 (Forall_forall _ _) Hle x Hin). }
        intros x [<- | Hx]; [right; now left|].
        destruct (Hfrom x Hx); [now left | right; now right].
      * apply Z.ltb_ge in E.
        exists (k :: k0 :: indices). simpl. rewrite Hkeys.
        split; [reflexivity|]. split; [repeat constructor; auto|]. split.
        { constructor; [now constructor|]. constructor; [exact E|].
          apply Forall_forall. intros x Hx.
          pose proof (proj1 (Forall_forall _ _) Hle x Hx) as Hx'.
          cbv beta in Hx'. lia. }
        intros x [<- | Hx]; [now left | now right].
Qed.

End ObjectKeys.

(** The grouping loop of [_getAllUserBooks].  It throws exactly when a row
    has a reader id that is an inherited property name.  Otherwise the
    object holds one well-formed, non-empty set per reader of the rows, with
    that reader's books; its keys are the array indices among the ids, in
    ascending order, followed by the other ids in the order of their first
    row. *)
Lemma group_loop_invariant (rows : list (string * string)) :
  match reduce_or_throw group_row rows [] with
  | Some m =>
      (forall u b, In (u, b) rows -> JSObject.inherited u = false)
      /\ NoDup (JSMap.keys m)
      /\ (forall u s, JSMap.get m u = Some s ->
            NoDup s /\ s <> [] /\ forall b, In b s <-> In (u, b) rows)
      /\ (forall u b, In (u, b) rows -> JSMap.get m u <> None)
      /\ exists indices,
           JSMap.keys m
           = indices
             ++ JSSet.of_list
                  (filter (fun k => negb (JSObject.is_array_index k))
                          (map fst rows))
           /\ Forall (fun i => JSObject.is_array_index i = true) indices
           /\ StronglySorted
                (fun a b => JSObject.index_value a <= JSObject.index_value b)
                indices
  | None => exists u b, In (u, b) rows /\ JSObject.inherited u = true
  end.
Proof.
  assert (G : forall todo done (m : JSMap.t JSSet.t),
    (forall u b, In (u, b) done -> JSObject.inherited u = false) ->
    NoDup (JSMap.keys m) ->
    (forall u s, JSMap.get m u = Some s ->
       NoDup s /\ s <> [] /\ forall b, In b s <-> In (u, b) done) ->
    (forall u b, In (u, b) done -> JSMap.get m u <> None) ->
    (exists indices,
       JSMap.keys m
       = indices
         ++ JSSet.of_list
              (filter (fun k => negb (JSObject.is_array_index k))
                      (map fst done))
       /\ Forall (fun i => JSObject.is_array_index i = true) indices
       /\ StronglySorted
            (fun a b => JSObject.index_value a <= JSObject.index_value b)
            indices) ->
    match reduce_or_throw group_row todo m with
    | Some m' =>
        (forall u b, In (u, b) (done ++ todo) -> JSObject.inherited u = false)
        /\ NoDup (JSMap.keys m')
        /\ (forall u s, JSMap.get m' u = Some s ->
              NoDup s /\ s <> []
              /\ forall b, In b s <-> In (u, b) (done ++ todo))
        /\ (forall u b, In (u, b) (done ++ todo) -> JSMap.get m' u <> None)
        /\ exists indices,
             JSMap.keys m'
             = indices
               ++ JSSet.of_list
                    (filter (fun k => negb (JSObject.is_array_index k))
                            (map fst (done ++ todo)))
             /\ Forall (fun i => JSObject.is_array_index i = true) indices
             /\ StronglySorted
                  (fun a b => JSObject.index_value a <= JSObject.index_value b)
                  indices
    | None => exists u b, In (u, b) todo /\ JSObject.inherited u = true
    end).
  { induction todo as [| [u0 b0] todo IH]; intros done m I0 I1 I2 I3 I4.
    - simpl. rewrite app_nil_r. auto.
    - cbn [reduce_or_throw]. rewrite group_row_eq.
      assert (Hdone : done ++ (u0, b0) :: todo = (done ++ [(u0, b0)]) ++ todo)
        by now rewrite <- app_assoc.
      rewrite Hdone.
      assert (Hkeys_others :
                forall k, In k (JSSet.of_list
                                  (filter (fun k => negb (JSObject.is_array_index k))
                                          (map fst done))) ->
                          JSObject.is_array_index k = false).
      { intros k Hk. apply of_list_In, filter_In in Hk.
        now apply negb_true_iff. }
      set (others := JSSet.of_list
                       (filter (fun k => negb (JSObject.is_array_index k))
                               (map fst done))) in *.
      assert (Hothers' :
                JSSet.of_list
                  (filter (fun k => negb (JSObject.is_array_index k))
                          (map fst (done ++ [(u0, b0)])))
                = if JSObject.is_array_index u0 then others
                  else JSSet.add others u0).
      { rewrite map_app, filter_app. cbn [map filter fst].
        destruct (JSObject.is_array_index u0); cbn [negb].
        - now rewrite app_nil_r.
        - apply of_list_snoc. }
      assert (Hnext : forall (s0 : JSSet.t) (m1 : JSMap.t JSSet.t),
                JSObject.inherited u0 = false ->
                NoDup (JSMap.keys m1) ->
                (forall u, JSMap.get m1 u
                           = if String.eqb u u0 then Some (JSSet.add s0 b0)
                             else JSMap.get m u) ->
                NoDup s0 ->
                (forall b, In b s0 <-> In (u0, b) done) ->
                (exists indices,
                   JSMap.keys m1
                   = indices
                     ++ JSSet.of_list
                          (filter (fun k => negb (JSObject.is_array_index k))
                                  (map fst (done ++ [(u0, b0)])))
                   /\ Forall (fun i => JSObject.is_array_index i = true) indices
                   /\ StronglySorted
                        (fun a b => JSObject.index_value a
                                    <= JSObject.index_value b) indices) ->
                match reduce_or_throw group_row todo m1 with
                | Some m' =>
                    (forall u b, In (u, b) ((done ++ [(u0, b0)]) ++ todo) ->
                                 JSObject.inherited u = false)
                    /\ NoDup (JSMap.keys m')
                    /\ (forall u s, JSMap.get m' u = Some s ->
                          NoDup s /\ s <> []
                          /\ forall b, In b s
                                       <-> In (u, b) ((done ++ [(u0, b0)]) ++ todo))
                    /\ (forall u b, In (u, b) ((done ++ [(u0, b0)]) ++ todo) ->
                                    JSMap.get m' u <> None)
                    /\ exists indices,
                         JSMap.keys m'
                         = indices
                           ++ JSSet.of_list
                                (filter (fun k => negb (JSObject.is_array_index k))
                                        (map fst ((done ++ [(u0, b0)]) ++ todo)))
                         /\ Forall (fun i => JSObject.is_array_index i = true)
                                   indices
                         /\ StronglySorted
                              (fun a b => JSObject.index_value a
                                          <= JSObject.index_value b) indices
                | None =>
                    exists u b, In (u, b) ((u0, b0) :: todo)
                                /\ JSObject.inherited u = true
                end).
      { intros s0 m1 Hinh K1 K2 N0 M0 K4.
        specialize (IH (done ++ [(u0, b0)]) m1).
        destruct (reduce_or_throw group_row todo m1) as [m' |].
        - apply IH; [| exact K1 | | | exact K4].
          + intros u b Hin. apply in_app_iff in Hin.
            destruct Hin as [Hin | [[= <- <-] | []]]; [now apply (I0 u b) | exact Hinh].
          + intros u s. rewrite K2.
            destruct (String.eqb u u0) eqn:Eu.
            * apply String.eqb_eq in Eu. subst u. intros [= <-].
              split; [now apply add_NoDup|]. split.
              { intros E. assert (H : In b0 (JSSet.add s0 b0))
                  by (apply add_In; now right).
                rewrite E in H. contradiction. }
              intros b. rewrite add_In, in_app_iff, M0. simpl.
              split; [intros [H | ->]; auto | intros [H | [[= ->] | []]]; auto].
            * apply String.eqb_neq in Eu. intros Hs.
              destruct (I2 u s Hs) as [Hn [He Hm]]. split; [exact Hn|].
              split; [exact He|].
              intros b. rewrite Hm, in_app_iff. simpl.
              split; [auto | intros [H | [[= E _] | []]]; [exact H | congruence]].
          + intros u b. rewrite in_app_iff, K2. simpl.
            destruct (String.eqb u u0) eqn:Eu; [discriminate|].
            apply String.eqb_neq in Eu.
            intros [H | [[= E _] | []]]; [now apply (I3 u b) | congruence].
        - assert (H : exists u b, In (u, b) todo /\ JSObject.inherited u = true).
          { apply IH; [| exact K1 | | | exact K4].
            + intros u b Hin. apply in_app_iff in Hin.
              destruct Hin as [Hin | [[= <- <-] | []]];
                [now apply (I0 u b) | exact Hinh].
            + intros u s. rewrite K2.
              destruct (String.eqb u u0) eqn:Eu.
              * apply String.eqb_eq in Eu. subst u. intros [= <-].
                split; [now apply add_NoDup|]. split.
                { intros E. assert (H : In b0 (JSSet.add s0 b0))
                    by (apply add_In; now right).
                  rewrite E in H. contradiction. }
                intros b. rewrite add_In, in_app_iff, M0. simpl.
                split; [intros [H | ->]; auto | intros [H | [[= ->] | []]]; auto].
              * apply String.eqb_neq in Eu. intros Hs.
                destruct (I2 u s Hs) as [Hn [He Hm]]. split; [exact Hn|].
                split; [exact He|].
                intros b. rewrite Hm, in_app_iff. simpl.
                split; [auto | intros [H | [[= E _] | []]]; [exact H | congruence]].
            + intros u b. rewrite in_app_iff, K2. simpl.
              destruct (String.eqb u u0) eqn:Eu; [discriminate|].
              apply String.eqb_neq in Eu.
              intros [H | [[= E _] | []]]; [now apply (I3 u b) | congruence]. }
          destruct H as [u [b [Hin Hu]]]. exists u, b. split; [now right | exact Hu]. }
      destruct I4 as [indices [Ekeys [Hidx Hsorted]]].
      destruct (JSMap.get m u0) as [s |] eqn:E.
      + (* the reader has an entry already *)
        destruct (I2 u0 s E) as [Hn [Hne Hm]].
        assert (Hinh : JSObject.inherited u0 = false).
        { destruct s as [| b s']; [congruence|].
          apply (I0 u0 b). apply Hm. now left. }
        apply (Hnext s); auto.
        * now apply object_NoDup_keys_set.
        * intros u. apply object_get_set.
        * exists indices. split; [|now split].
          unfold JSObject.set, JSMap.has. rewrite E. cbn [orb].
          rewrite keys_set_own by congruence. rewrite Ekeys, Hothers'.
          destruct (JSObject.is_array_index u0) eqn:Ei; [reflexivity|].
          f_equal. unfold JSSet.add.
          replace (JSSet.has others u0) with true; [reflexivity|].
          symmetry. apply has_In.
          assert (Hin : In u0 (JSMap.keys m)).
          { apply get_Some_In in E. change u0 with (fst (u0, s)).
            now apply in_map. }
          rewrite Ekeys in Hin. apply in_app_iff in Hin.
          destruct Hin as [Hin | Hin]; [|exact Hin].
          pose proof (proj1 (Forall_forall _ _) Hidx u0 Hin). congruence.
      + destruct (JSObject.inherited u0) eqn:Hinh.
        { exists u0, b0. split; [now left | exact Hinh]. }
        (* a new reader *)
        apply (Hnext []); auto.
        * now apply object_NoDup_keys_set, object_NoDup_keys_set.
        * intros u. rewrite !object_get_set. now destruct (String.eqb u u0).
        * constructor.
        * intros b. split; [intros []|].
          intros Hin. exfalso. now apply (I3 _ _ Hin).
        * assert (Hown : JSMap.get (JSObject.set m u0 []) u0 <> None)
            by (rewrite object_get_set, String.eqb_refl; discriminate).
          unfold JSObject.set at 1. unfold JSMap.has at 1.
          destruct (JSMap.get (JSObject.set m u0 []) u0) eqn:E1; [|congruence].
          cbn [orb]. rewrite keys_set_own by congruence.
          unfold JSObject.set, JSMap.has. rewrite E. cbn [orb].
          rewrite Hothers'.
          destruct (JSObject.is_array_index u0) eqn:Ei; cbn [negb].
          -- destruct (insert_index_order m u0 [] Ei indices others Ekeys Hidx
                         Hsorted)
               as [indices' [E' [Hidx' [Hsorted' _]]]].
             { apply Forall_forall. exact Hkeys_others. }
             exists indices'. now split.
          -- exists indices. split; [|now split].
             rewrite keys_set_new by exact E. rewrite Ekeys, <- app_assoc.
             f_equal. unfold JSSet.add.
             replace (JSSet.has others u0) with false; [reflexivity|].
             symmetry. apply has_false. intros Hin.
             apply get_None_keys in E. apply E. rewrite Ekeys.
             apply in_app_iff. now right. }
  apply (G rows [] []).
  - intros u b [].
  - constructor.
  - intros u s. discriminate.
  - intros u b [].
  - exists []. repeat split; constructor.
Qed.

(** What the peer statement returns: the loans of every other reader. *)
Lemma select_all_user_books_In (userId : string) (db : Store.Database)
    (u b : string) :
  (exists rows, select_all_user_books userId db = Some rows /\ In (u, b) rows)
  <-> exists l, In l (Store.loans db) /\ Loan.user_id l <> userId
                /\ Loan.user_id l = u /\ Loan.book_id l = b.
Proof.
  unfold select_all_user_books. split.
  - intros [rows [[= <-] Hin]]. apply in_map_iff in Hin.
    destruct Hin as [l [[= <- <-] Hl]].
    apply (Permutation_in _ (sort_Permutation _ _)) in Hl.
    apply filter_In in Hl. destruct Hl as [Hl Hne].
    apply negb_true_iff, String.eqb_neq in Hne. now exists l.
  - intros [l [Hl [Hne [<- <-]]]]. eexists. split; [reflexivity|].
    apply in_map_iff. exists l. split; [reflexivity|].
    apply (Permutation_in _ (Permutation_sym (sort_Permutation _ _))).
    apply filter_In. split; [exact Hl|].
    now apply negb_true_iff, String.eqb_neq.
Qed.

(** The peer map, whenever the grouping does not throw. *)
Lemma peer_map_facts (userId : string) (db : Store.Database) :
  sent (_getAllUserBooks userId) db = [SelectAllUserBooks userId]
  /\ match run (_getAllUserBooks userId) db with
     | None =>
         exists l, In l (Store.loans db) /\ Loan.user_id l <> userId
                   /\ JSObject.inherited (Loan.user_id l) = true
     | Some all =>
         (forall l, In l (Store.loans db) -> Loan.user_id l <> userId ->
            JSObject.inherited (Loan.user_id l) = false)
         /\ NoDup (JSMap.keys all)
         /\ (forall u s, In (u, s) all ->
               u <> userId /\ NoDup s /\ s <> []
               /\ forall b, In b s <->
                    exists l, In l (Store.loans db)
                              /\ Loan.user_id l = u /\ Loan.book_id l = b)
         /\ (forall l, In l (Store.loans db) -> Loan.user_id l <> userId ->
               In (Loan.user_id l) (JSMap.keys all))
         /\ exists indices rows,
              select_all_user_books userId db = Some rows
              /\ JSMap.keys all
                 = indices
                   ++ JSSet.of_list
                        (filter (fun k => negb (JSObject.is_array_index k))
                                (map fst rows))
              /\ Forall (fun i => JSObject.is_array_index i = true) indices
              /\ StronglySorted
                   (fun a b => JSObject.index_value a <= JSObject.index_value b)
                   indices
     end.
Proof.
  destruct (select_all_user_books userId db) as [rows |] eqn:Erows;
    [|discriminate].
  assert (Hrow : forall u b, In (u, b) rows <->
            exists l, In l (Store.loans db) /\ Loan.user_id l <> userId
                      /\ Loan.user_id l = u /\ Loan.book_id l = b).
  { intros u b. rewrite <- select_all_user_books_In. rewrite Erows. split.
    - intros H. now exists rows.
    - now intros [rows' [[= <-] H]]. }
  pose proof (group_loop_invariant rows) as Hloop.
  unfold sent, run, _getAllUserBooks, bind, execute. rewrite Erows.
  destruct (reduce_or_throw group_row rows []) as [m |];
    cbn [ret throw fst snd app]; (split; [reflexivity|]).
  - destruct Hloop as [I0 [I1 [I2 [I3 [indices I4]]]]]. split.
    { intros l Hl Hne. apply (I0 (Loan.user_id l) (Loan.book_id l)).
      apply Hrow. now exists l. }
    split; [exact I1|]. split; [|split].
    + intros u s Hin. apply (In_get_Some _ _ _ I1) in Hin.
      destruct (I2 u s Hin) as [Hn [He Hm]].
      assert (Hu : u <> userId).
      { destruct s as [| b s']; [congruence|].
        assert (Hb : In (u, b) rows) by (apply Hm; now left).
        apply Hrow in Hb. destruct Hb as [l [_ [Hne [<- _]]]]. exact Hne. }
      split; [exact Hu|].
      split; [exact Hn|]. split; [exact He|]. intros b. rewrite Hm, Hrow.
      split; intros [l H]; exists l; [tauto|].
      destruct H as [Hl [Hlu Hb]]. repeat split; try assumption. congruence.
    + intros l Hl Hne.
      assert (Hin : In (Loan.user_id l, Loan.book_id l) rows)
        by (apply Hrow; now exists l).
      apply I3 in Hin.
      destruct (JSMap.get m (Loan.user_id l)) as [t |] eqn:G; [|congruence].
      apply get_Some_In in G.
      change (Loan.user_id l) with (fst (Loan.user_id l, t)). now apply in_map.
    + exists indices, rows. split; [reflexivity | exact I4].
  - destruct Hloop as [u [b [Hin Hu]]]. apply Hrow in Hin.
    destruct Hin as [l [Hl [Hne [<- _]]]]. now exists l.
Qed.

(** The entries of a peer map that was returned. *)
Lemma peer_map_entries (userId : string) (db : Store.Database)
    (all : JSMap.t JSSet.t) :
  run (_getAllUserBooks userId) db = Some all ->
  NoDup (JSMap.keys all)
  /\ (forall u s, In (u, s) all ->
        u <> userId /\ NoDup s /\ s <> []
        /\ forall b, In b s <->
             exists l, In l (Store.loans db)
                       /\ Loan.user_id l = u /\ Loan.book_id l = b)
  /\ (forall l, In l (Store.loans db) -> Loan.user_id l <> userId ->
        In (Loan.user_id l) (JSMap.keys all)).
Proof.
  intros Ha. destruct (peer_map_facts userId db) as [_ H]. rewrite Ha in H.
  destruct H as [_ [H1 [H2 [H3 _]]]]. auto.
Qed.

(** X4: the peer map is fetched with one statement.  The grouping throws
    exactly when a reader other than the target has a loan and an id that
    names a property every object inherits (toString, valueOf, __proto__
    and the like).  Otherwise the map has one entry per reader other than
    the target who has a loan; that entry's set is non-empty, holds no book
    twice, and holds a book exactly when the loans table has a loan of that
    book by that reader; and the map lists first the ids that are array
    indices, in ascending order, then the other ids in the order of the
    statement's rows. *)
Theorem getAllUserBooks_spec (userId : string) (db : Store.Database) :
  sent (_getAllUserBooks userId) db = [SelectAllUserBooks userId]
  /\ match run (_getAllUserBooks userId) db with
     | None =>
         exists l, In l (Store.loans db) /\ Loan.user_id l <> userId
                   /\ JSObject.inherited (Loan.user_id l) = true
     | Some all =>
         (forall l, In l (Store.loans db) -> Loan.user_id l <> userId ->
            JSObject.inherited (Loan.user_id l) = false)
         /\ NoDup (JSMap.keys all)
         /\ (forall u s, In (u, s) all ->
               u <> userId /\ NoDup s /\ s <> []
               /\ forall b, In b s <->
                    exists l, In l (Store.loans db)
                              /\ Loan.user_id l = u /\ Loan.book_id l = b)
         /\ (forall l, In l (Store.loans db) -> Loan.user_id l <> userId ->
               In (Loan.user_id l) (JSMap.keys all))
         /\ exists indices rows,
              select_all_user_books userId db = Some rows
              /\ JSMap.keys all
                 = indices
                   ++ JSSet.of_list
                        (filter (fun k => negb (JSObject.is_array_index k))
                                (map fst rows))
              /\ Forall (fun i => JSObject.is_array_index i = true) indices
              /\ StronglySorted
                   (fun a b => JSObject.index_value a <= JSObject.index_value b)
                   indices
     end.
Proof. apply peer_map_facts. Qed.

(** A reader called toString makes the grouping throw; the ids 9 and 10 are
    listed first, in numeric order, although the statement returns 007, 10,
    9 and U002 in this order. *)
Example getAllUserBooks_plain_object :
  _getAllUserBooks "U001" inherited_db = ([SelectAllUserBooks "U001"], None)
  /\ option_map (map fst) (select_all_user_books "U001" numeric_db)
     = Some ["007"; "10"; "9"; "U002"]%string
  /\ run (_getAllUserBooks "U001") numeric_db
     = Some [("9", ["B2"]); ("10", ["B1"]); ("007", ["B3"]); ("U002", ["B1"])]%string.
Proof. repeat split; vm_compute; reflexivity. Qed.

(** ** Peer scorer: ties *)

Lemma insert_filter_score (q : Q) (x : Peer) (l : list Peer) :
  filter (fun p => Qeq_bool (score p) q)
         (JSArray.insert (fun a b => (score b - score a)%Q) x l)
  = if Qeq_bool (score x) q
    then x :: filter (fun p => Qeq_bool (score p) q) l
    else filter (fun p => Qeq_bool (score p) q) l.
Proof.
  induction l as [| y l IH]; simpl; [reflexivity|].
  destruct (Qle_bool (score y - score x) 0) eqn:E; simpl; [reflexivity|].
  rewrite IH.
  destruct (Qeq_bool (score y) q) eqn:Ey; [|reflexivity].
  destruct (Qeq_bool (score x) q) eqn:Ex; [|reflexivity].
  exfalso. apply Qeq_bool_iff in Ex, Ey.
  assert (H : (score y - score x <= 0)%Q).
  { apply Qminus_le_0. rewrite Ex, Ey. apply Qle_refl. }
  apply Qle_bool_iff in H. congruence.
Qed.

(** X5: the peer scorer's sort is stable: the peers that share a score
    stand in the order in which the peer map lists them. *)
Theorem scorePeers_stable (T : JSSet.t) (all : JSMap.t JSSet.t)
    (minScore q : Q) :
  filter (fun p => Qeq_bool (score p) q) (_scorePeers T all minScore)
  = filter (fun p => Qeq_bool (score p) q)
           (map (scored_entry T) (filter (passes T minScore) all)).
Proof.
  unfold _scorePeers. rewrite scored_loop. simpl.
  induction (map (scored_entry T) (filter (passes T minScore) all))
    as [| x l IH]; simpl; [reflexivity|].
  rewrite insert_filter_score, IH. reflexivity.
Qed.

(** ** The store statements of the fallbacks *)

Lemma select_cold_start_rows (lim : Z) (db : Store.Database)
    (rows : list PopularRow) (r : PopularRow) :
  select_cold_start lim db = Some rows -> In r rows ->
  In (popular_book r) (Store.books db)
  /\ exists l, In l (Store.loans db)
               /\ Loan.book_id l = Book.book_id (popular_book r).
Proof.
  unfold select_cold_start. intros Hlim Hr.
  apply (limit_In _ _ _ _ Hlim) in Hr. apply order_by_desc_In in Hr.
  apply in_map_iff in Hr. destruct Hr as [[[b l] n] [<- Hg]]. simpl.
  apply group_count_In in Hg. apply in_flat_map in Hg.
  destruct Hg as [b' [Hb Hj]]. apply in_map_iff in Hj.
  destruct Hj as [l' [[= -> ->] Hl]]. unfold loans_of_book in Hl.
  apply filter_In in Hl. destruct Hl as [Hl E]. apply String.eqb_eq in E.
  split; [exact Hb | now exists l].
Qed.

Lemma select_dewey_fallback_loan (ids : list string) (lim : Z)
    (db : Store.Database) (rows : list PopularRow) (r : PopularRow) :
  select_dewey_fallback ids lim db = Some rows -> In r rows ->
  exists l, In l (Store.loans db)
            /\ Loan.book_id l = Book.book_id (popular_book r).
Proof.
  unfold select_dewey_fallback. destruct ids as [| i ids]; [discriminate|].
  remember (i :: ids) as L eqn:EL. clear EL.
  intros Hlim Hr. apply (limit_In _ _ _ _ Hlim) in Hr.
  apply order_by_desc_In in Hr. apply in_map_iff in Hr.
  destruct Hr as [[[[b1 b2] l] n] [<- Hg]]. simpl.
  apply group_count_In in Hg. apply filter_In in Hg. destruct Hg as [Hj _].
  apply in_flat_map in Hj. destruct Hj as [b1' [_ Hj]].
  apply in_flat_map in Hj. destruct Hj as [b2' [_ Hj]].
  destruct (_ && _); [|contradiction].
  apply in_map_iff in Hj. destruct Hj as [l' [[= -> -> ->] Hl]].
  unfold loans_of_book in Hl. apply filter_In in Hl. destruct Hl as [Hl E].
  apply String.eqb_eq in E. now exists l.
Qed.

Lemma limit_length {R} (n : Z) (rows out : list R) :
  SQL.limit n rows = Some out -> 0 <= n /\ (List.length out <= Z.to_nat n)%nat.
Proof.
  unfold SQL.limit. destruct (n <? 0) eqn:E; [discriminate|].
  apply Z.ltb_ge in E. intros [= <-]. split; [exact E|].
  apply firstn_le_length.
Qed.

(** ** Enrichment *)

Lemma Forall2_In_r {A B} (P : A -> B -> Prop) (l : list A) (l' : list B) (b : B) :
  Forall2 P l l' -> In b l' -> exists a, In a l /\ P a b.
Proof.
  induction 1 as [| a0 b0 l l' H F IH]; simpl; [intros []|].
  intros [<- | Hb]; [exists a0; auto|].
  destruct (IH Hb) as [a [Ha Hp]]. exists a. auto.
Qed.

Lemma map_or_throw_Some {A B} (f : A -> option B) (l : list A) (l' : list B) :
  map_or_throw f l = Some l' -> Forall2 (fun a b => f a = Some b) l l'.
Proof.
  revert l'. induction l as [| a l IH]; simpl; intros l'.
  - intros [= <-]. constructor.
  - destruct (f a) as [b |] eqn:E; [|discriminate].
    destruct (map_or_throw f l) as [l0 |]; [|discriminate].
    simpl. intros [= <-]. constructor; [exact E | now apply IH].
Qed.

Lemma slice0_In {A} (l : list A) (n : Z) (x : A) :
  In x (JSArray.slice0 l n) -> In x l.
Proof. apply In_firstn. Qed.

Lemma slice0_length {A} (l : list A) (n : Z) :
  0 <= n -> (List.length (JSArray.slice0 l n) <= Z.to_nat n)%nat.
Proof.
  intros H. rewrite slice0_firstn by assumption. apply firstn_le_length.
Qed.

(** The entries of the ranking step, whatever [localeCompare] does: each is
    built from a candidate and from a row of the books table. *)
Lemma enrichAndRank_members (localeCompare : string -> string -> Z)
    (cands : JSMap.t Candidate) (lim : Z) (db : Store.Database)
    (res : list RecommendationResult) :
  run (_enrichAndRank localeCompare cands lim) db = Some res ->
  (forall r, In r res ->
     enriched_from cands r
     /\ exists b, In b (Store.books db)
                  /\ book_id r = Book.book_id b /\ title r = Book.title b
                  /\ author r = Book.author b
                  /\ dewey_decimal r = Book.dewey_decimal b)
  /\ (0 <= lim -> (List.length res <= Z.to_nat lim)%nat).
Proof.
  unfold _enrichAndRank, run.
  destruct (JSMap.size cands =? 0) eqn:E.
  { simpl. intros [= <-]. split; [intros r [] | simpl; lia]. }
  unfold bind, execute. unfold select_books_in.
  destruct (JSMap.keys cands) as [| k ks] eqn:Ek.
  { destruct cands; [discriminate E | discriminate Ek]. }
  rewrite <- Ek. clear Ek k ks.
  destruct (map_or_throw _ _) as [results |] eqn:Hres; [|discriminate].
  simpl. intros [= <-]. apply map_or_throw_Some in Hres. split.
  - intros r Hr. apply slice0_In in Hr.
    apply (Permutation_in _ (sort_Permutation _ _)) in Hr.
    destruct (Forall2_In_r _ _ _ _ Hres Hr) as [book [Hb Hen]].
    apply filter_In in Hb. destruct Hb as [Hb _].
    destruct (JSMap.get cands (Book.book_id book)) as [c |] eqn:G;
      [|discriminate].
    injection Hen as <-. split.
    + exists c. simpl. auto.
    + exists book. simpl. auto.
  - apply slice0_length.
Qed.

Lemma enrichAndRank_sent (localeCompare : string -> string -> Z)
    (cands : JSMap.t Candidate) (lim : Z) (db : Store.Database) :
  (List.length (sent (_enrichAndRank localeCompare cands lim) db) <= 1)%nat
  /\ exists res, run (_enrichAndRank localeCompare cands lim) db = Some res.
Proof.
  unfold sent, run, _enrichAndRank.
  destruct (JSMap.size cands =? 0) eqn:E; [simpl; split; [lia | eauto]|].
  unfold bind, execute, select_books_in.
  destruct (JSMap.keys cands) as [| k ks] eqn:Ek.
  { destruct cands; [discriminate E | discriminate Ek]. }
  rewrite <- Ek.
  destruct (map_or_throw_Forall2
              (fun book : Book.row =>
                 match JSMap.get cands (Book.book_id book) with
                 | Some c =>
                     Some (mkResult (Book.book_id book) (Book.title book)
                                    (Book.author book) (Book.dewey_decimal book)
                                    (parseFloat_toFixed (weightedScore c) 4)
                                    (recommendedBy c) None)
                 | None => None
                 end)
              (filter (fun b => SQL.in_list (Book.book_id b) (JSMap.keys cands))
                      (Store.books db))) as [results [Hres _]].
  { intros book Hb. apply filter_In in Hb. destruct Hb as [_ Hb].
    apply in_list_In in Hb.
    destruct (JSMap.get cands (Book.book_id book)) eqn:G; [discriminate|].
    apply get_None_keys in G. contradiction. }
  rewrite Hres. simpl. split; [lia | eauto].
Qed.

(** ** The orchestrator, path by path *)

(** When the grouping of the peer rows throws, so does the orchestrator,
    after the two statements on loans. *)
Lemma recommend_peer_map_throws (localeCompare : string -> string -> Z)
    (userId : string) (opts : Opts) (db : Store.Database) (target : JSSet.t) :
  run (_getBorrowedBooks userId) db = Some target -> target <> [] ->
  run (_getAllUserBooks userId) db = None ->
  getRecommendations localeCompare userId opts db
  = ([SelectBorrowedBooks userId; SelectAllUserBooks userId], None).
Proof.
  intros Ht Hne Ha. apply run_getBorrowedBooks in Ht.
  destruct (getAllUserBooks_eq userId db) as [result Ea].
  unfold run in Ha. rewrite Ea in Ha. simpl in Ha. subst result.
  unfold getRecommendations. rewrite (bind_run _ _ _ _ _ Ht).
  assert (Hs : (JSSet.size target =? 0) = false).
  { destruct (JSSet.size target =? 0) eqn:E; [|reflexivity].
    apply size_zero in E. contradiction. }
  rewrite Hs. unfold bind. rewrite Ea. reflexivity.
Qed.

(** Every run of [getRecommendations] takes one of five paths; [target] is
    the read-set and [all] the peer map. *)
Lemma recommend_paths (localeCompare : string -> string -> Z)
    (userId : string) (opts : Opts) (db : Store.Database) :
  let lim := match limit opts with Some l => l | None => MAX_RESULTS end in
  let threshold :=
    match minScore opts with Some s => s | None => MIN_SIMILARITY end in
  exists target,
    _getBorrowedBooks userId db = ([SelectBorrowedBooks userId], Some target)
    /\ ((target = []
         /\ getRecommendations localeCompare userId opts db
            = ([SelectBorrowedBooks userId; SelectColdStart lim],
               snd (_coldStartFallback userId lim db)))
        \/ (target <> []
            /\ run (_getAllUserBooks userId) db = None
            /\ getRecommendations localeCompare userId opts db
               = ([SelectBorrowedBooks userId; SelectAllUserBooks userId], None))
        \/ exists all,
             run (_getAllUserBooks userId) db = Some all
             /\ target <> []
             /\ ((all = []
                  /\ getRecommendations localeCompare userId opts db
                     = ([SelectBorrowedBooks userId; SelectAllUserBooks userId],
                        Some []))
                 \/ (all <> []
                     /\ _scorePeers target all threshold = []
                     /\ getRecommendations localeCompare userId opts db
                        = ([SelectBorrowedBooks userId; SelectAllUserBooks userId;
                            SelectDeweyFallback target lim],
                           snd (_deweyFallback userId target lim db)))
                 \/ (all <> []
                     /\ _scorePeers target all threshold <> []
                     /\ getRecommendations localeCompare userId opts db
                        = (SelectBorrowedBooks userId :: SelectAllUserBooks userId
                           :: sent (_enrichAndRank localeCompare
                                      (_aggregateCandidates
                                         (JSArray.slice0
                                            (_scorePeers target all threshold)
                                            MAX_PEERS)
                                         target) lim) db,
                           run (_enrichAndRank localeCompare
                                  (_aggregateCandidates
                                     (JSArray.slice0
                                        (_scorePeers target all threshold)
                                        MAX_PEERS)
                                     target) lim) db)))).
Proof.
  intros lim threshold. subst lim threshold.
  destruct (getBorrowedBooks_eq userId db) as [target [Et _]].
  exists target. split; [exact Et|].
  assert (Rt : run (_getBorrowedBooks userId) db = Some target)
    by (unfold run; now rewrite Et).
  destruct target as [| t0 target'].
  { left. split; [reflexivity|].
    rewrite (recommend_cold_start _ _ _ _ Rt), coldStartFallback_eq.
    reflexivity. }
  right.
  destruct (run (_getAllUserBooks userId) db) as [all |] eqn:Ra.
  2:{ left. split; [discriminate|]. split; [reflexivity|].
      now apply (recommend_peer_map_throws localeCompare userId opts db
                   (t0 :: target')). }
  right. exists all. split; [reflexivity|]. split; [discriminate|].
  rewrite (recommend_with_history localeCompare userId opts db _ _ Rt
             ltac:(discriminate) Ra).
  destruct all as [| e0 all'].
  { left. split; reflexivity. }
  right. simpl.
  destruct (_scorePeers (t0 :: target') (e0 :: all') _) as [| p ps] eqn:Ep.
  - left. split; [discriminate|]. split; [reflexivity|].
    simpl. rewrite deweyFallback_eq. reflexivity.
  - right. split; [discriminate|].
    split; [discriminate|]. simpl. reflexivity.
Qed.

Lemma NoDup_firstn {A} (n : nat) (l : list A) : NoDup l -> NoDup (firstn n l).
Proof.
  revert n. induction l as [| x l IH]; intros [| n] H; simpl; try constructor.
  - inversion H as [| ? ? Hn Hd]; subst. intros Hin. apply Hn.
    now apply (In_firstn n l).
  - inversion H; subst. now apply IH.
Qed.

Lemma NoDup_map_filter {A B} (f : A -> B) (g : A -> bool) (l : list A) :
  NoDup (map f l) -> NoDup (map f (filter g l)).
Proof.
  induction l as [| x l IH]; simpl; intros H; [constructor|].
  inversion H as [| ? ? Hn Hd]; subst.
  destruct (g x); simpl; [|now apply IH].
  constructor; [|now apply IH].
  intros Hin. apply Hn. apply in_map_iff in Hin.
  destruct Hin as [y [E Hy]]. apply filter_In in Hy.
  apply in_map_iff. exists y. tauto.
Qed.

(** The peers handed to the aggregator: distinct readers of the peer map,
    each with its own set. *)
Lemma top_peers_facts (T : JSSet.t) (all : JSMap.t JSSet.t) (minScore : Q) (n : Z) :
  NoDup (JSMap.keys all) ->
  NoDup (map peerId (JSArray.slice0 (_scorePeers T all minScore) n))
  /\ forall p, In p (JSArray.slice0 (_scorePeers T all minScore) n) ->
       In (peerId p, books p) all /\ (minScore <= score p)%Q.
Proof.
  intros Hk. split.
  - unfold JSArray.slice0. rewrite <- firstn_map. apply NoDup_firstn.
    eapply Permutation_NoDup.
    + symmetry. apply Permutation_map. apply scorePeers_Permutation.
    + rewrite map_map. simpl. now apply NoDup_map_filter.
  - intros p Hp. apply slice0_In, scorePeers_In in Hp.
    destruct Hp as [[u s] [He [Hs ->]]]. simpl. now split.
Qed.

(** An entry built on the primary path: its book is outside the read-set,
    and its contributors are distinct peers whose sets hold the book. *)
Lemma primary_entry_facts (T : JSSet.t) (all : JSMap.t JSSet.t) (minScore : Q)
    (r : RecommendationResult) :
  NoDup (JSMap.keys all) ->
  (forall u s, In (u, s) all -> NoDup s) ->
  enriched_from
    (_aggregateCandidates
       (JSArray.slice0 (_scorePeers T all minScore) MAX_PEERS) T) r ->
  ~ In (book_id r) T
  /\ fallback r = None
  /\ recommended_by r <> []
  /\ NoDup (recommended_by r)
  /\ forall u, In u (recommended_by r) ->
       exists s, In (u, s) all /\ In (book_id r) s
                 /\ (minScore <= _jaccard T s)%Q.
Proof.
  intros Hk Hsets [c [G [_ [Hrb Hfb]]]].
  set (peers := JSArray.slice0 (_scorePeers T all minScore) MAX_PEERS) in *.
  destruct (top_peers_facts T all minScore MAX_PEERS Hk) as [Hids Hpeers].
  fold peers in Hids, Hpeers.
  assert (Hwf : Forall (fun p => NoDup (books p)) peers).
  { apply Forall_forall. intros p Hp. destruct (Hpeers p Hp) as [Hin _].
    now apply (Hsets _ _ Hin). }
  rewrite (aggregateCandidates_get peers T (book_id r) Hwf) in G.
  destruct (JSSet.has T (book_id r)) eqn:HT; [discriminate|].
  apply has_false in HT.
  destruct (contributors (book_id r) peers) as [| p0 cs] eqn:Ec; [discriminate|].
  injection G as <-. simpl in Hrb.
  split; [exact HT|]. split; [exact Hfb|]. rewrite Hrb.
  split; [discriminate|]. split.
  - change (peerId p0 :: map peerId cs) with (map peerId (p0 :: cs)).
    rewrite <- Ec. unfold contributors. now apply NoDup_map_filter.
  - intros u Hu.
    change (peerId p0 :: map peerId cs) with (map peerId (p0 :: cs)) in Hu.
    rewrite <- Ec in Hu. apply in_map_iff in Hu. destruct Hu as [p [<- Hp]].
    unfold contributors in Hp. apply filter_In in Hp. destruct Hp as [Hp Hb].
    apply has_In in Hb. exists (books p).
    destruct (Hpeers p Hp) as [Hin Hs]. split; [exact Hin|].
    split; [exact Hb|].
    apply slice0_In, scorePeers_In in Hp. destruct Hp as [e [_ [Hm ->]]].
    exact Hm.
Qed.

(** ** The orchestrator, end to end *)

(** The read-set is empty exactly when the reader has no loan. *)
Lemma read_set_empty_iff (userId : string) (db : Store.Database)
    (target : JSSet.t) :
  _getBorrowedBooks userId db = ([SelectBorrowedBooks userId], Some target) ->
  (target = [] <-> loans_of_reader db userId = []).
Proof.
  intros Et. destruct (read_set_facts userId db) as [t' [Et' [_ Hin]]].
  rewrite Et in Et'. injection Et' as <-. unfold loans_of_reader. split.
  - intros ->. apply filter_nil_iff. intros l Hl. apply String.eqb_neq.
    intros E. apply (proj2 (Hin (Loan.book_id l))). now exists l.
  - intros Hnone. destruct target as [| b target']; [reflexivity|].
    destruct (proj1 (Hin b) (or_introl eq_refl)) as [l [Hl [Hu _]]].
    assert (H : In l (filter (fun l => String.eqb (Loan.user_id l) userId)
                             (Store.loans db))).
    { apply filter_In. split; [exact Hl | now apply String.eqb_eq]. }
    rewrite Hnone in H. contradiction.
Qed.

(** What a run of [getRecommendations] with a limit that is not negative
    gives.  It throws in one case only: the reader has a loan and the
    grouping of the peer rows throws.  Otherwise it returns a list within
    the limit whose entries are all of one kind. *)
Lemma recommend_outcome (localeCompare : string -> string -> Z)
    (userId : string) (opts : Opts) (db : Store.Database) :
  0 <= match limit opts with Some l => l | None => MAX_RESULTS end ->
  exists log,
    sent (getRecommendations localeCompare userId opts) db
    = SelectBorrowedBooks userId :: log
    /\ match run (getRecommendations localeCompare userId opts) db with
       | None =>
           loans_of_reader db userId <> []
           /\ exists l, In l (Store.loans db) /\ Loan.user_id l <> userId
                        /\ JSObject.inherited (Loan.user_id l) = true
       | Some res =>
           (loans_of_reader db userId = []
            \/ forall l, In l (Store.loans db) -> Loan.user_id l <> userId ->
                 JSObject.inherited (Loan.user_id l) = false)
           /\ (List.length res
               <= Z.to_nat
                    match limit opts with Some l => l | None => MAX_RESULTS end)%nat
           /\ ((loans_of_reader db userId = []
                /\ forall r, In r res ->
                     fallback r = Some "cold_start_popularity"%string
                     /\ recommended_by r = [])
               \/ (loans_of_reader db userId <> []
                   /\ forall r, In r res ->
                        fallback r = Some "dewey_category_popularity"%string
                        /\ recommended_by r = [])
               \/ (loans_of_reader db userId <> []
                   /\ forall r, In r res ->
                        fallback r = None /\ recommended_by r <> []))
       end.
Proof.
  intros Hlim.
  destruct (recommend_paths localeCompare userId opts db)
    as [target [Et Hpath]].
  pose proof (read_set_empty_iff userId db target Et) as Hempty.
  pose proof (peer_map_facts userId db) as [_ Hmap].
  unfold sent, run.
  destruct Hpath as [[Ht E] | [[Ht [Hfail E]] | [all [Ra [Ht Hpath]]]]].
  - rewrite E. cbn [fst snd]. eexists. split; [reflexivity|].
    rewrite coldStartFallback_eq. cbn [snd]. unfold select_cold_start.
    rewrite limit_Some by assumption. cbn [option_map].
    split; [left; now apply Hempty|]. split.
    + rewrite length_map. apply firstn_le_length.
    + left. split; [now apply Hempty|]. intros r Hr. apply in_map_iff in Hr.
      destruct Hr as [row [<- _]]. split; reflexivity.
  - rewrite E. cbn [fst snd]. eexists. split; [reflexivity|].
    rewrite Hfail in Hmap. split; [now rewrite <- Hempty | exact Hmap].
  - rewrite Ra in Hmap. destruct Hmap as [Hordinary _].
    destruct (peer_map_entries userId db all Ra) as [Hk [Hall _]].
    assert (Hloans : loans_of_reader db userId <> []) by now rewrite <- Hempty.
    destruct Hpath as [[_ E] | [[_ [_ E]] | [_ [_ E]]]]; rewrite E;
      cbn [fst snd]; eexists; (split; [reflexivity|]).
    + split; [now right|]. split; [simpl; lia|]. right. left.
      split; [exact Hloans|]. intros r [].
    + rewrite deweyFallback_eq. cbn [snd]. unfold select_dewey_fallback.
      destruct target as [| t0 target']; [contradiction|].
      rewrite limit_Some by assumption. cbn [option_map].
      split; [now right|]. split.
      * rewrite length_map. apply firstn_le_length.
      * right. left. split; [exact Hloans|]. intros r Hr.
        apply in_map_iff in Hr. destruct Hr as [row [<- _]]. split; reflexivity.
    + match goal with
      | |- context [run (_enrichAndRank ?lc ?c ?l) db] =>
          destruct (enrichAndRank_sent lc c l db) as [_ [res Hres]];
          pose proof (enrichAndRank_members lc c l db res Hres) as [Hmem Hlen]
      end.
      rewrite Hres. split; [now right|].
      split; [now apply Hlen|]. right. right. split; [exact Hloans|].
      intros r Hr. destruct (Hmem r Hr) as [Hen _].
      destruct (primary_entry_facts target all _ r Hk
                  (fun u s H => proj1 (proj2 (Hall u s H))) Hen)
        as [_ [Hfb [Hrb _]]].
      now split.
Qed.

(** X6: with a limit that is not negative (the default included),
    recommend returns at most [limit] entries, and it throws in one case
    only: the reader has a loan, and so has another reader whose id names a
    property every object inherits (toString, valueOf, __proto__ and the
    like), on which the grouping of the peer rows throws.  For a reader
    without loans, and on a store without such an id, it always returns. *)
Theorem recommend_returns_within_limit (localeCompare : string -> string -> Z)
    (userId : string) (opts : Opts) (db : Store.Database)
    (Hlim : 0 <= match limit opts with Some l => l | None => MAX_RESULTS end) :
  match run (getRecommendations localeCompare userId opts) db with
  | Some res =>
      (List.length res
       <= Z.to_nat match limit opts with Some l => l | None => MAX_RESULTS end)%nat
      /\ (loans_of_reader db userId = []
          \/ forall l, In l (Store.loans db) -> Loan.user_id l <> userId ->
               JSObject.inherited (Loan.user_id l) = false)
  | None =>
      loans_of_reader db userId <> []
      /\ exists l, In l (Store.loans db) /\ Loan.user_id l <> userId
                   /\ JSObject.inherited (Loan.user_id l) = true
  end.
Proof.
  destruct (recommend_outcome localeCompare userId opts db Hlim) as [log [_ H]].
  destruct (run (getRecommendations localeCompare userId opts) db) as [res |].
  - destruct H as [Hcause [Hlen _]]. now split.
  - exact H.
Qed.

(** On a store with a reader called toString, recommend throws for a reader
    with loans and the route answers 500; a reader without loans is served
    from the popularity statement. *)
Example recommend_inherited_reader_id :
  getRecommendations code_unit_compare "U001" no_opts inherited_db
  = ([SelectBorrowedBooks "U001"; SelectAllUserBooks "U001"], None)
  /\ snd (Server.recommend code_unit_compare "U001" inherited_db)
     = Server.mkResponse 500
         (Server.Failure "Internal server error. Please try again.")
  /\ option_map (map book_id)
       (run (getRecommendations code_unit_compare "U005" no_opts) inherited_db)
     = Some ["B1"; "B2"]%string.
Proof. repeat split; vm_compute; reflexivity. Qed.

Lemma recommend_returns_within_limit_witness :
  0 <= 5
  /\ exists res,
       run (getRecommendations code_unit_compare "U001" (mkOpts (Some 5) None))
           sample_db = Some res
       /\ (List.length res <= 5)%nat.
Proof.
  split; [lia|].
  pose proof (recommend_returns_within_limit code_unit_compare "U001"
                (mkOpts (Some 5) None) sample_db ltac:(simpl; lia)) as H.
  destruct (run (getRecommendations code_unit_compare "U001"
                   (mkOpts (Some 5) None)) sample_db) as [res |] eqn:E.
  - exists res. split; [reflexivity | exact (proj1 H)].
  - exfalso. revert E. vm_compute. discriminate.
Defined.

(** X7: a call of recommend sends the read-set statement first and at most
    two statements after it, whatever the store holds: the number of
    statements does not grow with the number of readers or books. *)
Theorem recommend_statement_count (localeCompare : string -> string -> Z)
    (userId : string) (opts : Opts) (db : Store.Database) :
  exists rest,
    sent (getRecommendations localeCompare userId opts) db
    = SelectBorrowedBooks userId :: rest
    /\ (List.length rest <= 2)%nat.
Proof.
  destruct (recommend_paths localeCompare userId opts db)
    as [target [_ Hpath]].
  destruct Hpath
    as [[_ E] | [[_ [_ E]]
                | [all [_ [_ [[_ E] | [[_ [_ E]] | [_ [_ E]]]]]]]]];
    unfold sent at 1; rewrite E; cbn [fst]; eexists;
    (split; [reflexivity|]); cbn [List.length]; try lia.
  pose proof (proj1 (enrichAndRank_sent localeCompare
                (_aggregateCandidates
                   (JSArray.slice0
                      (_scorePeers target all
                         match minScore opts with
                         | Some s => s
                         | None => MIN_SIMILARITY
                         end) MAX_PEERS) target)
                match limit opts with Some l => l | None => MAX_RESULTS end db)).
  lia.
Qed.

(** X8: recommend never returns a book the reader has borrowed, and every
    book it returns, on any path, has been borrowed by some other reader. *)
Theorem recommend_unread_and_borrowed (localeCompare : string -> string -> Z)
    (userId : string) (opts : Opts) (db : Store.Database)
    (res : list RecommendationResult)
    (Hres : run (getRecommendations localeCompare userId opts) db = Some res) :
  forall r, In r res ->
    (forall l, In l (Store.loans db) -> Loan.book_id l = book_id r ->
               Loan.user_id l <> userId)
    /\ exists l, In l (Store.loans db)
                 /\ Loan.book_id l = book_id r /\ Loan.user_id l <> userId.
Proof.
  destruct (recommend_paths localeCompare userId opts db)
    as [target [Et Hpath]].
  destruct (read_set_facts userId db) as [target' [Et' [_ Htarget]]].
  rewrite Et in Et'. injection Et' as <-.
  (* it is enough to find the book outside the read-set and in some loan *)
  assert (Hkey : forall r,
            ~ In (book_id r) target ->
            (exists l, In l (Store.loans db) /\ Loan.book_id l = book_id r) ->
            (forall l, In l (Store.loans db) -> Loan.book_id l = book_id r ->
                       Loan.user_id l <> userId)
            /\ exists l, In l (Store.loans db)
                         /\ Loan.book_id l = book_id r
                         /\ Loan.user_id l <> userId).
  { intros r Hout [l [Hl Hb]].
    assert (Hno : forall l', In l' (Store.loans db) ->
              Loan.book_id l' = book_id r -> Loan.user_id l' <> userId).
    { intros l' Hl' Hb' Hu. apply Hout. apply Htarget. now exists l'. }
    split; [exact Hno|]. exists l. auto. }
  unfold run in Hres.
  destruct Hpath as [[Hempty E] | [[_ [_ E]] | [all [Ra [Hne Hpath]]]]];
    [| rewrite E in Hres; discriminate |].
  { rewrite E in Hres. simpl in Hres.
    rewrite coldStartFallback_eq in Hres. simpl in Hres.
    destruct (select_cold_start _ db) as [rows |] eqn:Hrows; [|discriminate].
    injection Hres as <-. intros r Hr. apply in_map_iff in Hr.
    destruct Hr as [row [<- Hrow]].
    destruct (select_cold_start_rows _ _ _ _ Hrows Hrow) as [_ Hloan].
    apply Hkey; [|exact Hloan]. rewrite Hempty. intros []. }
  destruct (peer_map_entries userId db all Ra) as [Hk [Hall _]].
  destruct Hpath as [[_ E] | [[_ [_ E]] | [_ [_ E]]]];
    rewrite E in Hres; simpl in Hres.
  - injection Hres as <-. intros r [].
  - rewrite deweyFallback_eq in Hres. simpl in Hres.
    destruct (select_dewey_fallback target _ db) as [rows |] eqn:Hrows;
      [|discriminate].
    injection Hres as <-. intros r Hr. apply in_map_iff in Hr.
    destruct Hr as [row [<- Hrow]].
    destruct (select_dewey_fallback_rows _ _ _ _ _ Hrows Hrow) as [_ [Hout _]].
    apply Hkey; [exact Hout|].
    exact (select_dewey_fallback_loan _ _ _ _ _ Hrows Hrow).
  - intros r Hr.
    destruct (proj1 (enrichAndRank_members _ _ _ _ _ Hres) r Hr) as [Hen _].
    destruct (primary_entry_facts target all _ r Hk
                (fun u s H => proj1 (proj2 (Hall u s H))) Hen)
      as [Hout [_ [Hrb [_ Hcontrib]]]].
    apply Hkey; [exact Hout|].
    destruct (recommended_by r) as [| u us]; [congruence|].
    destruct (Hcontrib u (or_introl eq_refl)) as [s [Hin [Hb _]]].
    destruct (Hall u s Hin) as [_ [_ [_ Hs]]].
    apply Hs in Hb. destruct Hb as [l [Hl [_ Hb]]]. now exists l.
Qed.

Lemma recommend_unread_and_borrowed_witness :
  exists res,
    run (getRecommendations code_unit_compare "U001" no_opts) sample_db = Some res
    /\ forall r, In r res ->
         (forall l, In l (Store.loans sample_db) ->
                    Loan.book_id l = book_id r -> Loan.user_id l <> "U001"%string)
         /\ exists l, In l (Store.loans sample_db)
                      /\ Loan.book_id l = book_id r
                      /\ Loan.user_id l <> "U001"%string.
Proof.
  eexists. split; [vm_compute; reflexivity|].
  apply (recommend_unread_and_borrowed code_unit_compare "U001" no_opts sample_db).
  vm_compute. reflexivity.
Defined.

(** X9: every entry recommend returns, on any path, carries the identifier,
    title, author and Dewey code of one row of the books table. *)
Theorem recommend_catalogue_rows (localeCompare : string -> string -> Z)
    (userId : string) (opts : Opts) (db : Store.Database)
    (res : list RecommendationResult)
    (Hres : run (getRecommendations localeCompare userId opts) db = Some res) :
  forall r, In r res ->
    exists b, In b (Store.books db)
              /\ book_id r = Book.book_id b /\ title r = Book.title b
              /\ author r = Book.author b
              /\ dewey_decimal r = Book.dewey_decimal b.
Proof.
  destruct (recommend_paths localeCompare userId opts db)
    as [target [_ Hpath]].
  unfold run in Hres.
  destruct Hpath as [[_ E] | [[_ [_ E]] | [all [_ [_ Hpath]]]]];
    [| rewrite E in Hres; discriminate |].
  { rewrite E in Hres. simpl in Hres.
    rewrite coldStartFallback_eq in Hres. simpl in Hres.
    destruct (select_cold_start _ db) as [rows |] eqn:Hrows; [|discriminate].
    injection Hres as <-. intros r Hr. apply in_map_iff in Hr.
    destruct Hr as [row [<- Hrow]].
    destruct (select_cold_start_rows _ _ _ _ Hrows Hrow) as [Hb _].
    exists (popular_book row). simpl. auto. }
  destruct Hpath as [[_ E] | [[_ [_ E]] | [_ [_ E]]]];
    rewrite E in Hres; simpl in Hres.
  - injection Hres as <-. intros r [].
  - rewrite deweyFallback_eq in Hres. simpl in Hres.
    destruct (select_dewey_fallback target _ db) as [rows |] eqn:Hrows;
      [|discriminate].
    injection Hres as <-. intros r Hr. apply in_map_iff in Hr.
    destruct Hr as [row [<- Hrow]].
    destruct (select_dewey_fallback_rows _ _ _ _ _ Hrows Hrow) as [Hb _].
    exists (popular_book row). simpl. auto.
  - intros r Hr.
    exact (proj2 (proj1 (enrichAndRank_members _ _ _ _ _ Hres) r Hr)).
Qed.

Lemma recommend_catalogue_rows_witness :
  exists res,
    run (getRecommendations code_unit_compare "U003" no_opts) sample_db = Some res
    /\ forall r, In r res ->
         exists b, In b (Store.books sample_db)
                   /\ book_id r = Book.book_id b /\ title r = Book.title b
                   /\ author r = Book.author b
                   /\ dewey_decimal r = Book.dewey_decimal b.
Proof.
  eexists. split; [vm_compute; reflexivity|].
  apply (recommend_catalogue_rows code_unit_compare "U003" no_opts sample_db).
  vm_compute. reflexivity.
Defined.

(** X10: an entry recommend returns is either a fallback entry (one of the
    two tags, score 0, no contributor) or an untagged entry whose
    contributor list is not empty, names no reader twice, never names the
    reader asking, and names only readers who have borrowed the book. *)
Theorem recommend_contributors (localeCompare : string -> string -> Z)
    (userId : string) (opts : Opts) (db : Store.Database)
    (res : list RecommendationResult)
    (Hres : run (getRecommendations localeCompare userId opts) db = Some res) :
  forall r, In r res ->
    ((fallback r = Some "cold_start_popularity"%string
      \/ fallback r = Some "dewey_category_popularity"%string)
     /\ match_score r = 0%Q /\ recommended_by r = [])
    \/ (fallback r = None
        /\ recommended_by r <> []
        /\ NoDup (recommended_by r)
        /\ forall u, In u (recommended_by r) ->
             u <> userId
             /\ exists l, In l (Store.loans db)
                          /\ Loan.user_id l = u /\ Loan.book_id l = book_id r).
Proof.
  destruct (recommend_paths localeCompare userId opts db)
    as [target [_ Hpath]].
  unfold run in Hres.
  destruct Hpath as [[_ E] | [[_ [_ E]] | [all [Ra [_ Hpath]]]]];
    [| rewrite E in Hres; discriminate |].
  { rewrite E in Hres. simpl in Hres.
    rewrite coldStartFallback_eq in Hres. simpl in Hres.
    destruct (select_cold_start _ db) as [rows |]; [|discriminate].
    injection Hres as <-. intros r Hr. apply in_map_iff in Hr.
    destruct Hr as [row [<- _]]. left. simpl. auto. }
  destruct (peer_map_entries userId db all Ra) as [Hk [Hall _]].
  destruct Hpath as [[_ E] | [[_ [_ E]] | [_ [_ E]]]];
    rewrite E in Hres; simpl in Hres.
  - injection Hres as <-. intros r [].
  - rewrite deweyFallback_eq in Hres. simpl in Hres.
    destruct (select_dewey_fallback target _ db) as [rows |]; [|discriminate].
    injection Hres as <-. intros r Hr. apply in_map_iff in Hr.
    destruct Hr as [row [<- _]]. left. simpl. auto.
  - intros r Hr. right.
    destruct (proj1 (enrichAndRank_members _ _ _ _ _ Hres) r Hr) as [Hen _].
    destruct (primary_entry_facts target all _ r Hk
                (fun u s H => proj1 (proj2 (Hall u s H))) Hen)
      as [_ [Hfb [Hrb [Hnd Hcontrib]]]].
    split; [exact Hfb|]. split; [exact Hrb|]. split; [exact Hnd|].
    intros u Hu. destruct (Hcontrib u Hu) as [s [Hin [Hb _]]].
    destruct (Hall u s Hin) as [Hne [_ [_ Hs]]]. split; [exact Hne|].
    apply Hs in Hb. destruct Hb as [l [Hl [Hlu Hlb]]]. now exists l.
Qed.

Lemma recommend_contributors_witness :
  exists res,
    run (getRecommendations code_unit_compare "U001" no_opts) sample_db = Some res
    /\ forall r, In r res ->
         ((fallback r = Some "cold_start_popularity"%string
           \/ fallback r = Some "dewey_category_popularity"%string)
          /\ match_score r = 0%Q /\ recommended_by r = [])
         \/ (fallback r = None
             /\ recommended_by r <> []
             /\ NoDup (recommended_by r)
             /\ forall u, In u (recommended_by r) ->
                  u <> "U001"%string
                  /\ exists l, In l (Store.loans sample_db)
                               /\ Loan.user_id l = u
                               /\ Loan.book_id l = book_id r).
Proof.
  eexists. split; [vm_compute; reflexivity|].
  apply (recommend_contributors code_unit_compare "U001" no_opts sample_db).
  vm_compute. reflexivity.
Defined.

(** ** Category classifier: what the label depends on *)

Lemma lt_floor (q : Q) (bound : Z) :
  JSNumber.lt (JSNumber.Finite q) bound = (Qfloor q <? bound).
Proof.
  simpl. destruct (Qle_bool (inject_Z bound) q) eqn:E; simpl; symmetry.
  - apply Qle_bool_iff in E. apply Z.ltb_ge.
    rewrite <- (Qfloor_Z bound). now apply Qfloor_resp_le.
  - apply Z.ltb_lt. apply Z.lt_nge. intros H.
    assert (G : (inject_Z bound <= q)%Q).
    { apply Qle_trans with (inject_Z (Qfloor q)); [|apply Qfloor_le].
      now rewrite <- Zle_Qle. }
    apply Qle_bool_iff in G. congruence.
Qed.

(** X11: the label of a code depends on the integer part of its number
    only: two codes whose numbers have the same floor get the same label. *)
Theorem deweyCategory_integer_part (a b : string) (qa qb : Q)
    (Ha : JSNumber.parseFloat a = JSNumber.Finite qa)
    (Hb : JSNumber.parseFloat b = JSNumber.Finite qb)
    (Hfloor : Qfloor qa = Qfloor qb) :
  _deweyCategory a = _deweyCategory b.
Proof.
  unfold _deweyCategory, dewey_prefix. rewrite Ha, Hb, !lt_floor.
  simpl JSNumber.Math_floor. now rewrite Hfloor.
Qed.

Lemma deweyCategory_integer_part_witness :
  _deweyCategory "658.1" = _deweyCategory "658.402".
Proof.
  eapply (deweyCategory_integer_part "658.1" "658.402");
    vm_compute; reflexivity.
Defined.

(** X12: a code whose number is negative has no override and gets the
    label of the first range, "General & Computer Science". *)
Theorem deweyCategory_negative (s : string) (q : Q)
    (Hs : JSNumber.parseFloat s = JSNumber.Finite q) (Hneg : (q < 0)%Q) :
  _deweyCategory s = "General & Computer Science"%string.
Proof.
  assert (Hz : Qfloor q < 0).
  { apply Z.lt_nge. intros H.
    assert (G : (0 <= q)%Q).
    { apply Qle_trans with (inject_Z (Qfloor q)); [|apply Qfloor_le].
      change 0%Q with (inject_Z 0). now rewrite <- Zle_Qle. }
    now apply (Qlt_not_le _ _ Hneg). }
  unfold _deweyCategory. rewrite Hs, lt_floor.
  assert (Hp : JSMap.get specific (dewey_prefix (JSNumber.Finite q)) = None).
  { unfold dewey_prefix. simpl JSNumber.Math_floor. unfold JSNumber.String_.
    destruct (Qfloor q =? 0) eqn:E0; [apply Z.eqb_eq in E0; lia|].
    destruct (Qfloor q <? 0) eqn:E1; [|apply Z.ltb_ge in E1; lia].
    destruct (JSNumber.positive_toString (- Qfloor q)) as [| c1 [| c2 rest]];
      reflexivity. }
  rewrite Hp.
  destruct (Qfloor q <? 100) eqn:E; [reflexivity|]. apply Z.ltb_ge in E. lia.
Qed.

Lemma deweyCategory_negative_witness :
  _deweyCategory "-5.1" = "General & Computer Science"%string.
Proof.
  eapply (deweyCategory_negative "-5.1"); vm_compute; reflexivity.
Defined.

(** ** Rounding of the match score *)

Lemma pow10_pos (f : nat) : 0 < 10 ^ Z.of_nat f.
Proof. apply Z.pow_pos_nonneg; lia. Qed.

Lemma toFixed_digits_nonneg (x : Q) (f : nat) : 0 <= toFixed_digits x f.
Proof.
  unfold toFixed_digits. rewrite <- (Qfloor_Z 0). apply Qfloor_resp_le.
  assert (H1 : (0 <= Qabs x)%Q) by apply Qabs_nonneg.
  assert (H2 : (0 <= inject_Z (10 ^ Z.of_nat f))%Q).
  { change 0%Q with (inject_Z 0). rewrite <- Zle_Qle.
    pose proof (pow10_pos f). lia. }
  pose proof (Qmult_le_0_compat _ _ H1 H2) as H3.
  change (inject_Z 0) with (0 + 0)%Q. now apply Qplus_le_compat.
Qed.

Lemma toFixed_digits_mono (x y : Q) (f : nat) :
  (Qabs x <= Qabs y)%Q -> toFixed_digits x f <= toFixed_digits y f.
Proof.
  intros H. unfold toFixed_digits. apply Qfloor_resp_le.
  apply Qplus_le_compat; [|apply Qle_refl].
  apply Qmult_le_compat_r; [exact H|].
  change 0%Q with (inject_Z 0). rewrite <- Zle_Qle.
  pose proof (pow10_pos f). lia.
Qed.

Lemma negative_test (x : Q) : negb (Qle_bool 0 x) = true <-> (x < 0)%Q.
Proof.
  rewrite negb_true_iff. split.
  - intros E. apply Qnot_le_lt. intros H. apply Qle_bool_iff in H. congruence.
  - intros H. destruct (Qle_bool 0 x) eqn:E; [|reflexivity].
    apply Qle_bool_iff in E. exfalso. now apply (Qlt_not_le _ _ H).
Qed.

Lemma Qmake_le (a b : Z) (p : positive) : a <= b -> (a # p <= b # p)%Q.
Proof. intros H. unfold Qle. simpl. nia. Qed.

(** X13: rounding to [f] decimals keeps the order of two numbers: it can
    make them equal, it never swaps them.  So an entry that ranks above
    another by match score has the larger weighted score. *)
Theorem parseFloat_toFixed_monotone (x y : Q) (f : nat) (Hxy : (x <= y)%Q) :
  (parseFloat_toFixed x f <= parseFloat_toFixed y f)%Q.
Proof.
  unfold parseFloat_toFixed.
  pose proof (toFixed_digits_nonneg x f) as Nx.
  pose proof (toFixed_digits_nonneg y f) as Ny.
  destruct (negb (Qle_bool 0 x)) eqn:Ex; destruct (negb (Qle_bool 0 y)) eqn:Ey.
  - apply negative_test in Ex, Ey. apply Qopp_le_compat, Qmake_le.
    apply toFixed_digits_mono.
    rewrite !Qabs_neg by now apply Qlt_le_weak.
    now apply Qopp_le_compat.
  - apply Qle_trans with 0%Q.
    + unfold Qle, Qopp. simpl. lia.
    + unfold Qle. simpl. lia.
  - exfalso. apply negative_test in Ey.
    destruct (Qle_bool 0 x) eqn:E; [|discriminate]. apply Qle_bool_iff in E.
    apply (Qlt_not_le _ _ Ey). now apply Qle_trans with x.
  - apply Qmake_le, toFixed_digits_mono.
    destruct (Qle_bool 0 x) eqn:E1; [|discriminate].
    destruct (Qle_bool 0 y) eqn:E2; [|discriminate].
    apply Qle_bool_iff in E1, E2. now rewrite !Qabs_pos.
Qed.

Lemma parseFloat_toFixed_monotone_witness :
  ((1 # 3) <= (1 # 2))%Q
  /\ (parseFloat_toFixed (1 # 3) 4 <= parseFloat_toFixed (1 # 2) 4)%Q.
Proof.
  assert (H : ((1 # 3) <= (1 # 2))%Q) by (vm_compute; discriminate).
  split; [exact H|]. exact (parseFloat_toFixed_monotone _ _ 4 H).
Defined.

(** ** Printing and reading back *)

Lemma chars_append (s1 s2 : string) :
  list_ascii_of_string (s1 ++ s2)
  = list_ascii_of_string s1 ++ list_ascii_of_string s2.
Proof. induction s1 as [| c s1 IH]; simpl; [reflexivity | now rewrite IH]. Qed.

Lemma digit_char (c : ascii) :
  JSNumber.is_digit c = true ->
  JSNumber.is_white_space c = false
  /\ Ascii.eqb c "-" = false /\ Ascii.eqb c "+" = false
  /\ Ascii.eqb c "." = false
  /\ (forall s, String.prefix "Infinity" (String c s) = false).
Proof.
  destruct c as [[] [] [] [] [] [] [] []]; vm_compute; intros H;
    try discriminate; repeat split.
Qed.

Lemma uint_digits (d : Decimal.uint) :
  Forall (fun c => JSNumber.is_digit c = true)
         (list_ascii_of_string (NilEmpty.string_of_uint d)).
Proof. induction d; simpl; constructor; auto. Qed.

Lemma uint_value_acc (d : Decimal.uint) (acc : positive) :
  fold_left (fun a c => 10 * a + JSNumber.digit_value c)
            (list_ascii_of_string (NilEmpty.string_of_uint d)) (Zpos acc)
  = Zpos (Pos.of_uint_acc d acc).
Proof.
  revert acc.
  induction d; intros acc;
    cbn [NilEmpty.string_of_uint list_ascii_of_string fold_left Pos.of_uint_acc];
    [reflexivity | ..];
    rewrite <- IHd; f_equal;
    match goal with
    | |- context [JSNumber.digit_value ?c] =>
        let v := eval vm_compute in (JSNumber.digit_value c) in
        change (JSNumber.digit_value c) with v
    end; lia.
Qed.

Lemma uint_value (d : Decimal.uint) :
  JSNumber.digits_value (list_ascii_of_string (NilEmpty.string_of_uint d))
  = Z.of_N (Pos.of_uint d).
Proof.
  unfold JSNumber.digits_value.
  induction d;
    cbn [NilEmpty.string_of_uint list_ascii_of_string fold_left Pos.of_uint];
    [reflexivity | exact IHd | ..];
    cbn [Z.of_N]; rewrite <- uint_value_acc; f_equal.
Qed.

(** The decimal digits of a natural number, read back, give the number. *)
Lemma decimal_facts (z : Z) :
  0 <= z ->
  Forall (fun c => JSNumber.is_digit c = true)
         (list_ascii_of_string (JSNumber.decimal z))
  /\ JSNumber.digits_value (list_ascii_of_string (JSNumber.decimal z)) = z
  /\ JSNumber.decimal z <> EmptyString.
Proof.
  intros Hz. unfold JSNumber.decimal, NilZero.string_of_uint.
  pose proof (DecimalN.Unsigned.of_to (Z.to_N z)) as Hof.
  unfold N.of_uint in Hof.
  destruct (N.to_uint (Z.to_N z)) as [| d | d | d | d | d | d | d | d | d | d] eqn:E;
    try (split; [apply (uint_digits _)|];
         split; [rewrite uint_value, Hof; lia | discriminate]).
  simpl in Hof. split; [repeat constructor|]. split; [|discriminate].
  vm_compute. lia.
Qed.

Lemma append_assoc (s1 s2 s3 : string) :
  ((s1 ++ s2) ++ s3)%string = (s1 ++ (s2 ++ s3))%string.
Proof. induction s1 as [| c s1 IH]; simpl; [reflexivity | now rewrite IH]. Qed.

Lemma length_append (s1 s2 : string) :
  String.length (s1 ++ s2) = (String.length s1 + String.length s2)%nat.
Proof. induction s1 as [| c s1 IH]; simpl; [reflexivity | now rewrite IH]. Qed.

Lemma length_chars (s : string) :
  List.length (list_ascii_of_string s) = String.length s.
Proof. induction s as [| c s IH]; simpl; [reflexivity | now rewrite IH]. Qed.

Lemma length_repeat_char (c : ascii) (n : nat) :
  String.length (JSString.repeat_char c n) = n.
Proof. induction n as [| n IH]; simpl; [reflexivity | now rewrite IH]. Qed.

Lemma substring_all (s : string) : String.substring 0 (String.length s) s = s.
Proof. induction s as [| c s IH]; simpl; [reflexivity | now rewrite IH]. Qed.

Lemma substring_split (s : string) (a : nat) :
  (a <= String.length s)%nat ->
  (String.substring 0 a s ++ String.substring a (String.length s - a) s)%string
  = s.
Proof.
  revert a. induction s as [| c s IH]; intros [| a] Ha; simpl in *.
  - reflexivity.
  - lia.
  - now rewrite substring_all.
  - rewrite IH by lia. reflexivity.
Qed.

Lemma length_substring_head (s : string) (a : nat) :
  (a <= String.length s)%nat -> String.length (String.substring 0 a s) = a.
Proof.
  revert a. induction s as [| c s IH]; intros [| a] Ha; simpl in *;
    try reflexivity; try lia.
  rewrite IH by lia. reflexivity.
Qed.

Lemma span_digits_app (s r : string) :
  Forall (fun c => JSNumber.is_digit c = true) (list_ascii_of_string s) ->
  starts_with_digit r = false ->
  JSNumber.span_digits (s ++ r) = (list_ascii_of_string s, r).
Proof.
  intros Hs Hr. induction s as [| c s IH]; simpl.
  - now apply span_digits_no_digit.
  - inversion Hs as [| ? ? Hc Hs']; subst. rewrite Hc, IH by assumption.
    reflexivity.
Qed.

Lemma digit_ascii (c : ascii) :
  JSNumber.is_digit c = true -> (nat_of_ascii c < 128)%nat.
Proof.
  unfold JSNumber.is_digit. intros H. apply andb_true_iff in H.
  destruct H as [_ H]. apply Nat.leb_le in H. lia.
Qed.

(** A byte below 128 that is not white space starts no white space
    character. *)
Lemma trimStart_no_space (c : ascii) (s : string) :
  JSNumber.is_white_space c = false -> (nat_of_ascii c < 128)%nat ->
  JSNumber.trimStart (String c s) = String c s.
Proof.
  intros H Hc. cbn [JSNumber.trimStart]. rewrite H.
  assert (E : forall n, (128 <= n)%nat -> (nat_of_ascii c =? n)%nat = false)
    by (intros n Hn; apply Nat.eqb_neq; lia).
  destruct s as [| c2 s2]; [reflexivity|].
  unfold JSNumber.is_white_space2. rewrite (E 194%nat) by lia. cbn [andb].
  destruct s2 as [| c3 s3]; [reflexivity|].
  unfold JSNumber.is_white_space3.
  rewrite (E 225%nat), (E 226%nat), (E 227%nat), (E 239%nat) by lia.
  reflexivity.
Qed.

Lemma strip_sign_none (c : ascii) (s : string) :
  Ascii.eqb c "-" = false -> Ascii.eqb c "+" = false ->
  JSNumber.strip_sign (String c s) = (false, String c s).
Proof. intros H1 H2. unfold JSNumber.strip_sign. now rewrite H1, H2. Qed.

(** What [parseFloat] reads from an unsigned literal [I.F] followed by text
    that continues neither the digits nor an exponent. *)
Lemma parseFloat_unsigned_literal (neg : bool) (I F rest : string) :
  Forall (fun c => JSNumber.is_digit c = true) (list_ascii_of_string I) ->
  Forall (fun c => JSNumber.is_digit c = true) (list_ascii_of_string F) ->
  I <> EmptyString -> F <> EmptyString ->
  starts_with_digit rest = false ->
  JSNumber.exponent_part rest = None ->
  (if String.prefix "Infinity" (I ++ String "." (F ++ rest))
   then JSNumber.Infinity neg
   else
     let '(ip, r1) := JSNumber.span_digits (I ++ String "." (F ++ rest)) in
     let '(fp, r2) := JSNumber.fraction_part r1 in
     match ip ++ fp with
     | [] => JSNumber.NaN
     | ds =>
         let e := match JSNumber.exponent_part r2 with
                  | Some e => e
                  | None => 0
                  end in
         let v := JSNumber.scale10 (JSNumber.digits_value ds)
                                   (e - Z.of_nat (List.length fp)) in
         JSNumber.Finite (if neg then - v else v)%Q
     end)
  = JSNumber.Finite
      (let v := (JSNumber.digits_value (list_ascii_of_string (I ++ F))
                 # Z.to_pos (10 ^ Z.of_nat (String.length F)))%Q in
       if neg then (- v)%Q else v).
Proof.
  intros HI HF HIne HFne Hrest Hexp.
  destruct I as [| c I']; [congruence|].
  inversion HI as [| ? ? Hc HI']; subst.
  destruct (digit_char c Hc) as [_ [_ [_ [_ Hinf]]]].
  change ((String c I' ++ String "." (F ++ rest))%string)
    with (String c (I' ++ String "." (F ++ rest))) at 1.
  rewrite Hinf.
  rewrite (span_digits_app (String c I') (String "." (F ++ rest)) HI eq_refl).
  cbn [JSNumber.fraction_part]. change (Ascii.eqb "." ".") with true.
  cbv iota. rewrite (span_digits_app F rest HF Hrest), Hexp.
  rewrite chars_append.
  cbn [list_ascii_of_string app]. f_equal.
  assert (Hlen : (0 < String.length F)%nat) by (destruct F; simpl; [congruence | lia]).
  rewrite length_chars. unfold JSNumber.scale10.
  destruct (0 <=? 0 - Z.of_nat (String.length F)) eqn:E;
    [apply Z.leb_le in E; lia|].
  replace (- (0 - Z.of_nat (String.length F))) with (Z.of_nat (String.length F))
    by lia.
  reflexivity.
Qed.

(** What [toFixed] prints for at least one decimal: an optional minus
    sign, integer digits, a dot and [f] fraction digits; read as one number
    the digits are [toFixed_digits]. *)
Lemma toFixed_shape (x : Q) (f : nat) :
  (1 <= f)%nat ->
  exists I F,
    toFixed x f
    = ((if negb (Qle_bool 0 x) then "-" else EmptyString) ++ I ++ "." ++ F)%string
    /\ Forall (fun c => JSNumber.is_digit c = true) (list_ascii_of_string I)
    /\ Forall (fun c => JSNumber.is_digit c = true) (list_ascii_of_string F)
    /\ I <> EmptyString
    /\ String.length F = f
    /\ JSNumber.digits_value (list_ascii_of_string (I ++ F)) = toFixed_digits x f.
Proof.
  intros Hf. unfold toFixed.
  set (n := toFixed_digits x f).
  pose proof (toFixed_digits_nonneg x f) as Hn. fold n in Hn.
  destruct (decimal_facts n Hn) as [Hdig [Hval Hne]].
  set (m := JSString.padStart (JSNumber.decimal n) (S f) "0").
  assert (Hm : list_ascii_of_string m
               = list_ascii_of_string
                   (JSString.repeat_char "0"
                      (S f - String.length (JSNumber.decimal n)))
                 ++ list_ascii_of_string (JSNumber.decimal n))
    by apply chars_append.
  assert (Hzeros : forall k,
            Forall (fun c => JSNumber.is_digit c = true)
                   (list_ascii_of_string (JSString.repeat_char "0" k))
            /\ forall l,
                 JSNumber.digits_value
                   (list_ascii_of_string (JSString.repeat_char "0" k) ++ l)
                 = JSNumber.digits_value l).
  { induction k as [| k [IH1 IH2]]; simpl.
    - split; [constructor | reflexivity].
    - split; [now constructor|]. intros l. apply IH2. }
  assert (Hmdig : Forall (fun c => JSNumber.is_digit c = true)
                         (list_ascii_of_string m)).
  { rewrite Hm. apply Forall_app. split; [apply Hzeros | exact Hdig]. }
  assert (Hmval : JSNumber.digits_value (list_ascii_of_string m) = n).
  { rewrite Hm, (proj2 (Hzeros _)). exact Hval. }
  assert (Hmlen : (S f <= String.length m)%nat).
  { unfold m, JSString.padStart. rewrite length_append, length_repeat_char. lia. }
  set (k := String.length m) in *.
  remember (String.substring 0 (k - f) m) as I eqn:EI.
  remember (String.substring (k - f) f m) as F eqn:EF.
  assert (HIF : (I ++ F)%string = m).
  { rewrite EI, EF. replace f with (k - (k - f))%nat at 3 by lia.
    apply substring_split. lia. }
  assert (HIlen : String.length I = (k - f)%nat)
    by (rewrite EI; apply length_substring_head; lia).
  clear EI EF.
  assert (HFlen : String.length F = f).
  { assert (H : String.length (I ++ F) = k) by now rewrite HIF.
    rewrite length_append in H. lia. }
  assert (Hsplit : Forall (fun c => JSNumber.is_digit c = true)
                          (list_ascii_of_string I)
                   /\ Forall (fun c => JSNumber.is_digit c = true)
                             (list_ascii_of_string F)).
  { apply Forall_app. rewrite <- chars_append, HIF. exact Hmdig. }
  destruct Hsplit as [HI HF].
  assert (HIne : I <> EmptyString) by (destruct I; simpl in HIlen; [lia | discriminate]).
  assert (HFne : F <> EmptyString) by (destruct F; simpl in HFlen; [lia | discriminate]).
  exists I, F. rewrite HIF. repeat split; assumption.
Qed.

(** What [parseFloat] reads from a literal [I.F] with an optional minus
    sign, followed by text that continues neither the digits nor an
    exponent. *)
Lemma parseFloat_signed_literal (neg : bool) (I F rest : string) :
  Forall (fun c => JSNumber.is_digit c = true) (list_ascii_of_string I) ->
  Forall (fun c => JSNumber.is_digit c = true) (list_ascii_of_string F) ->
  I <> EmptyString -> F <> EmptyString ->
  starts_with_digit rest = false ->
  JSNumber.exponent_part rest = None ->
  JSNumber.parseFloat
    (((if neg then "-" else EmptyString) ++ I ++ "." ++ F) ++ rest)
  = JSNumber.Finite
      (let v := (JSNumber.digits_value (list_ascii_of_string (I ++ F))
                 # Z.to_pos (10 ^ Z.of_nat (String.length F)))%Q in
       if neg then (- v)%Q else v).
Proof.
  intros HI HF HIne HFne Hrest Hexp.
  pose proof (parseFloat_unsigned_literal neg I F rest
                HI HF HIne HFne Hrest Hexp) as Hlit.
  etransitivity; [|exact Hlit]. clear Hlit.
  unfold JSNumber.parseFloat.
  destruct I as [| c I']; [congruence|].
  inversion HI as [| ? ? Hc HI']; subst.
  destruct (digit_char c Hc) as [Hw [Hminus [Hplus _]]].
  destruct neg.
  - change ((("-" ++ String c I' ++ "." ++ F) ++ rest)%string)
      with (String "-" ((String c I' ++ String "." F) ++ rest)).
    rewrite append_assoc.
    change ((String "." F ++ rest)%string) with (String "." (F ++ rest)).
    rewrite (trimStart_no_space "-" _ eq_refl)
      by (apply Nat.ltb_lt; reflexivity).
    reflexivity.
  - change (((EmptyString ++ String c I' ++ "." ++ F) ++ rest)%string)
      with ((String c I' ++ String "." F) ++ rest)%string.
    rewrite append_assoc.
    change ((String "." F ++ rest)%string) with (String "." (F ++ rest)).
    change ((String c I' ++ String "." (F ++ rest))%string)
      with (String c (I' ++ String "." (F ++ rest))).
    rewrite (trimStart_no_space c _ Hw (digit_ascii c Hc)).
    rewrite (strip_sign_none c _ Hminus Hplus).
    reflexivity.
Qed.


(** X15: reading back what [toFixed] prints gives the rounded value:
    for at least one decimal, [parseFloat(x.toFixed(f))] is the number
    [parseFloat_toFixed x f] that the service keeps as match score, also when
    text such as a percent sign follows the digits. *)
Theorem parseFloat_toFixed_round_trip (x : Q) (f : nat) (rest : string)
    (Hf : (1 <= f)%nat)
    (Hrest : starts_with_digit rest = false)
    (Hexp : JSNumber.exponent_part rest = None) :
  JSNumber.parseFloat (toFixed x f ++ rest)
  = JSNumber.Finite (parseFloat_toFixed x f).
Proof.
  destruct (toFixed_shape x f Hf) as [I [F [E [HI [HF [HIne [HFlen Hval]]]]]]].
  assert (HFne : F <> EmptyString)
    by (destruct F; simpl in HFlen; [lia | discriminate]).
  rewrite E, (parseFloat_signed_literal _ I F rest HI HF HIne HFne Hrest Hexp).
  rewrite Hval, HFlen. reflexivity.
Qed.

Lemma parseFloat_toFixed_round_trip_witness :
  (1 <= 2)%nat
  /\ JSNumber.parseFloat (toFixed (300 # 7) 2 ++ "%")
     = JSNumber.Finite (parseFloat_toFixed (300 # 7) 2).
Proof.
  split; [lia|].
  apply (parseFloat_toFixed_round_trip (300 # 7) 2 "%");
    [lia | reflexivity | reflexivity].
Defined.

(** ** Grouping and counting *)

Lemma total_app (l1 l2 : list Z) : total (l1 ++ l2) = total l1 + total l2.
Proof. induction l1 as [| x l1 IH]; simpl; [reflexivity | rewrite IH; lia]. Qed.

Lemma total_Permutation (l1 l2 : list Z) :
  Permutation l1 l2 -> total l1 = total l2.
Proof. induction 1; simpl; lia. Qed.

Lemma fold_left_total (l : list Z) (acc : Z) :
  fold_left Z.add l acc = acc + total l.
Proof.
  revert acc. induction l as [| x l IH]; simpl; intros acc; [lia|].
  rewrite IH. lia.
Qed.

Section GroupCount.

Context {R : Type}.
Variable key : R -> string.

Let occurrences (k : string) (rows : list R) : Z :=
  Z.of_nat (List.length (filter (fun r => String.eqb (key r) k) rows)).

Let step (groups : JSMap.t (R * Z)) (r : R) : JSMap.t (R * Z) :=
  match JSMap.get groups (key r) with
  | Some (r0, n) => JSMap.set groups (key r) (r0, n + 1)
  | None => JSMap.set groups (key r) (r, 1)
  end.

Lemma occurrences_snoc (k : string) (rows : list R) (x : R) :
  occurrences k (rows ++ [x])
  = occurrences k rows + (if String.eqb (key x) k then 1 else 0).
Proof.
  unfold occurrences. rewrite filter_app, length_app. simpl.
  destruct (String.eqb (key x) k); simpl; lia.
Qed.

Lemma total_set_group (m : JSMap.t (R * Z)) (k : string) (r0 : R) (n : Z) (v' : R * Z) :
  JSMap.get m k = Some (r0, n) ->
  total (map (fun kv => snd (snd kv)) (JSMap.set m k v'))
  = total (map (fun kv => snd (snd kv)) m) - n + snd v'.
Proof.
  unfold JSMap.get. induction m as [| [k0 v0] m IH]; simpl; [discriminate|].
  destruct (String.eqb k k0) eqn:E; simpl.
  - intros [= ->]. simpl. lia.
  - intros H. rewrite (IH H). lia.
Qed.

Lemma total_set_new (m : JSMap.t (R * Z)) (k : string) (v' : R * Z) :
  JSMap.get m k = None ->
  total (map (fun kv => snd (snd kv)) (JSMap.set m k v'))
  = total (map (fun kv => snd (snd kv)) m) + snd v'.
Proof.
  unfold JSMap.get. induction m as [| [k0 v0] m IH]; simpl; [lia|].
  destruct (String.eqb k k0) eqn:E; simpl; [discriminate|].
  intros H. rewrite (IH H). lia.
Qed.

(** The grouping loop: one group per key, holding the first row with that
    key and the number of rows with it. *)
Lemma group_loop_facts (rows : list R) :
  let m := fold_left step rows [] in
  NoDup (JSMap.keys m)
  /\ (forall k r0 n, JSMap.get m k = Some (r0, n) ->
        key r0 = k /\ In r0 rows /\ n = occurrences k rows /\ 1 <= n)
  /\ (forall r, In r rows -> JSMap.get m (key r) <> None)
  /\ total (map (fun kv => snd (snd kv)) m) = Z.of_nat (List.length rows).
Proof.
  assert (G : forall todo done (m : JSMap.t (R * Z)),
    NoDup (JSMap.keys m) ->
    (forall k r0 n, JSMap.get m k = Some (r0, n) ->
       key r0 = k /\ In r0 done /\ n = occurrences k done /\ 1 <= n) ->
    (forall r, In r done -> JSMap.get m (key r) <> None) ->
    total (map (fun kv => snd (snd kv)) m) = Z.of_nat (List.length done) ->
    let m' := fold_left step todo m in
    NoDup (JSMap.keys m')
    /\ (forall k r0 n, JSMap.get m' k = Some (r0, n) ->
          key r0 = k /\ In r0 (done ++ todo)
          /\ n = occurrences k (done ++ todo) /\ 1 <= n)
    /\ (forall r, In r (done ++ todo) -> JSMap.get m' (key r) <> None)
    /\ total (map (fun kv => snd (snd kv)) m')
       = Z.of_nat (List.length (done ++ todo))).
  { induction todo as [| x todo IH]; intros done m J1 J2 J3 J4.
    - simpl. rewrite app_nil_r. auto.
    - simpl fold_left.
      replace (done ++ x :: todo) with ((done ++ [x]) ++ todo)
        by now rewrite <- app_assoc.
      assert (Hzero : JSMap.get m (key x) = None -> occurrences (key x) done = 0).
      { intros Hnone. unfold occurrences. rewrite filter_none; [reflexivity|].
        intros r Hr. apply String.eqb_neq. intros E.
        apply (J3 r Hr). now rewrite E. }
      apply IH.
      + unfold step. destruct (JSMap.get m (key x)) as [[r0 n] |];
          now apply NoDup_keys_set.
      + intros k r0 n. unfold step.
        destruct (JSMap.get m (key x)) as [[r1 n1] |] eqn:E;
          rewrite get_set; destruct (String.eqb k (key x)) eqn:Ek.
        * apply String.eqb_eq in Ek. subst k. intros [= <- <-].
          destruct (J2 _ _ _ E) as [K1 [K2 [K3 K4]]].
          rewrite occurrences_snoc, String.eqb_refl, in_app_iff.
          repeat split; auto; lia.
        * intros H. destruct (J2 _ _ _ H) as [K1 [K2 [K3 K4]]].
          rewrite occurrences_snoc, in_app_iff.
          rewrite String.eqb_sym in Ek. rewrite Ek.
          repeat split; auto; lia.
        * apply String.eqb_eq in Ek. subst k. intros [= <- <-].
          rewrite occurrences_snoc, String.eqb_refl, in_app_iff, (Hzero eq_refl).
          simpl. repeat split; auto; lia.
        * intros H. destruct (J2 _ _ _ H) as [K1 [K2 [K3 K4]]].
          rewrite occurrences_snoc, in_app_iff.
          rewrite String.eqb_sym in Ek. rewrite Ek.
          repeat split; auto; lia.
      + intros r. rewrite in_app_iff. simpl. unfold step.
        destruct (JSMap.get m (key x)) as [[r1 n1] |] eqn:E;
          rewrite get_set; (destruct (String.eqb (key r) (key x)) eqn:Ek;
                            [discriminate|]);
          (intros [H | [<- | []]];
           [now apply J3 | rewrite String.eqb_refl in Ek; discriminate]).
      + unfold step. rewrite length_app. simpl.
        destruct (JSMap.get m (key x)) as [[r1 n1] |] eqn:E.
        * rewrite (total_set_group _ _ _ _ _ E). simpl. lia.
        * rewrite (total_set_new _ _ _ E). simpl. lia. }
  apply (G rows [] []).
  - constructor.
  - intros k r0 n. discriminate.
  - intros r [].
  - reflexivity.
Qed.

(** [GROUP BY key] with [COUNT]: the groups have distinct keys, each stands
    for a row of the input and counts the rows with its key, every row is
    in a group, and the counts add up to the number of rows. *)
Lemma group_count_facts (rows : list R) :
  NoDup (map (fun g => key (fst g)) (SQL.group_count key rows))
  /\ (forall r n, In (r, n) (SQL.group_count key rows) ->
        In r rows /\ n = occurrences (key r) rows /\ 1 <= n)
  /\ (forall r, In r rows ->
        exists r0 n, In (r0, n) (SQL.group_count key rows) /\ key r0 = key r)
  /\ total (map snd (SQL.group_count key rows)) = Z.of_nat (List.length rows).
Proof.
  destruct (group_loop_facts rows) as [J1 [J2 [J3 J4]]].
  unfold SQL.group_count. fold step.
  set (m := fold_left step rows []) in *.
  assert (Hin : forall k v, In (k, v) m -> JSMap.get m k = Some v)
    by (intros k v; now apply In_get_Some).
  split; [|split; [|split]].
  - rewrite map_map.
    replace (map (fun x => key (fst (snd x))) m) with (JSMap.keys m); [exact J1|].
    unfold JSMap.keys. apply map_ext_in. intros [k [r0 n]] Hkv. simpl.
    symmetry. exact (proj1 (J2 _ _ _ (Hin _ _ Hkv))).
  - intros r n Hr. apply in_map_iff in Hr. destruct Hr as [[k v] [E Hkv]].
    simpl in E. subst v. destruct (J2 _ _ _ (Hin _ _ Hkv)) as [K1 [K2 [K3 K4]]].
    rewrite K1. auto.
  - intros r Hr. specialize (J3 r Hr).
    destruct (JSMap.get m (key r)) as [[r0 n] |] eqn:E; [|congruence].
    exists r0, n. split; [|exact (proj1 (J2 _ _ _ E))].
    apply in_map_iff. exists (key r, (r0, n)). split; [reflexivity|].
    now apply get_Some_In.
  - rewrite map_map. exact J4.
Qed.

End GroupCount.

(** ** Fallback policies: what the popularity rows are *)

Lemma order_by_desc_sorted {R} (f : R -> Z) (rows : list R) :
  StronglySorted (fun a b => f b <= f a) (SQL.order_by_desc f rows).
Proof.
  unfold SQL.order_by_desc.
  assert (Hle : forall a b : R, (inject_Z (f b - f a) <= 0)%Q <-> f b <= f a).
  { intros a b. change 0%Q with (inject_Z 0). rewrite <- Zle_Qle. lia. }
  apply StronglySorted_impl with
    (R := fun a b : R => (inject_Z (f b - f a) <= 0)%Q).
  - intros a b. apply Hle.
  - apply sort_sorted.
    + intros x y. rewrite !Hle. lia.
    + intros x y z. rewrite !Hle. lia.
Qed.

Lemma order_by_desc_Permutation {R} (f : R -> Z) (rows : list R) :
  Permutation (SQL.order_by_desc f rows) rows.
Proof. apply sort_Permutation. Qed.

Lemma StronglySorted_app_inv {A} (R : A -> A -> Prop) (l1 l2 : list A) :
  StronglySorted R (l1 ++ l2) ->
  forall x y, In x l1 -> In y l2 -> R x y.
Proof.
  induction l1 as [| a l1 IH]; simpl; intros Hs x y Hx Hy; [contradiction|].
  inversion Hs as [| ? ? Hs' Hall]; subst. destruct Hx as [<- | Hx].
  - rewrite Forall_forall in Hall. apply Hall. apply in_or_app. now right.
  - now apply IH.
Qed.

Lemma StronglySorted_map_In {A B} (g : A -> B) (R : A -> A -> Prop)
    (R' : B -> B -> Prop) (l : list A) :
  (forall a b, In a l -> In b l -> R a b -> R' (g a) (g b)) ->
  StronglySorted R l -> StronglySorted R' (map g l).
Proof.
  induction l as [| x l IH]; simpl; intros H Hs; [constructor|].
  inversion Hs as [| ? ? Hs' Hall]; subst. constructor.
  - apply IH; [|assumption]. intros a b Ha Hb. apply H; now right.
  - rewrite Forall_forall in *. intros y Hy. apply in_map_iff in Hy.
    destruct Hy as [b [<- Hb]]. apply H; [now left | now right | now apply Hall].
Qed.

(** With distinct book ids, the rows that the join of books and loans has
    for one book are that book's loans. *)
Lemma join_rows_of_book (db : Store.Database) (books : list Book.row)
    (b : Book.row) :
  NoDup (map Book.book_id books) -> In b books ->
  List.length
    (filter (fun bl : Book.row * Loan.row =>
               String.eqb (Book.book_id (fst bl)) (Book.book_id b))
            (flat_map (fun b' => map (fun l => (b', l)) (loans_of_book db b'))
                      books))
  = List.length (loans_of_book db b).
Proof.
  assert (Hother : forall b' : Book.row,
            Book.book_id b' <> Book.book_id b ->
            filter (fun bl : Book.row * Loan.row =>
                      String.eqb (Book.book_id (fst bl)) (Book.book_id b))
                   (map (fun l => (b', l)) (loans_of_book db b')) = []).
  { intros b' Hne. apply filter_none. intros bl Hbl.
    apply in_map_iff in Hbl. destruct Hbl as [l [<- _]]. simpl.
    now apply String.eqb_neq. }
  assert (Hsame : forall b' : Book.row,
            Book.book_id b' = Book.book_id b ->
            List.length
              (filter (fun bl : Book.row * Loan.row =>
                         String.eqb (Book.book_id (fst bl)) (Book.book_id b))
                      (map (fun l => (b', l)) (loans_of_book db b')))
            = List.length (loans_of_book db b)).
  { intros b' E. rewrite forallb_filter_id.
    - rewrite length_map. unfold loans_of_book. now rewrite E.
    - apply forallb_forall. intros bl Hbl. apply in_map_iff in Hbl.
      destruct Hbl as [l [<- _]]. simpl. now apply String.eqb_eq. }
  assert (Hnone : forall l : list Book.row,
            ~ In (Book.book_id b) (map Book.book_id l) ->
            filter (fun bl : Book.row * Loan.row =>
                      String.eqb (Book.book_id (fst bl)) (Book.book_id b))
                   (flat_map (fun b' => map (fun l => (b', l)) (loans_of_book db b'))
                             l) = []).
  { induction l as [| b' l IH]; simpl; intros Hn; [reflexivity|].
    rewrite filter_app, Hother, IH by tauto. reflexivity. }
  induction books as [| b' books IH]; simpl; intros Hnd Hin; [contradiction|].
  inversion Hnd as [| ? ? Hn Hd]; subst. destruct Hin as [-> | Hin].
  - rewrite filter_app, length_app, Hsame, Hnone by auto. simpl. lia.
  - rewrite filter_app, length_app, Hother, IH; auto.
    intros E. apply Hn. rewrite E. now apply in_map.
Qed.

(** The grouped rows of the popularity statement, before ORDER BY and
    LIMIT: one per borrowed book, with the number of its loans. *)
Lemma cold_start_groups (db : Store.Database) :
  NoDup (map Book.book_id (Store.books db)) ->
  let rows :=
    map (fun g : Book.row * Loan.row * Z => mkPopularRow (fst (fst g)) (snd g))
        (SQL.group_count
           (fun bl : Book.row * Loan.row => Book.book_id (fst bl))
           (flat_map (fun b => map (fun l => (b, l)) (loans_of_book db b))
                     (Store.books db))) in
  NoDup (map (fun r => Book.book_id (popular_book r)) rows)
  /\ (forall r, In r rows ->
        In (popular_book r) (Store.books db)
        /\ borrow_count r = loan_count db (Book.book_id (popular_book r))
        /\ 1 <= borrow_count r)
  /\ (forall b, In b (Store.books db) ->
        1 <= loan_count db (Book.book_id b) ->
        exists r, In r rows
                  /\ Book.book_id (popular_book r) = Book.book_id b).
Proof.
  intros Hpk rows.
  set (joined := flat_map (fun b => map (fun l => (b, l)) (loans_of_book db b))
                          (Store.books db)) in *.
  destruct (group_count_facts
              (fun bl : Book.row * Loan.row => Book.book_id (fst bl)) joined)
    as [G1 [G2 [G3 _]]].
  split; [|split].
  - unfold rows. rewrite map_map. exact G1.
  - intros r Hr. unfold rows in Hr. apply in_map_iff in Hr.
    destruct Hr as [[[b l] n] [<- Hg]]. simpl.
    destruct (G2 _ _ Hg) as [Hin [Hn H1]]. simpl in Hn.
    assert (Hb : In b (Store.books db)).
    { unfold joined in Hin. apply in_flat_map in Hin.
      destruct Hin as [b' [Hb' Hin]]. apply in_map_iff in Hin.
      now destruct Hin as [l' [[= -> ->] _]]. }
    split; [exact Hb|]. split; [|exact H1].
    rewrite Hn. unfold joined. rewrite (join_rows_of_book db _ b Hpk Hb).
    reflexivity.
  - intros b Hb Hcount. unfold loan_count in Hcount.
    destruct (filter (fun l => String.eqb (Loan.book_id l) (Book.book_id b))
                     (Store.loans db)) as [| l ls] eqn:El; [simpl in Hcount; lia|].
    assert (Hl : In (b, l) joined).
    { unfold joined. apply in_flat_map. exists b. split; [exact Hb|].
      apply in_map. unfold loans_of_book. rewrite El. now left. }
    destruct (G3 _ Hl) as [[b0 l0] [n [Hg E]]]. simpl in E.
    exists (mkPopularRow b0 n). split; [|exact E].
    unfold rows. apply in_map_iff. now exists (b0, l0, n).
Qed.

(** X16: when book ids are distinct (the primary key), the cold-start
    fallback returns the most-borrowed books: no book twice, only books with
    at least one loan, in descending order of their number of loans; and a
    borrowed book that is left out has no more loans than any returned one,
    the list then being full. *)
Theorem coldStartFallback_most_borrowed (userId : string) (lim : Z)
    (db : Store.Database) (res : list RecommendationResult)
    (Hpk : NoDup (map Book.book_id (Store.books db)))
    (Hres : run (_coldStartFallback userId lim) db = Some res) :
  NoDup (map book_id res)
  /\ (forall r, In r res -> 1 <= loan_count db (book_id r))
  /\ StronglySorted
       (fun a b => loan_count db (book_id b) <= loan_count db (book_id a)) res
  /\ (forall b, In b (Store.books db) ->
        1 <= loan_count db (Book.book_id b) ->
        In (Book.book_id b) (map book_id res)
        \/ (List.length res = Z.to_nat lim
            /\ forall r, In r res ->
                 loan_count db (Book.book_id b) <= loan_count db (book_id r))).
Proof.
  unfold run in Hres. rewrite coldStartFallback_eq in Hres. simpl in Hres.
  unfold select_cold_start in Hres.
  destruct (cold_start_groups db Hpk) as [K1 [K2 K3]].
  set (rows := map (fun g : Book.row * Loan.row * Z =>
                      mkPopularRow (fst (fst g)) (snd g)) _) in *.
  set (sorted := SQL.order_by_desc borrow_count rows) in *.
  assert (Hperm : Permutation sorted rows) by apply order_by_desc_Permutation.
  assert (Hsorted : StronglySorted (fun a b => borrow_count b <= borrow_count a)
                                   sorted) by apply order_by_desc_sorted.
  unfold SQL.limit in Hres. destruct (lim <? 0) eqn:El; [discriminate|].
  apply Z.ltb_ge in El. simpl in Hres. injection Hres as <-.
  set (top := firstn (Z.to_nat lim) sorted).
  assert (Htop : forall r, In r top -> In r rows).
  { intros r Hr. apply (Permutation_in _ Hperm). now apply (In_firstn _ _ _ Hr). }
  rewrite map_map. simpl.
  split; [|split; [|split]].
  - unfold top. rewrite <- firstn_map. apply NoDup_firstn.
    apply (Permutation_NoDup (Permutation_sym (Permutation_map _ Hperm))).
    exact K1.
  - intros r Hr. apply in_map_iff in Hr. destruct Hr as [row [<- Hrow]]. simpl.
    destruct (K2 row (Htop _ Hrow)) as [_ [E H1]]. now rewrite <- E.
  - apply StronglySorted_map_In with
      (R := fun a b => borrow_count b <= borrow_count a).
    + intros a b Ha Hb Hab. simpl.
      destruct (K2 a (Htop _ Ha)) as [_ [Ea _]].
      destruct (K2 b (Htop _ Hb)) as [_ [Eb _]]. now rewrite <- Ea, <- Eb.
    + now apply firstn_StronglySorted.
  - intros b Hb Hcount. destruct (K3 b Hb Hcount) as [r0 [Hr0 E0]].
    assert (Hin : In r0 sorted)
      by now apply (Permutation_in _ (Permutation_sym Hperm)).
    rewrite <- (firstn_skipn (Z.to_nat lim) sorted) in Hin.
    apply in_app_or in Hin. destruct Hin as [Hin | Hin].
    + left. apply in_map_iff. exists r0. split; [exact E0 | exact Hin].
    + right. split.
      * rewrite length_map. unfold top. apply firstn_length_le.
        destruct (Nat.le_gt_cases (Z.to_nat lim) (List.length sorted)) as [H | H];
          [exact H|].
        rewrite skipn_all2 in Hin by lia. contradiction.
      * intros r Hr. apply in_map_iff in Hr. destruct Hr as [row [<- Hrow]].
        simpl.
        destruct (K2 row (Htop _ Hrow)) as [_ [Erow _]].
        destruct (K2 r0 Hr0) as [_ [Er0 _]].
        rewrite <- E0, <- Erow, <- Er0.
        rewrite <- (firstn_skipn (Z.to_nat lim) sorted) in Hsorted.
        exact (StronglySorted_app_inv _ _ _ Hsorted row r0 Hrow Hin).
Qed.

Lemma coldStartFallback_most_borrowed_witness :
  NoDup (map Book.book_id (Store.books sample_db))
  /\ exists res,
       run (_coldStartFallback "U005" 3) sample_db = Some res
       /\ NoDup (map book_id res).
Proof.
  assert (Hpk : NoDup (map Book.book_id (Store.books sample_db)))
    by (vm_compute; solve_NoDup).
  split; [exact Hpk|]. eexists. split; [vm_compute; reflexivity|].
  refine (proj1 (coldStartFallback_most_borrowed "U005" 3 sample_db _ Hpk _)).
  vm_compute. reflexivity.
Defined.





(** ** Reading DNA: the breakdown *)

Lemma total_positive_counts (counts : list Z) :
  (forall c, In c counts -> 1 <= c) -> counts <> [] -> 1 <= total counts.
Proof.
  intros H Hne. destruct counts as [| c counts]; [contradiction|].
  assert (G : forall l : list Z, (forall c, In c l -> 1 <= c) -> 0 <= total l).
  { induction l as [| x l IH]; simpl; intros Hl; [lia|].
    specialize (Hl x (or_introl eq_refl)) as Hx.
    assert (0 <= total l) by (apply IH; auto). lia. }
  simpl. specialize (H c (or_introl eq_refl)) as Hc.
  assert (0 <= total counts) by (apply G; intros; apply H; now right). lia.
Qed.

Lemma fold_left_counts {R} (f : R -> Z) (rows : list R) (acc : Z) :
  fold_left (fun sum r => sum + f r) rows acc = acc + total (map f rows).
Proof.
  revert acc. induction rows as [| r rows IH]; simpl; intros acc; [lia|].
  rewrite IH. lia.
Qed.

(** The rows of the Reading DNA statement: one per Dewey code among the
    reader's loans, with the number of joined rows that carry the code. *)
Lemma select_reading_dna_facts (uid : string) (db : Store.Database) :
  exists rows,
    select_reading_dna uid db = Some rows
    /\ NoDup (map dna_dewey_decimal rows)
    /\ StronglySorted (fun a b => book_count b <= book_count a) rows
    /\ (forall r, In r rows ->
          1 <= book_count r
          /\ exists u l b,
               In u (Store.users db) /\ User.user_id u = uid
               /\ dna_name r = User.name u
               /\ In l (Store.loans db) /\ Loan.user_id l = uid
               /\ In b (Store.books db) /\ Book.book_id b = Loan.book_id l
               /\ dna_dewey_decimal r = Book.dewey_decimal b)
    /\ total (map book_count rows)
       = Z.of_nat
           (List.length
              (filter
                 (fun r : User.row * Loan.row * Book.row =>
                    String.eqb (User.user_id (fst (fst r))) uid)
                 (flat_map
                    (fun u =>
                       flat_map
                         (fun l =>
                            if String.eqb (Loan.user_id l) (User.user_id u)
                            then map (fun b => (u, l, b))
                                     (filter (fun b => String.eqb (Book.book_id b)
                                                                  (Loan.book_id l))
                                             (Store.books db))
                            else [])
                         (Store.loans db))
                    (Store.users db)))).
Proof.
  unfold select_reading_dna.
  set (selected := filter _ _).
  destruct (group_count_facts
              (fun r : User.row * Loan.row * Book.row =>
                 Book.dewey_decimal (snd r)) selected) as [G1 [G2 [_ G4]]].
  set (rows := map _ (SQL.group_count _ selected)).
  assert (Hperm : Permutation (SQL.order_by_desc book_count rows) rows)
    by apply order_by_desc_Permutation.
  eexists. split; [reflexivity|]. split; [|split; [|split]].
  - apply (Permutation_NoDup (Permutation_sym (Permutation_map _ Hperm))).
    unfold rows. rewrite map_map. exact G1.
  - apply order_by_desc_sorted.
  - intros r Hr. apply (Permutation_in _ Hperm) in Hr. unfold rows in Hr.
    apply in_map_iff in Hr. destruct Hr as [[[[u l] b] n] [<- Hg]]. simpl.
    destruct (G2 _ _ Hg) as [Hin [_ H1]]. split; [exact H1|].
    unfold selected in Hin. apply filter_In in Hin. destruct Hin as [Hj Hu].
    simpl in Hu. apply String.eqb_eq in Hu.
    apply in_flat_map in Hj. destruct Hj as [u' [Hu' Hj]].
    apply in_flat_map in Hj. destruct Hj as [l' [Hl' Hj]].
    destruct (String.eqb (Loan.user_id l') (User.user_id u')) eqn:E;
      [|contradiction].
    apply in_map_iff in Hj. destruct Hj as [b' [[= -> -> ->] Hb]].
    apply filter_In in Hb. destruct Hb as [Hb Eb].
    apply String.eqb_eq in E, Eb.
    exists u, l, b. repeat split; auto; congruence.
  - rewrite (total_Permutation _ _ (Permutation_map _ Hperm)).
    unfold rows. rewrite map_map. simpl. exact G4.
Qed.

Lemma history_rows_In (db : Store.Database) (uid : string)
    (u : User.row) (l : Loan.row) (b : Book.row) :
  In (u, l, b) (history_rows db uid)
  <-> In u (Store.users db) /\ User.user_id u = uid
      /\ In l (Store.loans db) /\ Loan.user_id l = uid
      /\ In b (Store.books db) /\ Book.book_id b = Loan.book_id l.
Proof.
  unfold history_rows. rewrite filter_In, in_flat_map. cbn [fst].
  rewrite String.eqb_eq. split.
  - intros [[u' [Hu' Hj]] Hu]. apply in_flat_map in Hj.
    destruct Hj as [l' [Hl' Hj]].
    destruct (String.eqb (Loan.user_id l') (User.user_id u')) eqn:E;
      [|contradiction].
    apply in_map_iff in Hj. destruct Hj as [b' [[= -> -> ->] Hb]].
    apply filter_In in Hb. destruct Hb as [Hb Eb].
    apply String.eqb_eq in E, Eb. repeat split; auto; congruence.
  - intros [Hu [Eu [Hl [El [Hb Eb]]]]]. split; [|exact Eu].
    exists u. split; [exact Hu|]. apply in_flat_map. exists l.
    split; [exact Hl|].
    replace (String.eqb (Loan.user_id l) (User.user_id u)) with true
      by (symmetry; apply String.eqb_eq; congruence).
    apply in_map. apply filter_In. split; [exact Hb|].
    now apply String.eqb_eq.
Qed.

(** The rows of the Reading DNA statement are the groups of the history
    rows by Dewey code: every code of the history has a row, and a row
    counts the history rows with its code. *)
Lemma select_reading_dna_groups (uid : string) (db : Store.Database) :
  exists rows,
    select_reading_dna uid db = Some rows
    /\ (forall x, In x (history_rows db uid) ->
          exists r, In r rows
                    /\ dna_dewey_decimal r = Book.dewey_decimal (snd x))
    /\ (forall r, In r rows ->
          book_count r
          = Z.of_nat
              (List.length
                 (filter (fun x => String.eqb (Book.dewey_decimal (snd x))
                                              (dna_dewey_decimal r))
                         (history_rows db uid))))
    /\ (forall r, In r rows ->
          exists u, In u (Store.users db) /\ User.user_id u = uid
                    /\ dna_name r = User.name u).
Proof.
  unfold select_reading_dna. fold (history_rows db uid).
  destruct (group_count_facts
              (fun r : User.row * Loan.row * Book.row =>
                 Book.dewey_decimal (snd r)) (history_rows db uid))
    as [_ [G2 [G3 _]]].
  set (rows := map _ (SQL.group_count _ (history_rows db uid))).
  assert (Hperm : Permutation (SQL.order_by_desc book_count rows) rows)
    by apply order_by_desc_Permutation.
  eexists. split; [reflexivity|]. split; [|split].
  - intros x Hx. destruct (G3 x Hx) as [[[u l] b] [n [Hg E]]]. simpl in E.
    exists (mkDNARow (User.name u) (Book.dewey_decimal b) n).
    split; [|exact E].
    apply (Permutation_in _ (Permutation_sym Hperm)). unfold rows.
    apply in_map_iff. now exists (u, l, b, n).
  - intros r Hr. apply (Permutation_in _ Hperm) in Hr. unfold rows in Hr.
    apply in_map_iff in Hr. destruct Hr as [[[[u l] b] n] [<- Hg]]. simpl.
    exact (proj1 (proj2 (G2 _ _ Hg))).
  - intros r Hr. apply (Permutation_in _ Hperm) in Hr. unfold rows in Hr.
    apply in_map_iff in Hr. destruct Hr as [[[[u l] b] n] [<- Hg]]. simpl.
    destruct (G2 _ _ Hg) as [Hin _]. apply history_rows_In in Hin.
    exists u. tauto.
Qed.

(** X18: the Reading DNA profile never fails.  Its breakdown has exactly
    one entry for every Dewey code among the reader's history rows (the
    loans of the reader, joined with the reader's user row and the book
    row): no code twice, no code left out, and the entry's count is the
    number of history rows with that code, at least 1; the entry's category
    is the label the classifier gives the code; the entries are in
    descending order of count; totalBooks is the sum of the counts, and it
    is 0 exactly when the breakdown is empty; the name is that of a user
    row with the reader's id when there is a breakdown and Unknown when
    there is none. *)
Theorem readingDNA_breakdown (uid : string) (db : Store.Database) :
  exists dna,
    getReadingDNA uid db = ([SelectReadingDNA uid], Some dna)
    /\ userId dna = uid
    /\ totalBooks dna = total (map count (breakdown dna))
    /\ NoDup (map dewey (breakdown dna))
    /\ StronglySorted (fun a b => count b <= count a) (breakdown dna)
    /\ (forall e, In e (breakdown dna) ->
          1 <= count e
          /\ count e
             = Z.of_nat
                 (List.length
                    (filter (fun x => String.eqb (Book.dewey_decimal (snd x))
                                                 (dewey e))
                            (history_rows db uid)))
          /\ category e = _deweyCategory (dewey e)
          /\ exists l b,
               In l (Store.loans db) /\ Loan.user_id l = uid
               /\ In b (Store.books db) /\ Book.book_id b = Loan.book_id l
               /\ dewey e = Book.dewey_decimal b)
    /\ (forall u l b,
          In u (Store.users db) -> User.user_id u = uid ->
          In l (Store.loans db) -> Loan.user_id l = uid ->
          In b (Store.books db) -> Book.book_id b = Loan.book_id l ->
          exists e, In e (breakdown dna) /\ dewey e = Book.dewey_decimal b)
    /\ (totalBooks dna = 0 <-> breakdown dna = [])
    /\ match breakdown dna with
       | [] => name dna = "Unknown"%string
       | _ :: _ =>
           exists u, In u (Store.users db) /\ User.user_id u = uid
                     /\ name dna = User.name u
       end.
Proof.
  destruct (select_reading_dna_facts uid db)
    as [rows [Hsel [Hnd [Hsorted [Hrows _]]]]].
  destruct (select_reading_dna_groups uid db)
    as [rows' [Hsel' [Hall [Hcount Hname]]]].
  rewrite Hsel in Hsel'. injection Hsel' as <-.
  assert (Hcomplete : forall u l b,
            In u (Store.users db) -> User.user_id u = uid ->
            In l (Store.loans db) -> Loan.user_id l = uid ->
            In b (Store.books db) -> Book.book_id b = Loan.book_id l ->
            exists r, In r rows /\ dna_dewey_decimal r = Book.dewey_decimal b).
  { intros u l b Hu Eu Hl El Hb Eb.
    apply (Hall (u, l, b)). apply history_rows_In. tauto. }
  unfold getReadingDNA, bind, execute. rewrite Hsel.
  destruct rows as [| row0 rows'].
  { eexists. split; [reflexivity|]. cbn [userId totalBooks breakdown map name].
    split; [reflexivity|]. split; [reflexivity|].
    split; [apply NoDup_nil|]. split; [apply SSorted_nil|].
    split; [intros e []|]. split.
    - intros u l b Hu Eu Hl El Hb Eb.
      destruct (Hcomplete u l b Hu Eu Hl El Hb Eb) as [r [[] _]].
    - split; [split; reflexivity | reflexivity]. }
  set (rows := row0 :: rows') in *.
  eexists. split; [reflexivity|]. cbn [userId totalBooks breakdown name].
  rewrite fold_left_counts, !map_map. cbn [count dewey].
  split; [reflexivity|]. split; [exact (Z.add_0_l _)|].
  split; [exact Hnd|]. split; [|split; [|split; [|split]]].
  - apply StronglySorted_map_In with
      (R := fun a b => book_count b <= book_count a); [|exact Hsorted].
    intros a b _ _ H. exact H.
  - intros e He. apply in_map_iff in He. destruct He as [r [<- Hr]].
    cbn [count category dewey].
    destruct (Hrows r Hr) as [H1 [u [l [b [_ [_ [_ H]]]]]]].
    split; [exact H1|]. split; [exact (Hcount r Hr)|].
    split; [reflexivity|]. now exists l, b.
  - intros u l b Hu Eu Hl El Hb Eb.
    destruct (Hcomplete u l b Hu Eu Hl El Hb Eb) as [r [Hr E]].
    eexists. split; [apply in_map; exact Hr|]. exact E.
  - split; [|discriminate]. intros H0. exfalso.
    assert (1 <= total (map book_count rows)); [|lia].
    apply total_positive_counts; [|discriminate].
    intros c Hc. apply in_map_iff in Hc. destruct Hc as [r [<- Hr]].
    apply (Hrows r Hr).
  - unfold rows. cbn [map]. apply (Hname row0). now left.
Qed.

(** ** Reading DNA under the schema's keys *)

Lemma filter_key_none {A} (f : A -> string) (k : string) (l : list A) :
  ~ In k (map f l) -> filter (fun x => String.eqb (f x) k) l = [].
Proof.
  induction l as [| a l IH]; simpl; intros H; [reflexivity|].
  destruct (String.eqb (f a) k) eqn:E.
  - apply String.eqb_eq in E. exfalso. apply H. now left.
  - apply IH. intros Hin. apply H. now right.
Qed.

Lemma filter_key_unique {A} (f : A -> string) (k : string) (l : list A) :
  NoDup (map f l) -> In k (map f l) ->
  List.length (filter (fun x => String.eqb (f x) k) l) = 1%nat.
Proof.
  induction l as [| a l IH]; simpl; intros Hnd Hin; [contradiction|].
  inversion Hnd as [| ? ? Hnot Hnd']; subst.
  destruct (String.eqb (f a) k) eqn:E.
  - apply String.eqb_eq in E. subst k.
    rewrite (filter_key_none f (f a) l Hnot). reflexivity.
  - apply String.eqb_neq in E. destruct Hin as [Hin | Hin]; [contradiction|].
    now apply IH.
Qed.

(** The joined rows of one user: one per loan of that user, when every loan
    refers to exactly one book. *)
Lemma join_rows_of_user (books : list Book.row) (u : User.row)
    (loans : list Loan.row) :
  NoDup (map Book.book_id books) ->
  (forall l, In l loans -> In (Loan.book_id l) (map Book.book_id books)) ->
  List.length
    (flat_map
       (fun l =>
          if String.eqb (Loan.user_id l) (User.user_id u)
          then map (fun b => (u, l, b))
                   (filter (fun b => String.eqb (Book.book_id b) (Loan.book_id l))
                           books)
          else [])
       loans)
  = List.length
      (filter (fun l => String.eqb (Loan.user_id l) (User.user_id u)) loans).
Proof.
  intros Hpk. induction loans as [| l loans IH]; intros Hfk; [reflexivity|].
  cbn [flat_map filter]. rewrite length_app, IH by (intros; apply Hfk; now right).
  destruct (String.eqb (Loan.user_id l) (User.user_id u)); [|reflexivity].
  rewrite length_map, (filter_key_unique Book.book_id _ books Hpk)
    by (apply Hfk; now left).
  reflexivity.
Qed.

Lemma filter_all {A} (p : A -> bool) (l : list A) :
  (forall x, In x l -> p x = true) -> filter p l = l.
Proof.
  induction l as [| a l IH]; simpl; intros H; [reflexivity|].
  rewrite (H a (or_introl eq_refl)). f_equal. apply IH. auto.
Qed.

Lemma joined_user (books : list Book.row) (u : User.row)
    (loans : list Loan.row) (r : User.row * Loan.row * Book.row) :
  In r (flat_map
          (fun l =>
             if String.eqb (Loan.user_id l) (User.user_id u)
             then map (fun b => (u, l, b))
                      (filter (fun b => String.eqb (Book.book_id b)
                                                   (Loan.book_id l))
                              books)
             else [])
          loans) ->
  fst (fst r) = u.
Proof.
  intros H. apply in_flat_map in H. destruct H as [l [_ H]].
  destruct (String.eqb (Loan.user_id l) (User.user_id u)); [|contradiction].
  apply in_map_iff in H. destruct H as [b [<- _]]. reflexivity.
Qed.

(** The joined rows selected for a reader are as many as the reader's loans,
    under the primary keys of [users] and [books] and the foreign keys of
    [loans]. *)
Lemma selected_rows_count (uid : string) (db : Store.Database) :
  NoDup (map User.user_id (Store.users db)) ->
  NoDup (map Book.book_id (Store.books db)) ->
  (forall l, In l (Store.loans db) ->
     In (Loan.user_id l) (map User.user_id (Store.users db))
     /\ In (Loan.book_id l) (map Book.book_id (Store.books db))) ->
  List.length
    (filter
       (fun r : User.row * Loan.row * Book.row =>
          String.eqb (User.user_id (fst (fst r))) uid)
       (flat_map
          (fun u =>
             flat_map
               (fun l =>
                  if String.eqb (Loan.user_id l) (User.user_id u)
                  then map (fun b => (u, l, b))
                           (filter (fun b => String.eqb (Book.book_id b)
                                                        (Loan.book_id l))
                                   (Store.books db))
                  else [])
               (Store.loans db))
          (Store.users db)))
  = List.length (loans_of_reader db uid).
Proof.
  intros Hu Hb Hfk. unfold loans_of_reader.
  assert (Hother :
            forall users : list User.row,
              ~ In uid (map User.user_id users) ->
              filter
                (fun r : User.row * Loan.row * Book.row =>
                   String.eqb (User.user_id (fst (fst r))) uid)
                (flat_map
                   (fun u =>
                      flat_map
                        (fun l =>
                           if String.eqb (Loan.user_id l) (User.user_id u)
                           then map (fun b => (u, l, b))
                                    (filter (fun b => String.eqb (Book.book_id b)
                                                                 (Loan.book_id l))
                                            (Store.books db))
                           else [])
                        (Store.loans db))
                   users) = []).
  { intros users Hnot. apply filter_nil_iff. intros r Hr.
    apply in_flat_map in Hr. destruct Hr as [u [Hin Hr]].
    apply joined_user in Hr. rewrite Hr. apply String.eqb_neq.
    intros E. apply Hnot. apply in_map_iff. now exists u. }
  assert (Hgen :
            forall users : list User.row,
              NoDup (map User.user_id users) ->
              In uid (map User.user_id users) ->
              List.length
                (filter
                   (fun r : User.row * Loan.row * Book.row =>
                      String.eqb (User.user_id (fst (fst r))) uid)
                   (flat_map
                      (fun u =>
                         flat_map
                           (fun l =>
                              if String.eqb (Loan.user_id l) (User.user_id u)
                              then map (fun b => (u, l, b))
                                       (filter (fun b =>
                                                  String.eqb (Book.book_id b)
                                                             (Loan.book_id l))
                                               (Store.books db))
                              else [])
                           (Store.loans db))
                      users))
              = List.length
                  (filter (fun l => String.eqb (Loan.user_id l) uid)
                          (Store.loans db))).
  { induction users as [| u users IH]; intros Hnd Hin; [contradiction|].
    cbn [flat_map map] in *. rewrite filter_app, length_app.
    inversion Hnd as [| ? ? Hnot Hnd']; subst.
    destruct (String.eqb (User.user_id u) uid) eqn:E.
    - apply String.eqb_eq in E. subst uid.
      rewrite (Hother users Hnot), filter_all.
      + rewrite join_rows_of_user; [simpl; lia | exact Hb |].
        intros l Hl. apply (Hfk l Hl).
      + intros r Hr. apply joined_user in Hr. rewrite Hr.
        apply String.eqb_refl.
    - apply String.eqb_neq in E. destruct Hin as [Hin | Hin]; [contradiction|].
      rewrite (IH Hnd' Hin).
      replace (filter _ (flat_map _ (Store.loans db))) with
        (@nil (User.row * Loan.row * Book.row)); [reflexivity|].
      symmetry. apply filter_nil_iff. intros r Hr.
      apply joined_user in Hr. rewrite Hr. now apply String.eqb_neq. }
  destruct (in_dec string_dec uid (map User.user_id (Store.users db)))
    as [Hin | Hnot].
  - now apply Hgen.
  - rewrite (Hother _ Hnot).
    replace (filter _ (Store.loans db)) with (@nil Loan.row); [reflexivity|].
    symmetry. apply filter_nil_iff. intros l Hl. apply String.eqb_neq.
    intros E. apply Hnot. rewrite <- E. apply (Hfk l Hl).
Qed.

Lemma of_list_length (l : list string) (s : JSSet.t) :
  (List.length (fold_left JSSet.add l s) <= List.length s + List.length l)%nat.
Proof.
  revert s. induction l as [| x l IH]; intros s; simpl; [lia|].
  specialize (IH (JSSet.add s x)). unfold JSSet.add in *.
  destruct (JSSet.has s x); [lia|]. rewrite length_app in IH. simpl in IH. lia.
Qed.

(** The total of the profile is the number of joined rows selected for the
    reader. *)
Lemma readingDNA_total_rows (uid : string) (db : Store.Database) :
  exists dna,
    getReadingDNA uid db = ([SelectReadingDNA uid], Some dna)
    /\ totalBooks dna
       = Z.of_nat
           (List.length
              (filter
                 (fun r : User.row * Loan.row * Book.row =>
                    String.eqb (User.user_id (fst (fst r))) uid)
                 (flat_map
                    (fun u =>
                       flat_map
                         (fun l =>
                            if String.eqb (Loan.user_id l) (User.user_id u)
                            then map (fun b => (u, l, b))
                                     (filter (fun b => String.eqb (Book.book_id b)
                                                                  (Loan.book_id l))
                                             (Store.books db))
                            else [])
                         (Store.loans db))
                    (Store.users db)))).
Proof.
  destruct (select_reading_dna_facts uid db)
    as [rows [Hsel [_ [_ [_ Htot]]]]].
  unfold getReadingDNA, bind, execute. rewrite Hsel, <- Htot.
  destruct rows as [| row0 rows'].
  { eexists. split; reflexivity. }
  eexists. split; [reflexivity|]. cbn [totalBooks].
  rewrite fold_left_counts. exact (Z.add_0_l _).
Qed.

(** X19: under the schema's keys (user ids and book ids are primary keys,
    every loan refers to a user and a book of the tables), totalBooks of the
    Reading DNA profile is the number of the reader's loan rows, a book
    borrowed twice counting twice: the read-set of the recommender, which
    holds distinct book ids, is never larger. *)
Theorem readingDNA_total_is_loan_count (uid : string) (db : Store.Database)
    (dna : ReadingDNA) (target : JSSet.t)
    (Husers : NoDup (map User.user_id (Store.users db)))
    (Hbooks : NoDup (map Book.book_id (Store.books db)))
    (Hfk : forall l, In l (Store.loans db) ->
             In (Loan.user_id l) (map User.user_id (Store.users db))
             /\ In (Loan.book_id l) (map Book.book_id (Store.books db)))
    (Hdna : run (getReadingDNA uid) db = Some dna)
    (Hset : run (_getBorrowedBooks uid) db = Some target) :
  totalBooks dna = Z.of_nat (List.length (loans_of_reader db uid))
  /\ JSSet.size target <= totalBooks dna.
Proof.
  destruct (readingDNA_total_rows uid db) as [dna' [Hrun Htot]].
  unfold run in Hdna. rewrite Hrun in Hdna. simpl in Hdna.
  injection Hdna as <-.
  rewrite Htot, (selected_rows_count uid db Husers Hbooks Hfk).
  split; [reflexivity|].
  unfold run, _getBorrowedBooks, bind, execute, ret, select_borrowed_books
    in Hset.
  cbn [snd] in Hset. injection Hset as <-.
  unfold JSSet.size, JSSet.of_list.
  pose proof (of_list_length
                (map Loan.book_id
                     (filter (fun l => String.eqb (Loan.user_id l) uid)
                             (Store.loans db))) []) as H.
  rewrite length_map in H. simpl in H. unfold loans_of_reader. lia.
Qed.

Lemma readingDNA_total_is_loan_count_witness :
  exists dna target,
    run (getReadingDNA "U001") sample_db = Some dna
    /\ run (_getBorrowedBooks "U001") sample_db = Some target
    /\ totalBooks dna = Z.of_nat (List.length (loans_of_reader sample_db "U001"))
    /\ JSSet.size target <= totalBooks dna.
Proof.
  assert (Husers : NoDup (map User.user_id (Store.users sample_db)))
    by (vm_compute; solve_NoDup).
  assert (Hbooks : NoDup (map Book.book_id (Store.books sample_db)))
    by (vm_compute; solve_NoDup).
  assert (Hfk : forall l, In l (Store.loans sample_db) ->
                  In (Loan.user_id l) (map User.user_id (Store.users sample_db))
                  /\ In (Loan.book_id l)
                        (map Book.book_id (Store.books sample_db))).
  { apply Forall_forall. vm_compute.
    repeat (constructor; [split; tauto|]). constructor. }
  do 2 eexists. split; [vm_compute; reflexivity|].
  split; [vm_compute; reflexivity|].
  apply (readingDNA_total_is_loan_count "U001" sample_db _ _ Husers Hbooks Hfk);
    vm_compute; reflexivity.
Defined.

(** ** The HTTP routes *)

Lemma map_index_length {A B} (f : A -> Z -> B) (arr : list A) (index : Z) :
  List.length (Server.map_index f arr index) = List.length arr.
Proof.
  revert index. induction arr as [| x arr IH]; intros index; simpl;
    [reflexivity | now rewrite IH].
Qed.

Lemma map_index_nth {A B} (f : A -> Z -> B) (arr : list A) (index : Z) (k : nat) :
  nth_error (Server.map_index f arr index) k
  = option_map (fun x => f x (index + Z.of_nat k)) (nth_error arr k).
Proof.
  revert index k. induction arr as [| x arr IH]; intros index [| k]; simpl;
    try reflexivity.
  - now rewrite Z.add_0_r.
  - rewrite IH. destruct (nth_error arr k); simpl; [|reflexivity].
    do 2 f_equal. lia.
Qed.

Lemma map_index_In {A B} (f : A -> Z -> B) (arr : list A) (index : Z) (y : B) :
  In y (Server.map_index f arr index) -> exists x i, In x arr /\ y = f x i.
Proof.
  revert index. induction arr as [| x arr IH]; intros index; simpl; [tauto|].
  intros [<- | H].
  - exists x, index. auto.
  - destruct (IH _ H) as [x' [i [Hin ->]]]. exists x', i. auto.
Qed.

(** What the recommend route does with the outcome of the service. *)
Lemma recommend_route_run (localeCompare : string -> string -> Z)
    (userId : string) (db : Store.Database) :
  Server.isValidUserId userId = true ->
  Server.recommend localeCompare userId db
  = (sent (getRecommendations localeCompare userId (mkOpts (Some 5) None)) db,
     match
       run (getRecommendations localeCompare userId (mkOpts (Some 5) None)) db
     with
     | Some raw =>
         Server.mkResponse 200
           (Server.Recommendations userId
              (Z.of_nat (List.length (Server.map_index Server.shape raw 0)))
              (Server.map_index Server.shape raw 0))
     | None =>
         Server.mkResponse 500
           (Server.Failure "Internal server error. Please try again.")
     end).
Proof.
  intros Hvalid. unfold Server.recommend, Server.asyncHandler, sent, run.
  rewrite Hvalid. cbn [negb]. unfold bind.
  destruct (getRecommendations localeCompare userId (mkOpts (Some 5) None) db)
    as [log [raw |]]; cbn [ret fst snd]; [|reflexivity].
  now rewrite app_nil_r.
Qed.

(** X20: the recommend route answers 400 to an identifier that is not U
    followed by three digits, without sending any statement to the
    database.  To a well-formed identifier it answers 200 with at most five
    recommendations, [count] being their number, ranked 1, 2, ... in the
    order of the service's list, from which each takes its book id, title,
    author, Dewey code and match score; or else 500, which happens in one
    case only: the reader has a loan, and so has another reader whose id
    names a property every object inherits, so that the service throws. *)
Theorem recommend_route_response (localeCompare : string -> string -> Z)
    (userId : string) (db : Store.Database) :
  if Server.isValidUserId userId
  then
    fst (Server.recommend localeCompare userId db)
    = sent (getRecommendations localeCompare userId (mkOpts (Some 5) None)) db
    /\ match
         run (getRecommendations localeCompare userId (mkOpts (Some 5) None)) db
       with
       | Some raw =>
           (loans_of_reader db userId = []
            \/ forall l, In l (Store.loans db) -> Loan.user_id l <> userId ->
                 JSObject.inherited (Loan.user_id l) = false)
           /\ exists recs,
                snd (Server.recommend localeCompare userId db)
                = Server.mkResponse 200
                    (Server.Recommendations userId
                       (Z.of_nat (List.length recs)) recs)
                /\ (List.length recs <= 5)%nat
                /\ List.length recs = List.length raw
                /\ forall k r, nth_error recs k = Some r ->
                     Server.rank r = Z.of_nat k + 1
                     /\ exists b, nth_error raw k = Some b
                          /\ Server.book_id r = book_id b
                          /\ Server.title r = title b
                          /\ Server.author r = author b
                          /\ Server.dewey_decimal r = dewey_decimal b
                          /\ Server.match_score r = match_score b
       | None =>
           snd (Server.recommend localeCompare userId db)
           = Server.mkResponse 500
               (Server.Failure "Internal server error. Please try again.")
           /\ loans_of_reader db userId <> []
           /\ exists l, In l (Store.loans db) /\ Loan.user_id l <> userId
                        /\ JSObject.inherited (Loan.user_id l) = true
       end
  else
    Server.recommend localeCompare userId db
    = ([], Server.mkResponse 400
             (Server.Failure
                ("Invalid userId format. Expected format: U001, U002, … Got: "
                 ++ Server.quote ++ userId ++ Server.quote)%string)).
Proof.
  destruct (Server.isValidUserId userId) eqn:Hvalid.
  2:{ unfold Server.recommend, Server.asyncHandler. rewrite Hvalid.
      reflexivity. }
  rewrite (recommend_route_run localeCompare userId db Hvalid). cbn [fst snd].
  split; [reflexivity|].
  destruct (recommend_outcome localeCompare userId (mkOpts (Some 5) None) db)
    as [log [_ Hout]]; [simpl; lia|].
  destruct (run (getRecommendations localeCompare userId (mkOpts (Some 5) None))
                db) as [raw |].
  - destruct Hout as [Hcause [Hlen _]]. split; [exact Hcause|].
    exists (Server.map_index Server.shape raw 0).
    split; [reflexivity|].
    rewrite map_index_length. split; [exact Hlen|]. split; [reflexivity|].
    intros k r Hk. rewrite map_index_nth in Hk.
    destruct (nth_error raw k) as [b |]; [|discriminate].
    injection Hk as <-. destruct b. simpl.
    split; [reflexivity|]. eexists. split; [reflexivity|]. repeat split.
  - split; [reflexivity | exact Hout].
Qed.

(** X21: the recommend route answers a well-formed identifier with 500 (in
    the one case in which the service throws) or with 200, and then all the
    reasons are of one kind: the trending text for a reader without loans;
    for a reader with loans either the subjects text throughout, or
    throughout the similar-tastes text with the number of recommending
    peers, which is at least 1 and is followed by the plural s exactly when
    it is not 1. *)
Theorem recommend_route_reasons (localeCompare : string -> string -> Z)
    (userId : string) (db : Store.Database)
    (Hvalid : Server.isValidUserId userId = true) :
  (snd (Server.recommend localeCompare userId db)
   = Server.mkResponse 500
       (Server.Failure "Internal server error. Please try again.")
   /\ loans_of_reader db userId <> []
   /\ exists l, In l (Store.loans db) /\ Loan.user_id l <> userId
                /\ JSObject.inherited (Loan.user_id l) = true)
  \/ exists count recs,
       snd (Server.recommend localeCompare userId db)
       = Server.mkResponse 200 (Server.Recommendations userId count recs)
       /\ ((loans_of_reader db userId = []
            /\ forall r, In r recs ->
                 Server.reason r
                 = "Trending in the library — popular with all readers right now"%string)
           \/ (loans_of_reader db userId <> []
               /\ forall r, In r recs ->
                    Server.reason r
                    = "Popular in subjects you already enjoy reading"%string)
           \/ (loans_of_reader db userId <> []
               /\ forall r, In r recs ->
                    exists n,
                      1 <= n
                      /\ Server.reason r
                         = ("Readers with similar tastes also enjoyed this book"
                            ++ " (matched by "
                            ++ JSNumber.String_ (JSNumber.IFinite n)
                            ++ " peer reader"
                            ++ (if (n =? 1)%Z then EmptyString else "s")
                            ++ ")")%string)).
Proof.
  rewrite (recommend_route_run localeCompare userId db Hvalid). cbn [snd].
  destruct (recommend_outcome localeCompare userId (mkOpts (Some 5) None) db)
    as [log [_ Hout]]; [simpl; lia|].
  destruct (run (getRecommendations localeCompare userId (mkOpts (Some 5) None))
                db) as [raw |].
  2:{ left. split; [reflexivity | exact Hout]. }
  right. destruct Hout as [_ [_ Hkind]].
  do 2 eexists. split; [reflexivity|].
  destruct Hkind as [[Ht H] | [[Ht H] | [Ht H]]].
  - left. split; [exact Ht|]. intros r Hr.
    apply map_index_In in Hr. destruct Hr as [b [i [Hb ->]]].
    destruct (H b Hb) as [Hfb _]. destruct b. simpl in *. now rewrite Hfb.
  - right. left. split; [exact Ht|]. intros r Hr.
    apply map_index_In in Hr. destruct Hr as [b [i [Hb ->]]].
    destruct (H b Hb) as [Hfb _]. destruct b. simpl in *. now rewrite Hfb.
  - right. right. split; [exact Ht|]. intros r Hr.
    apply map_index_In in Hr. destruct Hr as [b [i [Hb ->]]].
    destruct (H b Hb) as [Hfb Hrb]. destruct b. simpl in *. subst.
    exists (Z.of_nat (List.length recommended_by0)). split.
    + destruct recommended_by0; [contradiction | simpl; lia].
    + simpl. destruct (Z.of_nat (List.length recommended_by0) =? 1);
        reflexivity.
Qed.

Lemma recommend_route_reasons_witness :
  exists count recs,
    snd (Server.recommend code_unit_compare "U001" sample_db)
    = Server.mkResponse 200 (Server.Recommendations "U001" count recs).
Proof.
  destruct (recommend_route_reasons code_unit_compare "U001" sample_db eq_refl)
    as [[H _] | [count [recs [H _]]]].
  - exfalso. revert H. vm_compute. discriminate.
  - now exists count, recs.
Defined.

(** The profile in terms of the rows of its statement. *)
Lemma readingDNA_outcome (uid : string) (db : Store.Database) :
  exists dna rows,
    select_reading_dna uid db = Some rows
    /\ getReadingDNA uid db = ([SelectReadingDNA uid], Some dna)
    /\ userId dna = uid
    /\ totalBooks dna = total (map book_count rows)
    /\ List.length (breakdown dna) = List.length rows
    /\ (rows = [] -> totalBooks dna = 0)
    /\ (rows <> [] -> 1 <= totalBooks dna).
Proof.
  destruct (select_reading_dna_facts uid db)
    as [rows [Hsel [_ [_ [Hrows _]]]]].
  unfold getReadingDNA, bind, execute. rewrite Hsel.
  destruct rows as [| row0 rows'].
  { exists (mkDNA uid "Unknown" 0 [] "No reading history found."), [].
    repeat split; auto. intros H. now contradiction H. }
  set (rows := row0 :: rows') in *.
  eexists. exists rows. split; [reflexivity|]. split; [reflexivity|].
  cbn [userId totalBooks breakdown]. rewrite fold_left_counts, length_map.
  split; [reflexivity|]. split; [exact (Z.add_0_l _)|]. split; [reflexivity|].
  split; [discriminate|]. intros _.
  assert (1 <= total (map book_count rows)); [|lia].
  apply total_positive_counts; [|discriminate].
  intros c Hc. apply in_map_iff in Hc. destruct Hc as [r [<- Hr]].
  apply (Hrows r Hr).
Qed.

(** X22: the patterns route answers 400 to a malformed identifier without
    sending any statement; otherwise it sends the one Reading DNA statement
    and answers 404 when the profile has no breakdown entry, and else 200
    with the profile, whose totalBooks is then at least 1. *)
Theorem patterns_route_response (uid : string) (db : Store.Database) :
  if Server.isValidUserId uid
  then
    fst (Server.patterns uid db) = [SelectReadingDNA uid]
    /\ exists dna,
         run (getReadingDNA uid) db = Some dna
         /\ ((breakdown dna = []
              /\ snd (Server.patterns uid db)
                 = Server.mkResponse 404
                     (Server.FailureFor uid
                        ("No reading history found for user " ++ Server.quote
                         ++ uid ++ Server.quote ++ ".")%string))
             \/ (breakdown dna <> []
                 /\ 1 <= totalBooks dna
                 /\ snd (Server.patterns uid db)
                    = Server.mkResponse 200
                        (Server.Patterns uid (name dna) (totalBooks dna)
                                         (summary dna) (breakdown dna))))
  else
    Server.patterns uid db
    = ([], Server.mkResponse 400
             (Server.Failure
                ("Invalid userId format. Expected format: U001, U002, … Got: "
                 ++ Server.quote ++ uid ++ Server.quote)%string)).
Proof.
  unfold Server.patterns, Server.asyncHandler.
  destruct (Server.isValidUserId uid); [|reflexivity].
  cbn [negb].
  destruct (readingDNA_outcome uid db)
    as [dna [rows [_ [Hrun [Hid [_ [Hlen [Hzero Hpos]]]]]]]].
  unfold bind, run. rewrite Hrun. cbn [snd].
  destruct dna as [id nm tot bd sm]. cbn [userId totalBooks breakdown] in *.
  subst id.
  destruct rows as [| row0 rows'].
  - rewrite (Hzero eq_refl). cbn [Z.eqb ret fst snd app].
    split; [reflexivity|]. eexists. split; [reflexivity|]. left.
    destruct bd; [|discriminate]. split; reflexivity.
  - assert (H1 : 1 <= tot) by (apply Hpos; discriminate).
    destruct (tot =? 0) eqn:E; [apply Z.eqb_eq in E; lia|].
    cbn [ret fst snd app]. split; [reflexivity|].
    eexists. split; [reflexivity|]. right.
    split; [destruct bd; [discriminate Hlen | discriminate]|].
    split; [exact H1 | reflexivity].
Qed.

(** X23: under the schema's keys the patterns route answers 404 to a
    well-formed identifier exactly when the reader has no loan row; for a
    reader with loans it answers 200 and totalBooks is the number of those
    rows. *)
Theorem patterns_route_loans (uid : string) (db : Store.Database)
    (Hvalid : Server.isValidUserId uid = true)
    (Husers : NoDup (map User.user_id (Store.users db)))
    (Hbooks : NoDup (map Book.book_id (Store.books db)))
    (Hfk : forall l, In l (Store.loans db) ->
             In (Loan.user_id l) (map User.user_id (Store.users db))
             /\ In (Loan.book_id l) (map Book.book_id (Store.books db))) :
  match loans_of_reader db uid with
  | [] => Server.status (snd (Server.patterns uid db)) = 404
  | _ :: _ =>
      exists name summary breakdown,
        snd (Server.patterns uid db)
        = Server.mkResponse 200
            (Server.Patterns uid name
               (Z.of_nat (List.length (loans_of_reader db uid)))
               summary breakdown)
  end.
Proof.
  unfold Server.patterns, Server.asyncHandler. rewrite Hvalid. cbn [negb].
  destruct (readingDNA_outcome uid db)
    as [dna [rows [Hsel [Hrun [Hid [Htot _]]]]]].
  destruct (select_reading_dna_facts uid db)
    as [rows' [Hsel' [_ [_ [_ Hcount]]]]].
  rewrite Hsel in Hsel'. injection Hsel' as <-.
  rewrite (selected_rows_count uid db Husers Hbooks Hfk) in Hcount.
  rewrite Hcount in Htot.
  unfold bind. rewrite Hrun.
  destruct dna as [id nm tot bd sm]. cbn [userId totalBooks] in *. subst id.
  destruct (loans_of_reader db uid) as [| l ls].
  - simpl in Htot. subst tot. reflexivity.
  - destruct (tot =? 0) eqn:E; [apply Z.eqb_eq in E; simpl in Htot; lia|].
    cbn [ret snd]. rewrite Htot. now exists nm, sm, bd.
Qed.

Lemma patterns_route_loans_witness :
  exists name summary breakdown,
    snd (Server.patterns "U001" sample_db)
    = Server.mkResponse 200
        (Server.Patterns "U001" name
           (Z.of_nat (List.length (loans_of_reader sample_db "U001")))
           summary breakdown).
Proof.
  assert (Husers : NoDup (map User.user_id (Store.users sample_db)))
    by (vm_compute; solve_NoDup).
  assert (Hbooks : NoDup (map Book.book_id (Store.books sample_db)))
    by (vm_compute; solve_NoDup).
  assert (Hfk : forall l, In l (Store.loans sample_db) ->
                  In (Loan.user_id l) (map User.user_id (Store.users sample_db))
                  /\ In (Loan.book_id l)
                        (map Book.book_id (Store.books sample_db))).
  { apply Forall_forall. vm_compute.
    repeat (constructor; [split; tauto|]). constructor. }
  exact (patterns_route_loans "U001" sample_db eq_refl Husers Hbooks Hfk).
Defined.

(** ** The seeder: batches *)

Lemma slice_batch {A} (arr : list A) (size i : Z) :
  1 <= size -> 0 <= i -> i < Z.of_nat (List.length arr) ->
  Seed.slice arr i (i + size)
  = firstn (Z.to_nat size) (skipn (Z.to_nat i) arr).
Proof.
  intros Hs Hi Hlt. unfold Seed.slice.
  destruct (i <? 0) eqn:E1; [apply Z.ltb_lt in E1; lia|].
  destruct (i + size <? 0) eqn:E2; [apply Z.ltb_lt in E2; lia|].
  rewrite (Z.min_l i) by lia.
  destruct (Z.le_ge_cases (i + size) (Z.of_nat (List.length arr))) as [H | H].
  - rewrite Z.min_l by lia. f_equal. lia.
  - rewrite Z.min_r by lia.
    rewrite (firstn_all2 (n := Z.to_nat size)) by (rewrite length_skipn; lia).
    apply firstn_all2. rewrite length_skipn. lia.
Qed.

(** The loop of [chunk] from a position [i] that is not negative, with a
    positive size and enough fuel. *)
Lemma chunk_loop_spec {A} (arr : list A) (size : Z) (Hs : 1 <= size)
    (fuel : nat) :
  forall (i : Z) (batches : list (list A)),
    0 <= i ->
    (List.length arr - Z.to_nat i < fuel)%nat ->
    exists bs,
      Seed.chunk_loop fuel arr size i batches = Some (batches ++ bs)
      /\ List.concat bs = skipn (Z.to_nat i) arr
      /\ Forall (fun b => (1 <= List.length b <= Z.to_nat size)%nat) bs
      /\ (forall k, (S k < List.length bs)%nat ->
            List.length (nth k bs []) = Z.to_nat size)
      /\ Z.of_nat (List.length bs)
         = (Z.max (Z.of_nat (List.length arr) - i) 0 + size - 1) / size.
Proof.
  induction fuel as [| fuel IH]; intros i batches Hi Hfuel; [lia|].
  cbn [Seed.chunk_loop].
  destruct (i <? Z.of_nat (List.length arr)) eqn:E.
  - apply Z.ltb_lt in E.
    destruct (IH (i + size) (batches ++ [Seed.slice arr i (i + size)]))
      as [bs [Hrun [Hcat [Hall [Hfull Hnum]]]]]; [lia | lia |].
    rewrite slice_batch in * by assumption.
    set (b := firstn (Z.to_nat size) (skipn (Z.to_nat i) arr)) in *.
    assert (Hb : List.length b
                 = Nat.min (Z.to_nat size) (List.length arr - Z.to_nat i))
      by (unfold b; rewrite length_firstn, length_skipn; reflexivity).
    exists (b :: bs). split; [|split; [|split; [|split]]].
    + rewrite Hrun, <- app_assoc. reflexivity.
    + cbn [List.concat]. rewrite Hcat.
      replace (Z.to_nat (i + size)) with (Z.to_nat size + Z.to_nat i)%nat by lia.
      rewrite <- skipn_skipn. apply firstn_skipn.
    + constructor; [lia | exact Hall].
    + intros [| k] Hk; cbn [nth List.length] in *.
      * destruct bs as [| b' bs']; [simpl in Hk; lia|].
        assert (Hmore : 1 <= Z.of_nat (List.length (b' :: bs')))
          by (simpl; lia).
        rewrite Hnum in Hmore.
        destruct (Z.le_gt_cases (Z.of_nat (List.length arr)) (i + size))
          as [Hle | Hgt]; [|lia].
        rewrite Z.max_r in Hmore by lia.
        rewrite Z.div_small in Hmore by lia. lia.
      * apply Hfull. lia.
    + cbn [List.length]. rewrite Nat2Z.inj_succ, Hnum.
      rewrite (Z.max_l (_ - i)) by lia.
      destruct (Z.le_gt_cases (Z.of_nat (List.length arr)) (i + size))
        as [Hle | Hgt].
      * rewrite Z.max_r by lia. rewrite Z.div_small by lia.
        apply Z.div_unique with (r := Z.of_nat (List.length arr) - i - 1);
          lia.
      * rewrite Z.max_l by lia.
        replace (Z.of_nat (List.length arr) - i + size - 1)
          with (Z.of_nat (List.length arr) - (i + size) + size - 1 + 1 * size)
          by lia.
        rewrite Z.div_add by lia. lia.
  - apply Z.ltb_ge in E. exists []. rewrite app_nil_r.
    split; [reflexivity|]. split.
    + symmetry. apply skipn_all2. lia.
    + split; [constructor|]. split; [simpl; intros; lia|].
      rewrite Z.max_r by lia. simpl. rewrite Z.div_small by lia. reflexivity.
Qed.

Lemma chunk_loop_more_fuel {A} (arr : list A) (size : Z) (fuel : nat) :
  forall (fuel' : nat) (i : Z) (batches result : list (list A)),
    (fuel <= fuel')%nat ->
    Seed.chunk_loop fuel arr size i batches = Some result ->
    Seed.chunk_loop fuel' arr size i batches = Some result.
Proof.
  induction fuel as [| fuel IH]; intros fuel' i batches result Hle H;
    [discriminate|].
  destruct fuel' as [| fuel']; [lia|]. cbn [Seed.chunk_loop] in *.
  destruct (i <? Z.of_nat (List.length arr)); [|exact H].
  apply IH; [lia | exact H].
Qed.

(** X24: for a positive size, [chunk] returns, with any number of loop
    tests beyond the length of the array, batches that put together give
    the array back; no batch is empty or longer than the size, every batch
    before the last has exactly the size, and their number is the length
    divided by the size, rounded up. *)
Theorem chunk_batches {A} (arr : list A) (size : Z) (Hsize : 1 <= size) :
  exists batches,
    (forall fuel, (List.length arr < fuel)%nat ->
       Seed.chunk fuel arr size = Some batches)
    /\ List.concat batches = arr
    /\ Forall (fun b => (1 <= List.length b <= Z.to_nat size)%nat) batches
    /\ (forall k, (S k < List.length batches)%nat ->
          List.length (nth k batches []) = Z.to_nat size)
    /\ Z.of_nat (List.length batches)
       = (Z.of_nat (List.length arr) + size - 1) / size.
Proof.
  destruct (chunk_loop_spec arr size Hsize (S (List.length arr)) 0 [])
    as [bs [Hrun [Hcat [Hall [Hfull Hnum]]]]]; [lia | simpl; lia |].
  exists bs. split; [|split; [exact Hcat|]].
  - intros fuel Hfuel. unfold Seed.chunk.
    apply (chunk_loop_more_fuel arr size (S (List.length arr))); [lia|].
    exact Hrun.
  - split; [exact Hall|]. split; [exact Hfull|].
    rewrite Hnum. f_equal. lia.
Qed.

Lemma chunk_batches_witness :
  1 <= 2
  /\ exists batches,
       Seed.chunk 6 ["a"; "b"; "c"; "d"; "e"]%string 2 = Some batches
       /\ List.concat batches = ["a"; "b"; "c"; "d"; "e"]%string.
Proof.
  split; [lia|].
  destruct (chunk_batches ["a"; "b"; "c"; "d"; "e"]%string 2 ltac:(lia))
    as [batches [Hrun [Hcat _]]].
  exists batches. split; [apply Hrun; simpl; lia | exact Hcat].
Defined.

Lemma chunk_loop_forever {A} (arr : list A) (size : Z) (fuel : nat) :
  size <= 0 -> arr <> [] ->
  forall (i : Z) (batches : list (list A)),
    i <= 0 -> Seed.chunk_loop fuel arr size i batches = None.
Proof.
  intros Hs Hne. induction fuel as [| fuel IH]; intros i batches Hi;
    [reflexivity|].
  cbn [Seed.chunk_loop].
  destruct (i <? Z.of_nat (List.length arr)) eqn:E.
  - apply IH. lia.
  - apply Z.ltb_ge in E. destruct arr; [contradiction | simpl in E; lia].
Qed.

(** X25: for a size that is 0 or negative and an array that is not empty,
    the loop of [chunk] never ends: no number of loop tests gives a
    result. *)
Theorem chunk_diverges {A} (arr : list A) (size : Z)
    (Hsize : size <= 0) (Harr : arr <> []) :
  forall fuel, Seed.chunk fuel arr size = None.
Proof.
  intros fuel. unfold Seed.chunk.
  apply chunk_loop_forever; [exact Hsize | exact Harr | lia].
Qed.

Lemma chunk_diverges_witness :
  0 <= 0 /\ ["a"]%string <> []
  /\ Seed.chunk 1000 ["a"]%string 0 = None.
Proof.
  split; [lia|]. split; [discriminate|].
  apply (chunk_diverges ["a"]%string 0); [lia | discriminate].
Defined.

(** ** The seeder: statements *)

Lemma insert_loop (table : string) (columns : list string)
    (batches : list (list (list string))) :
  forall (executed : list Seed.Insert) (inserted : Z),
    fold_left
      (fun '(executed, inserted) batch =>
         (executed ++ [Seed.insert_statement table columns batch],
          inserted + Z.of_nat (List.length batch)))
      batches (executed, inserted)
    = (executed ++ map (Seed.insert_statement table columns) batches,
       inserted + Z.of_nat (List.length (List.concat batches))).
Proof.
  induction batches as [| b batches IH]; intros executed inserted; simpl.
  - now rewrite app_nil_r, Z.add_0_r.
  - rewrite IH, <- app_assoc, length_app. simpl. f_equal. lia.
Qed.

(** [bulkInsert] executes one statement per batch of [chunk]. *)
Lemma bulkInsert_run (table : string) (columns : list string)
    (rows : list (list string)) (label : string) :
  exists batches,
    Seed.bulkInsert table columns rows label
    = Some (map (Seed.insert_statement table columns) batches,
            match rows with
            | [] => ("  ⚠  No " ++ label ++ " to insert.")%string
            | _ :: _ =>
                ("  ✅  " ++ label ++ ": "
                 ++ JSNumber.String_
                      (JSNumber.IFinite (Z.of_nat (List.length rows)))
                 ++ " row(s) upserted into " ++ Seed.backtick ++ table
                 ++ Seed.backtick ++ ".")%string
            end)
    /\ List.concat batches = rows
    /\ Forall (fun b => (1 <= List.length b <= 100)%nat) batches
    /\ Z.of_nat (List.length batches)
       = (Z.of_nat (List.length rows) + 99) / 100.
Proof.
  unfold Seed.bulkInsert.
  destruct rows as [| row rows'].
  { exists []. simpl. repeat split; constructor. }
  set (rows := row :: rows').
  replace (Z.of_nat (List.length rows) =? 0) with false
    by (symmetry; apply Z.eqb_neq; simpl; lia).
  destruct (chunk_loop_spec rows 100 ltac:(lia) (S (List.length rows)) 0 [])
    as [bs [Hrun [Hcat [Hall [_ Hnum]]]]]; [lia | simpl; lia |].
  unfold Seed.chunk. rewrite Hrun. cbn [app].
  rewrite insert_loop. cbn [app]. simpl in Hcat. rewrite Hcat.
  exists bs. split; [reflexivity|]. split; [exact Hcat|].
  split; [exact Hall|]. rewrite Hnum. f_equal. lia.
Qed.

(** X26: [bulkInsert] always completes; it executes one statement for every
    hundred rows, rounded up (none for no rows), each statement carrying
    between 1 and 100 of the rows, and the values of the statements in
    order are the values of the rows in order. *)
Theorem bulkInsert_batches (table : string) (columns : list string)
    (rows : list (list string)) (label : string) :
  exists executed line,
    Seed.bulkInsert table columns rows label = Some (executed, line)
    /\ Z.of_nat (List.length executed)
       = (Z.of_nat (List.length rows) + 99) / 100
    /\ List.concat (map Seed.flatValues executed) = List.concat rows
    /\ forall st, In st executed ->
         exists batch,
           st = Seed.insert_statement table columns batch
           /\ (1 <= List.length batch <= 100)%nat
           /\ incl batch rows.
Proof.
  destruct (bulkInsert_run table columns rows label)
    as [batches [Hrun [Hcat [Hall Hnum]]]].
  do 2 eexists. split; [exact Hrun|].
  rewrite length_map, map_map. unfold Seed.insert_statement.
  cbn [Seed.flatValues].
  split; [exact Hnum|]. split.
  - rewrite <- Hcat. clear.
    induction batches as [| b batches IH]; simpl; [reflexivity|].
    now rewrite concat_app, IH.
  - intros st Hst. apply in_map_iff in Hst. destruct Hst as [batch [<- Hb]].
    exists batch. split; [reflexivity|]. split.
    + apply (proj1 (Forall_forall _ _) Hall batch Hb).
    + intros row Hrow. rewrite <- Hcat. apply in_concat. now exists batch.
Qed.

Lemma count_append (c : ascii) (a b : string) :
  count_char c (a ++ b) = (count_char c a + count_char c b)%nat.
Proof. induction a as [| x a IH]; simpl; [reflexivity | rewrite IH; lia]. Qed.

Lemma count_join (c : ascii) (sep : string) (l : list string) :
  count_char c sep = 0%nat ->
  count_char c (JSString.join sep l) = list_sum (map (count_char c) l).
Proof.
  intros Hsep. unfold JSString.join.
  induction l as [| x l IH]; [reflexivity|].
  destruct l as [| y l].
  - simpl. lia.
  - change (String.concat sep (x :: y :: l))
      with (x ++ sep ++ String.concat sep (y :: l))%string.
    rewrite !count_append, IH, Hsep. simpl. lia.
Qed.

Lemma list_sum_constant {A} (f : A -> nat) (n : nat) (l : list A) :
  (forall x, In x l -> f x = n) -> list_sum (map f l) = (List.length l * n)%nat.
Proof.
  induction l as [| x l IH]; simpl; intros H; [reflexivity|].
  rewrite (H x (or_introl eq_refl)), IH by auto. reflexivity.
Qed.

Lemma length_concat_constant {A} (n : nat) (l : list (list A)) :
  (forall x, In x l -> List.length x = n) ->
  List.length (List.concat l) = (List.length l * n)%nat.
Proof.
  induction l as [| x l IH]; simpl; intros H; [reflexivity|].
  rewrite length_app, (H x (or_introl eq_refl)), IH by auto. reflexivity.
Qed.

(** X27: when every row has one value per column and neither the table
    name nor a column name contains a question mark, every statement
    [bulkInsert] executes has exactly as many placeholders as values. *)
Theorem bulkInsert_placeholders (table : string) (columns : list string)
    (rows : list (list string)) (label : string)
    (executed : list Seed.Insert) (line : string)
    (Hrows : forall row, In row rows -> List.length row = List.length columns)
    (Htable : count_char "?" table = 0%nat)
    (Hcolumns : forall c, In c columns -> count_char "?" c = 0%nat)
    (Hrun : Seed.bulkInsert table columns rows label = Some (executed, line)) :
  forall st, In st executed ->
    count_char "?" (Seed.sql st) = List.length (Seed.flatValues st).
Proof.
  destruct (bulkInsert_run table columns rows label)
    as [batches [Hrun' [Hcat _]]].
  rewrite Hrun in Hrun'. injection Hrun' as -> _.
  intros st Hst. apply in_map_iff in Hst. destruct Hst as [batch [<- Hb]].
  assert (Hbatch : forall row, In row batch ->
                     List.length row = List.length columns).
  { intros row Hrow. apply Hrows. rewrite <- Hcat. apply in_concat.
    now exists batch. }
  unfold Seed.insert_statement. cbn [Seed.sql Seed.flatValues].
  rewrite (length_concat_constant (List.length columns)) by exact Hbatch.
  assert (Hplace : count_char "?" (Seed.placeholders columns)
                   = List.length columns).
  { unfold Seed.placeholders. rewrite !count_append, count_join by reflexivity.
    rewrite (list_sum_constant _ 1%nat), length_map by
      (intros x Hx; apply in_map_iff in Hx; now destruct Hx as [? [<- _]]).
    simpl. lia. }
  assert (Hupdate : count_char "?" (Seed.updateClause columns) = 0%nat).
  { unfold Seed.updateClause. rewrite count_join by reflexivity.
    rewrite (list_sum_constant _ 0%nat); [lia|].
    intros x Hx. apply in_map_iff in Hx. destruct Hx as [c [<- Hc]].
    rewrite !count_append, (Hcolumns c Hc). reflexivity. }
  assert (Hnames : count_char "?"
                     (JSString.join (Seed.backtick ++ ", " ++ Seed.backtick)
                                    columns) = 0%nat).
  { rewrite count_join by reflexivity.
    rewrite (list_sum_constant _ 0%nat); [lia|]. exact Hcolumns. }
  rewrite !count_append, Htable, Hupdate, Hnames.
  rewrite count_join by reflexivity.
  rewrite (list_sum_constant _ (List.length columns)), length_map by
    (intros x Hx; apply in_map_iff in Hx; destruct Hx as [? [<- _]];
     exact Hplace).
  simpl. lia.
Qed.

Lemma bulkInsert_placeholders_witness :
  exists executed line,
    Seed.bulkInsert "users" ["user_id"; "name"]%string
                    [["U001"; "Amaka"]; ["U002"; "Bola"]]%string "Users"
    = Some (executed, line)
    /\ forall st, In st executed ->
         count_char "?" (Seed.sql st) = List.length (Seed.flatValues st).
Proof.
  do 2 eexists. split; [vm_compute; reflexivity|].
  eapply (bulkInsert_placeholders "users" ["user_id"; "name"]%string
           [["U001"; "Amaka"]; ["U002"; "Bola"]]%string "Users").
  - intros row [<- | [<- | []]]; reflexivity.
  - reflexivity.
  - intros c [<- | [<- | []]]; reflexivity.
  - vm_compute. reflexivity.
Defined.

(** ** The test script: the bar of a percentage *)

Lemma count_repeat_char (c d : ascii) (n : nat) :
  count_char c (JSString.repeat_char d n)
  = if Ascii.eqb d c then n else 0%nat.
Proof.
  induction n as [| n IH]; simpl; [now destruct (Ascii.eqb d c)|].
  rewrite IH. now destruct (Ascii.eqb d c).
Qed.

(** The number of filled cells for a finite percentage. *)
Lemma filled_range (p : Q) :
  (0 <= Qfloor (p / inject_Z 5 + (1 # 2)) <-> (- (5 # 2) <= p)%Q)
  /\ (Qfloor (p / inject_Z 5 + (1 # 2)) <= 20 <-> (p < 205 # 2)%Q).
Proof.
  remember (p / inject_Z 5 + (1 # 2))%Q as y eqn:Ey.
  assert (Hy : (y == p * (1 # 5) + (1 # 2))%Q) by (rewrite Ey; field).
  clear Ey.
  pose proof (Qfloor_le y) as H1. pose proof (Qlt_floor y) as H2.
  rewrite inject_Z_plus in H2. change (inject_Z 1) with 1%Q in H2.
  assert (H0 : 0 <= Qfloor y <-> (0 <= inject_Z (Qfloor y))%Q).
  { change 0%Q with (inject_Z 0). rewrite <- Zle_Qle. reflexivity. }
  assert (H20 : Qfloor y <= 20 <-> (inject_Z (Qfloor y) <= 20)%Q).
  { change 20%Q with (inject_Z 20). rewrite <- Zle_Qle. reflexivity. }
  assert (Hint0 : (inject_Z (Qfloor y) <= - (1))%Q
                  \/ (0 <= inject_Z (Qfloor y))%Q).
  { destruct (Z_le_gt_dec (Qfloor y) (-1)) as [H | H].
    - left. change (- (1))%Q with (inject_Z (-1)). now rewrite <- Zle_Qle.
    - right. apply H0. lia. }
  assert (Hint20 : (inject_Z (Qfloor y) <= 20)%Q
                   \/ (21 <= inject_Z (Qfloor y))%Q).
  { destruct (Z_le_gt_dec (Qfloor y) 20) as [H | H].
    - left. now apply H20.
    - right. change 21%Q with (inject_Z 21). rewrite <- Zle_Qle. lia. }
  rewrite H0, H20. remember (inject_Z (Qfloor y)) as t eqn:Et. clear Et H0 H20.
  split; split; intros H.
  - lra.
  - destruct Hint0; lra.
  - lra.
  - destruct Hint20; lra.
Qed.

Lemma bar_finite (percentage : string) (p : Q) :
  JSNumber.parseFloat percentage = JSNumber.Finite p ->
  TestScript.bar percentage
  = let filled := Qfloor (p / inject_Z 5 + (1 # 2)) in
    if (filled <? 0) || (20 <? filled) then None
    else Some (JSString.repeat_char "#" (Z.to_nat filled)
               ++ JSString.repeat_char "." (Z.to_nat (20 - filled)))%string.
Proof.
  intros Hp. unfold TestScript.bar. rewrite Hp.
  cbn [TestScript.divide TestScript.Math_round TestScript.repeat
       TestScript.minus].
  set (filled := Qfloor (p / inject_Z 5 + (1 # 2))). cbv zeta.
  destruct (filled <? 0) eqn:E1; [reflexivity|].
  replace (20 - filled <? 0) with (20 <? filled)
    by (destruct (20 <? filled) eqn:E2; symmetry;
        [apply Z.ltb_lt in E2; apply Z.ltb_lt | apply Z.ltb_ge in E2; apply Z.ltb_ge];
        lia).
  now destruct (20 <? filled).
Qed.

(** X28: for a text that [parseFloat] reads as a finite number p, [bar]
    returns a string exactly when -2.5 <= p < 102.5; it then has 20
    characters, of which round(p / 5) are # and the rest dots.  Outside
    that range a repeat count is negative and the call fails. *)
Theorem bar_range (percentage : string) (p : Q)
    (Hp : JSNumber.parseFloat percentage = JSNumber.Finite p) :
  if Qle_bool (- (5 # 2)) p && negb (Qle_bool (205 # 2) p)
  then
    exists b,
      TestScript.bar percentage = Some b
      /\ String.length b = 20%nat
      /\ Z.of_nat (count_char "#" b) = Qfloor (p / inject_Z 5 + (1 # 2))
      /\ Z.of_nat (count_char "." b) = 20 - Qfloor (p / inject_Z 5 + (1 # 2))
  else TestScript.bar percentage = None.
Proof.
  rewrite (bar_finite percentage p Hp). cbv zeta.
  destruct (filled_range p) as [Hlow Hhigh].
  set (filled := Qfloor (p / inject_Z 5 + (1 # 2))) in *. clearbody filled.
  destruct (Qle_bool (- (5 # 2)) p) eqn:E1; cbn [andb].
  - apply Qle_bool_iff in E1. apply Hlow in E1.
    destruct (Qle_bool (205 # 2) p) eqn:E2; cbn [negb].
    + apply Qle_bool_iff in E2.
      assert (H : ~ filled <= 20) by (intros H; apply Hhigh in H; lra).
      replace (20 <? filled) with true by (symmetry; apply Z.ltb_lt; lia).
      now rewrite orb_true_r.
    + assert (H : filled <= 20).
      { apply Hhigh. apply Qnot_le_lt. intros H. apply Qle_bool_iff in H.
        congruence. }
      replace (filled <? 0) with false by (symmetry; apply Z.ltb_ge; lia).
      replace (20 <? filled) with false by (symmetry; apply Z.ltb_ge; lia).
      cbn [orb]. eexists. split; [reflexivity|].
      rewrite length_append, !length_repeat_char, !count_append,
        !count_repeat_char.
      change (Ascii.eqb "#" "#") with true.
      change (Ascii.eqb "." "#") with false.
      change (Ascii.eqb "#" ".") with false.
      change (Ascii.eqb "." ".") with true.
      repeat split; lia.
  - assert (H : ~ 0 <= filled).
    { intros H. apply Hlow in H. apply Qle_bool_iff in H. congruence. }
    replace (filled <? 0) with true by (symmetry; apply Z.ltb_lt; lia).
    reflexivity.
Qed.

Lemma bar_range_witness :
  exists b,
    TestScript.bar "42.86%" = Some b /\ String.length b = 20%nat
    /\ Z.of_nat (count_char "#" b) = 9.
Proof.
  assert (Hp : JSNumber.parseFloat "42.86%" = JSNumber.Finite (4286 # 100))
    by (vm_compute; reflexivity).
  pose proof (bar_range "42.86%" (4286 # 100) Hp) as H.
  destruct H as [b [Hb [Hlen [Hfilled _]]]].
  exists b. split; [exact Hb|]. split; [exact Hlen|]. exact Hfilled.
Defined.

Lemma total_ge_member (counts : list Z) (c : Z) :
  (forall x, In x counts -> 1 <= x) -> In c counts -> c <= total counts.
Proof.
  induction counts as [| x counts IH]; simpl; intros H Hc; [contradiction|].
  assert (G : 0 <= total counts).
  { destruct counts as [| y counts']; [simpl; lia|].
    assert (1 <= total (y :: counts')); [|lia].
    apply total_positive_counts; [|discriminate]. intros z Hz. apply H. now right. }
  destruct Hc as [-> | Hc]; [lia|].
  specialize (H x (or_introl eq_refl)) as Hx.
  assert (c <= total counts) by (apply IH; auto). lia.
Qed.

(** The share of a count in a total, as a percentage. *)
Lemma share_range (c t : Z) :
  1 <= c -> c <= t ->
  (0 <= inject_Z c / inject_Z t * 100 <= 100)%Q.
Proof.
  intros Hc Ht.
  assert (Hpos : (0 < inject_Z t)%Q).
  { change 0%Q with (inject_Z 0). rewrite <- Zlt_Qlt. lia. }
  assert (H0 : (0 <= inject_Z c / inject_Z t)%Q).
  { apply Qle_shift_div_l; [exact Hpos|]. rewrite Qmult_0_l.
    change 0%Q with (inject_Z 0). rewrite <- Zle_Qle. lia. }
  assert (H1 : (inject_Z c / inject_Z t <= 1)%Q).
  { apply Qle_shift_div_r; [exact Hpos|]. rewrite Qmult_1_l.
    now rewrite <- Zle_Qle. }
  remember (inject_Z c / inject_Z t)%Q as s eqn:Es. clear Es. split; lra.
Qed.

(** What the test script reads from the percentage printed for a share
    between 0 and 100, and the bar it draws. *)
Lemma percentage_bar (x : Q) :
  (0 <= x <= 100)%Q ->
  exists p b,
    JSNumber.parseFloat (toFixed x 2 ++ "%") = JSNumber.Finite p
    /\ (0 <= p <= 100)%Q
    /\ TestScript.bar (toFixed x 2 ++ "%") = Some b
    /\ String.length b = 20%nat.
Proof.
  intros [Hx0 Hx100].
  destruct (toFixed_shape x 2 ltac:(lia))
    as [I [F [E [HI [HF [HIne [HFlen Hval]]]]]]].
  assert (HFne : F <> EmptyString)
    by (destruct F; simpl in HFlen; [lia | discriminate]).
  assert (Hsign : Qle_bool 0 x = true) by now apply Qle_bool_iff.
  rewrite Hsign in E.
  change (toFixed x 2 = (I ++ "." ++ F)%string) in E.
  assert (Hparse : JSNumber.parseFloat ((I ++ "." ++ F) ++ "%")
                   = JSNumber.Finite
                       (JSNumber.digits_value (list_ascii_of_string (I ++ F))
                        # Z.to_pos (10 ^ Z.of_nat (String.length F))))
    by exact (parseFloat_signed_literal false I F "%" HI HF HIne HFne
                eq_refl eq_refl).
  rewrite <- E, Hval, HFlen in Hparse.
  set (n := toFixed_digits x 2) in *.
  assert (Hn0 : 0 <= n) by apply toFixed_digits_nonneg.
  assert (Hn100 : n <= 10000).
  { change 10000 with (toFixed_digits 100 2). apply toFixed_digits_mono.
    rewrite !Qabs_pos; [exact Hx100 | discriminate | exact Hx0]. }
  clearbody n.
  change (Z.to_pos (10 ^ Z.of_nat 2)) with 100%positive in Hparse.
  assert (Hp : (0 <= n # 100 <= 100)%Q).
  { split; unfold Qle; simpl; lia. }
  exists (n # 100)%Q. rewrite (bar_finite _ _ Hparse). cbv zeta.
  destruct (filled_range (n # 100)) as [Hlow Hhigh].
  set (filled := Qfloor ((n # 100) / inject_Z 5 + (1 # 2))) in *.
  clearbody filled.
  assert (H0 : 0 <= filled) by (apply Hlow; lra).
  assert (H20 : filled <= 20) by (apply Hhigh; lra).
  replace (filled <? 0) with false by (symmetry; apply Z.ltb_ge; lia).
  replace (20 <? filled) with false by (symmetry; apply Z.ltb_ge; lia).
  cbn [orb]. eexists. split; [exact Hparse|]. split; [exact Hp|].
  split; [reflexivity|].
  rewrite length_append, !length_repeat_char. lia.
Qed.

(** X29: every percentage of a Reading DNA breakdown reads back as a
    number between 0 and 100, and the test script's [bar] draws it as a
    string of 20 characters: the repeat counts are never negative. *)
Theorem readingDNA_bars (uid : string) (db : Store.Database) :
  exists dna,
    run (getReadingDNA uid) db = Some dna
    /\ forall e, In e (breakdown dna) ->
         exists p b,
           JSNumber.parseFloat (percentage e) = JSNumber.Finite p
           /\ (0 <= p <= 100)%Q
           /\ TestScript.bar (percentage e) = Some b
           /\ String.length b = 20%nat.
Proof.
  destruct (select_reading_dna_facts uid db)
    as [rows [Hsel [_ [_ [Hrows _]]]]].
  unfold run, getReadingDNA, bind, execute. rewrite Hsel.
  destruct rows as [| row0 rows'].
  { eexists. split; [reflexivity|]. intros e []. }
  set (rows := row0 :: rows') in *.
  eexists. split; [reflexivity|]. cbn [breakdown].
  rewrite fold_left_counts. intros e He.
  apply in_map_iff in He. destruct He as [r [<- Hr]]. cbn [percentage].
  apply percentage_bar. apply share_range; [apply (Hrows r Hr)|].
  rewrite Z.add_0_l. apply total_ge_member.
  - intros c Hc. apply in_map_iff in Hc. destruct Hc as [r' [<- Hr']].
    apply (Hrows r' Hr').
  - now apply in_map.
Qed.
